(** * CloudStack load-balancer reconciliation: a shallow embedding

    The development follows the load-balancer code and the service patcher
    of the CloudStack Kubernetes provider (package [cloudstack]).  Go values
    are modelled by their mathematical counterparts: [string] for strings,
    [list] for slices, [gmap] for maps, [Z] for integers.  Remote calls to
    the CloudStack API and to the Kubernetes API are requests answered by a
    platform handler; every request is appended to a trace. *)

From Stdlib Require Import ZArith Permutation Ascii String List.
From stdpp Require Import gmap strings list fin_maps pretty.

Local Open Scope Z_scope.
Local Set Warnings "-clear-no-such-hyp".

(** ** Go runtime *)

(** [range] over a Go map visits the entries in an order the language leaves
    unspecified.  The order is a parameter of the model: a function that
    permutes the entries it is given. *)
Class MapRange := {
  rangeOrder : ∀ {A : Type}, list A → list A;
  rangeOrder_perm : ∀ (A : Type) (l : list A), rangeOrder l ≡ₚ l
}.

(** The order in which entries were inserted: one admissible order. *)
Definition insertionOrder : MapRange :=
  {| rangeOrder := λ A l, l; rangeOrder_perm := λ A l, Permutation_refl l |}.

(** [strings.Split(s, sep)] for a one-byte separator. *)
Fixpoint Split (s : string) (sep : ascii) : list string :=
  match s with
  | EmptyString => [EmptyString]
  | String c s' =>
      if decide (c = sep) then EmptyString :: Split s' sep
      else match Split s' sep with
           | [] => [String c EmptyString]
           | h :: t => String c h :: t
           end
  end.

(** [strings.Join(elems, sep)]. *)
Fixpoint Join (elems : list string) (sep : string) : string :=
  match elems with
  | [] => ""
  | [e] => e
  | e :: rest => e +:+ sep +:+ Join rest sep
  end.

(** Whether byte [c] occurs in [s]. *)
Fixpoint ContainsByte (s : string) (c : ascii) : bool :=
  match s with
  | EmptyString => false
  | String d s' => bool_decide (d = c) || ContainsByte s' c
  end.

(** [strings.ToLower] on ASCII text; Kubernetes node names and CloudStack
    instance names are DNS labels, bytes outside A-Z are left alone. *)
Definition lowerByte (c : ascii) : ascii :=
  let n := nat_of_ascii c in
  if bool_decide (65 ≤ n ≤ 90)%nat then ascii_of_nat (n + 32) else c.

Fixpoint ToLower (s : string) : string :=
  match s with
  | EmptyString => EmptyString
  | String c s' => String (lowerByte c) (ToLower s')
  end.

(** [strconv.ParseInt(s, 10, 32)]: an optional sign, at least one decimal
    digit, and a value that fits 32 bits; [None] is the error result. *)
Definition digitValue (c : ascii) : option Z :=
  let n := nat_of_ascii c in
  if bool_decide (48 ≤ n ≤ 57)%nat then Some (Z.of_nat n - 48) else None.

Fixpoint parseDigits (s : string) (acc : Z) : option Z :=
  match s with
  | EmptyString => Some acc
  | String c s' =>
      match digitValue c with
      | Some d => parseDigits s' (10 * acc + d)
      | None => None
      end
  end.

Definition ParseInt32 (s : string) : option Z :=
  match s with
  | EmptyString => None
  | String c s' =>
      let '(neg, digits) :=
        if bool_decide (c = "+"%char) then (false, s')
        else if bool_decide (c = "-"%char) then (true, s')
        else (false, s) in
      if bool_decide (digits = "") then None
      else
        match parseDigits digits 0 with
        | None => None
        | Some n =>
            let v := if neg then - n else n in
            if bool_decide (- 2 ^ 31 ≤ v < 2 ^ 31) then Some v else None
        end
  end.

(** ** Go errors *)

(** [errors.New], [fmt.Errorf] (the format text and the error wrapped by
    [%w], if any) and [utilerrors.NewAggregate]. *)
Local Set Warnings "-register-all".
Inductive GoError :=
| ErrorNew (msg : string)
| Errorf (format : string) (wrapped : option GoError)
| Aggregate (errs : list GoError).

(** [utilerrors.NewAggregate]: nil entries are dropped, and an empty list
    is the nil error. *)
Definition NewAggregate (errlist : list (option GoError)) : option GoError :=
  match omap id errlist with
  | [] => None
  | errs => Some (Aggregate errs)
  end.

(** ** CloudStack SDK records (the fields the provider reads) *)

Module Nic.
Record t := mk { Networkid : string }.
End Nic.

Module VirtualMachine.
Record t := mk { Id : string; Name : string; Nic : list Nic.t }.
End VirtualMachine.

Module LoadBalancerRule.
Record t := mk {
  Id : string; Algorithm : string; Cidrlist : string; Name : string;
  Networkid : string; Privateport : string; Publicport : string;
  Publicip : string; Publicipid : string; Protocol : string }.
End LoadBalancerRule.

Module FirewallRule.
Record t := mk {
  Id : string; Cidrlist : string; Ipaddress : string; Ipaddressid : string;
  Protocol : string; Startport : Z; Endport : Z }.
End FirewallRule.

Module PublicIpAddress.
Record t := mk { Id : string; Ipaddress : string }.
End PublicIpAddress.

Module NetworkServiceInternal.
Record t := mk { Name : string }.
End NetworkServiceInternal.

Module Network.
Record t := mk { Id : string; Vpcid : string; Service : list NetworkServiceInternal.t }.
End Network.

(** ** Kubernetes objects *)

Module ServicePort.
Record t := mk { Name : string; Protocol : string; Port : Z; NodePort : Z }.
End ServicePort.

Module ServiceSpec.
Record t := mk {
  Ports : list ServicePort.t; SessionAffinity : string;
  LoadBalancerIP : string; LoadBalancerSourceRanges : list string }.
End ServiceSpec.

(** [Annotations] is a Go map that may be nil: [None] is the nil map. *)
Module Service.
Record t := mk {
  Namespace : string; Name : string;
  Annotations : option (gmap string string); Spec : ServiceSpec.t }.
End Service.

Module Node.
Record t := mk { Name : string }.
End Node.

Module LoadBalancerIngress.
Record t := mk { IP : string; Hostname : string }.
End LoadBalancerIngress.

Module LoadBalancerStatus.
Record t := mk { Ingress : list LoadBalancerIngress.t }.
End LoadBalancerStatus.

(** ** Constants *)

Definition ProtoTCP := "tcp".
Definition ProtoUDP := "udp".
Definition ProtoICMP := "icmp".
Definition ProtoTCPProxy := "tcp-proxy".
Definition defaultAllowedCIDR := "0.0.0.0/0".
Definition ServiceAnnotationLoadBalancerProxyProtocol :=
  "service.beta.kubernetes.io/cloudstack-load-balancer-proxy-protocol".
Definition ServiceAnnotationLoadBalancerLoadbalancerHostname :=
  "service.beta.kubernetes.io/cloudstack-load-balancer-hostname".
Definition ServiceAnnotationLoadBalancerAddress :=
  "service.beta.kubernetes.io/cloudstack-load-balancer-address".
Definition servicePrefix := "K8s_svc_".
Definition lbNameFormat := "%s%s_%s_%s".
Definition AnnotationLoadBalancerSourceRangesKey :=
  "service.beta.kubernetes.io/load-balancer-source-ranges".
Definition ServiceAffinityNone := "None".
Definition ServiceAffinityClientIP := "ClientIP".
Definition EventTypeNormal := "Normal".
Definition EventTypeWarning := "Warning".

(** ** The protocol mapper and the libraries *)

(** The protocol mapper of the provider ([LoadBalancerProtocol] with its
    methods and the two conversions into it) and its bounded formatter
    [Sprintf255] are defined in other files of the package; they are taken
    as parameters, and every property below holds for each implementation
    of them. *)
Class Helpers := {
  LoadBalancerProtocol : Type;
  LoadBalancerProtocol_eq_dec :: EqDecision LoadBalancerProtocol;
  LoadBalancerProtocolInvalid : LoadBalancerProtocol;
  ProtocolString : LoadBalancerProtocol → string;
  CSProtocol : LoadBalancerProtocol → string;
  IPProtocol : LoadBalancerProtocol → string;
  ProtocolFromServicePort : ServicePort.t → Service.t → LoadBalancerProtocol;
  ProtocolFromLoadBalancer : string → LoadBalancerProtocol;
  Sprintf255 : string → string → string → string → string → string
}.

(** Third-party library functions: [cloudprovider.DefaultLoadBalancerName],
    [utilnet.ParseIPNets] with [IPNetSet.StringSlice], [strings.TrimSpace],
    [json.Marshal] and [strategicpatch.CreateTwoWayMergePatch]. *)
Class Libraries := {
  DefaultLoadBalancerName : Service.t → string;
  IPNetSet : Type;
  ParseIPNets : list string → GoError + IPNetSet;
  StringSlice : IPNetSet → list string;
  TrimSpace : string → string;
  Marshal : Service.t → GoError + string;
  CreateTwoWayMergePatch : string → string → GoError + string
}.

(** ** Remote calls *)

(** The requests sent to CloudStack and (last) to the Kubernetes API.  An
    optional request parameter that is left unset is the empty string. *)
Inductive Call :=
| ListLoadBalancerRules (keyword projectid : string)
| ListLoadBalancerRuleInstances (id : string)
| ListVirtualMachines (projectid : string)
| ListPublicIpAddresses (ipaddress projectid : string)
| GetNetworkByID (id projectid : string)
| AssociateIpAddress (vpcid networkid projectid : string)
| DisassociateIpAddress (id : string)
| CreateLoadBalancerRule (algorithm name : string) (privateport publicport : Z)
    (networkid publicipid protocol : string) (openfirewall : bool)
| UpdateLoadBalancerRule (id algorithm protocol : string)
| DeleteLoadBalancerRule (id : string)
| AssignToLoadBalancerRule (id : string) (virtualmachineids : list string)
| RemoveFromLoadBalancerRule (id : string) (virtualmachineids : list string)
| ListFirewallRules (ipaddressid projectid : string)
| CreateFirewallRule (ipaddressid protocol : string) (cidrlist : list string)
    (startport endport : Z)
| DeleteFirewallRule (id : string)
| PatchService (namespace name patch : string).

(** What a request is answered with.  A listing of public addresses is
    answered with the addresses, its [Count] being their number;
    [GetNetworkByID] fails with an error and a count. *)
Definition Resp (c : Call) : Type :=
  match c with
  | ListLoadBalancerRules _ _ => GoError + list LoadBalancerRule.t
  | ListLoadBalancerRuleInstances _ => GoError + list VirtualMachine.t
  | ListVirtualMachines _ => GoError + list VirtualMachine.t
  | ListPublicIpAddresses _ _ => GoError + list PublicIpAddress.t
  | GetNetworkByID _ _ => (GoError * Z) + Network.t
  | AssociateIpAddress _ _ _ => GoError + PublicIpAddress.t
  | CreateLoadBalancerRule _ _ _ _ _ _ _ _ => GoError + LoadBalancerRule.t
  | ListFirewallRules _ _ => GoError + list FirewallRule.t
  | _ => option GoError
  end.

(** A platform answers requests and changes its state [S] as it does. *)
Class Platform (S : Type) := handle : ∀ c : Call, S → Resp c * S.

Inductive Severity := LogWarning | LogError.

(** What a call of the provider leaves behind: the requests it sent, the
    warnings and errors it logged (by format text), and the events it
    recorded on the Service. *)
Inductive Event :=
| Api (c : Call)
| Klog (severity : Severity) (format : string)
| RecordEvent (eventtype reason : string).

Definition isPatch (e : Event) : bool :=
  match e with Api (PatchService _ _ _) => true | _ => false end.

Definition isRelease (e : Event) : bool :=
  match e with Api (DisassociateIpAddress _) => true | _ => false end.

(** ** The provider's state *)

Module CSCloud.
Record t := mk { projectID : string }.
End CSCloud.

Module loadBalancer.
Record t := mk {
  name : string; algorithm : string; hostIDs : list string;
  ipAddr : string; ipAddrID : string; networkID : string; projectID : string;
  rules : gmap string LoadBalancerRule.t }.

Definition set_name (lb : t) (v : string) : t :=
  mk v (algorithm lb) (hostIDs lb) (ipAddr lb) (ipAddrID lb) (networkID lb)
     (projectID lb) (rules lb).
Definition set_algorithm (lb : t) (v : string) : t :=
  mk (name lb) v (hostIDs lb) (ipAddr lb) (ipAddrID lb) (networkID lb)
     (projectID lb) (rules lb).
Definition set_hosts (lb : t) (ids : list string) (net : string) : t :=
  mk (name lb) (algorithm lb) ids (ipAddr lb) (ipAddrID lb) net
     (projectID lb) (rules lb).
Definition set_hostIDs (lb : t) (ids : list string) : t :=
  mk (name lb) (algorithm lb) ids (ipAddr lb) (ipAddrID lb) (networkID lb)
     (projectID lb) (rules lb).
Definition set_ip (lb : t) (addr id : string) : t :=
  mk (name lb) (algorithm lb) (hostIDs lb) addr id (networkID lb)
     (projectID lb) (rules lb).
Definition set_rules (lb : t) (r : gmap string LoadBalancerRule.t) : t :=
  mk (name lb) (algorithm lb) (hostIDs lb) (ipAddr lb) (ipAddrID lb)
     (networkID lb) (projectID lb) r.
End loadBalancer.

(** [servicePatcher]: [base] is the deep copy taken by [newServicePatcher];
    [updated] aliases the live Service, whose current value is passed to
    [Patch]. *)
Module servicePatcher.
Record t := mk { base : Service.t }.
End servicePatcher.

(** ** compareStringSlice *)

(** First loop of [compareStringSlice]: [diff[_x]++].  Go's [int] has 64
    bits; a counter never exceeds [len(x)], which fits an [int], so the
    increment cannot wrap and is taken in [Z]. *)
Definition countUp (diff : gmap string Z) (x : list string) : gmap string Z :=
  foldl (λ d _x, <[_x := default 0 (d !! _x) + 1]> d) diff x.

(** Second loop; [None] is the early [return false]. *)
Fixpoint countDown (diff : gmap string Z) (y : list string) : option (gmap string Z) :=
  match y with
  | [] => Some diff
  | _y :: y' =>
      match diff !! _y with
      | None => None
      | Some c =>
          let diff := <[_y := c - 1]> diff in
          if bool_decide (default 0 (diff !! _y) = 0)
          then countDown (delete _y diff) y'
          else countDown diff y'
      end
  end.

Definition compareStringSlice (x y : list string) : bool :=
  if negb (bool_decide (length x = length y)) then false
  else
    match countDown (countUp ∅ x) y with
    | None => false
    | Some diff => bool_decide (size diff = 0%nat)
    end.

(** ** Pure helpers of the provider *)

Definition isFirewallSupported (services : list NetworkServiceInternal.t) : bool :=
  existsb (λ svc, bool_decide (NetworkServiceInternal.Name svc = "Firewall")) services.

Definition hasLoadBalancerIP (lb : loadBalancer.t) : bool :=
  negb (bool_decide (loadBalancer.ipAddr lb = ""))
  && negb (bool_decide (loadBalancer.ipAddrID lb = "")).

(** Reading a Go map that may be nil. *)
Definition annotation (service : Service.t) (key : string) : option string :=
  match Service.Annotations service with
  | None => None
  | Some m => m !! key
  end.

Definition getStringFromServiceAnnotation (service : Service.t)
    (annotationKey defaultSetting : string) : string :=
  match annotation service annotationKey with
  | Some annotationValue => annotationValue
  | None => defaultSetting
  end.

Definition getBoolFromServiceAnnotation (service : Service.t)
    (annotationKey : string) (defaultSetting : bool) : bool :=
  match annotation service annotationKey with
  | Some annotationValue =>
      if bool_decide (annotationValue = "true") then true
      else if bool_decide (annotationValue = "false") then false
      else defaultSetting
  | None => defaultSetting
  end.

(** The Service is a pointer in the source; the updated Service is the
    result here. *)
Definition setServiceAnnotation (service : Service.t) (key value : string) : Service.t :=
  let annotations := default ∅ (Service.Annotations service) in
  Service.mk (Service.Namespace service) (Service.Name service)
    (Some (<[key := value]> annotations)) (Service.Spec service).

Definition newServicePatcher (base : Service.t) : servicePatcher.t :=
  servicePatcher.mk base.

(** [reflect.DeepEqual] on two [map[string]string]: a nil map equals only a
    nil map, two other maps are equal when they hold the same entries. *)
Definition DeepEqual (a b : option (gmap string string)) : bool :=
  bool_decide (a = b).

(** ** The provider *)

Section Provider.
Context {mapRange : MapRange} {helpers : Helpers} {libraries : Libraries}.
Context {S : Type} {platform : Platform S}.

(** The world a call runs in: the platform's state and the trace so far. *)
Record World := mkWorld { remote : S; trace : list Event }.

Definition M (A : Type) : Type := World → A * World.

#[export] Instance M_ret : MRet M := λ A a w, (a, w).

#[export] Instance M_bind : MBind M :=
  λ A B f m w, let '(a, w') := m w in f a w'.

(** Send a request: the platform answers, the trace grows by the request. *)
Definition call (c : Call) : M (Resp c) :=
  λ w, let '(r, s) := handle c (remote w) in (r, mkWorld s (trace w ++ [Api c])).

Definition emit (e : Event) : M unit :=
  λ w, (tt, mkWorld (remote w) (trace w ++ [e])).

(** *** symmetricDifference *)

(** The loop over [lbInstances]: the state is the map [newIDs] and the
    slice [remove]. *)
Fixpoint removeLoop (newIDs : gmap string bool) (remove : list string)
    (lbInstances : list VirtualMachine.t) : gmap string bool * list string :=
  match lbInstances with
  | [] => (newIDs, remove)
  | instance :: rest =>
      if default false (newIDs !! VirtualMachine.Id instance)
      then removeLoop (delete (VirtualMachine.Id instance) newIDs) remove rest
      else removeLoop newIDs (remove ++ [VirtualMachine.Id instance]) rest
  end.

Definition symmetricDifference (hostIDs : list string)
    (lbInstances : list VirtualMachine.t) : list string * list string :=
  let newIDs := foldl (λ m hostID, <[hostID := true]> m) (∅ : gmap string bool) hostIDs in
  let '(newIDs, remove) := removeLoop newIDs [] lbInstances in
  let assign := rangeOrder (map_to_list newIDs).*1 in
  (assign, remove).

(** *** Names and source ranges *)

Definition GetLoadBalancerName (clusterName : string) (service : Service.t) : string :=
  Sprintf255 lbNameFormat servicePrefix clusterName
    (Service.Namespace service) (Service.Name service).

Definition getLoadBalancerLegacyName (clusterName : string) (service : Service.t) : string :=
  DefaultLoadBalancerName service.

Definition getLoadBalancerSourceRanges (service : Service.t) : GoError + IPNetSet :=
  let specs := ServiceSpec.LoadBalancerSourceRanges (Service.Spec service) in
  if bool_decide (0 < length specs)%nat then
    match ParseIPNets specs with
    | inl err =>
        inl (Errorf "service.Spec.LoadBalancerSourceRanges: %v is not valid. Expecting a list of IP ranges. For example, 10.0.0.0/24. Error msg: %w" (Some err))
    | inr ipnets => inr ipnets
    end
  else
    let val := default "" (annotation service AnnotationLoadBalancerSourceRangesKey) in
    let val := TrimSpace val in
    let val := if bool_decide (val = "") then defaultAllowedCIDR else val in
    let specs := Split val ","%char in
    match ParseIPNets specs with
    | inl err =>
        inl (Errorf "%s: %s is not valid. Expecting a comma-separated list of source IP ranges. For example, 10.0.0.0/24,192.168.2.0/24" None)
    | inr ipnets => inr ipnets
    end.

(** *** getLoadBalancerByName *)

(** The loop over the listed rules. *)
Fixpoint collectRules (lb : loadBalancer.t) (l : list LoadBalancerRule.t) : M loadBalancer.t :=
  match l with
  | [] => mret lb
  | lbRule :: rest =>
      let lb := loadBalancer.set_rules lb
                  (<[LoadBalancerRule.Name lbRule := lbRule]> (loadBalancer.rules lb)) in
      _ ← (if negb (bool_decide (loadBalancer.ipAddr lb = ""))
              && negb (bool_decide (loadBalancer.ipAddr lb = LoadBalancerRule.Publicip lbRule))
           then emit (Klog LogWarning "Load balancer %v has rules associated with different IP's: %v, %v")
           else mret tt);
      collectRules
        (loadBalancer.set_ip lb (LoadBalancerRule.Publicip lbRule)
           (LoadBalancerRule.Publicipid lbRule)) rest
  end.

Definition getLoadBalancerByName (cs : CSCloud.t) (name legacyName : string)
    : M (GoError + loadBalancer.t) :=
  let lb := loadBalancer.mk name "" [] "" "" "" (CSCloud.projectID cs) ∅ in
  l ← call (ListLoadBalancerRules (loadBalancer.name lb) (CSCloud.projectID cs));
  match l with
  | inl err => mret (inl (Errorf "error retrieving load balancer rules: %w" (Some err)))
  | inr found =>
      if bool_decide (length found = 0%nat) then
        if bool_decide (0 < String.length legacyName)%nat then
          l ← call (ListLoadBalancerRules legacyName (CSCloud.projectID cs));
          match l with
          | inl err => mret (inl (Errorf "error retrieving load balancer rules: %w" (Some err)))
          | inr found =>
              let lb := if bool_decide (0 < length found)%nat
                        then loadBalancer.set_name lb legacyName else lb in
              lb ← collectRules lb found;
              mret (inr lb)
          end
        else mret (inr lb)
      else
        lb ← collectRules lb found;
        mret (inr lb)
  end.

(** *** verifyHosts *)

Definition hostNameSet (nodes : list Node.t) : gmap string bool :=
  foldl (λ hostNames node,
           <[hd "" (Split (ToLower (Node.Name node)) "."%char) := true]> hostNames)
        ∅ nodes.

(** The loop over the listed virtual machines; [inl] is the early return. *)
Fixpoint matchHosts (hostNames : gmap string bool) (hostIDs : list string)
    (networkID : string) (vms : list VirtualMachine.t) : GoError + (list string * string) :=
  match vms with
  | [] => inr (hostIDs, networkID)
  | vm :: rest =>
      if default false (hostNames !! ToLower (VirtualMachine.Name vm)) then
        match VirtualMachine.Nic vm with
        | [] => matchHosts hostNames hostIDs networkID rest
        | nic0 :: _ =>
            if negb (bool_decide (networkID = ""))
               && negb (bool_decide (networkID = Nic.Networkid nic0))
            then inl (ErrorNew "found hosts that belong to different networks")
            else matchHosts hostNames (hostIDs ++ [VirtualMachine.Id vm])
                   (Nic.Networkid nic0) rest
        end
      else matchHosts hostNames hostIDs networkID rest
  end.

Definition verifyHosts (cs : CSCloud.t) (nodes : list Node.t)
    : M (GoError + (list string * string)) :=
  let hostNames := hostNameSet nodes in
  l ← call (ListVirtualMachines (CSCloud.projectID cs));
  match l with
  | inl err => mret (inl (Errorf "error retrieving list of hosts: %w" (Some err)))
  | inr vms =>
      match matchHosts hostNames [] "" vms with
      | inl err => mret (inl err)
      | inr (hostIDs, networkID) =>
          if bool_decide (length hostIDs = 0%nat)
             || bool_decide (String.length networkID = 0%nat)
          then mret (inl (ErrorNew "none of the hosts matched the list of VMs retrieved from CS API"))
          else mret (inr (hostIDs, networkID))
      end
  end.

(** *** The load balancer's public address *)

Definition getPublicIPAddress (lb : loadBalancer.t) (loadBalancerIP : string)
    : M (GoError + loadBalancer.t) :=
  l ← call (ListPublicIpAddresses loadBalancerIP (loadBalancer.projectID lb));
  match l with
  | inl err => mret (inl (Errorf "error retrieving IP address: %w" (Some err)))
  | inr addresses =>
      match addresses with
      | [a] => mret (inr (loadBalancer.set_ip lb (PublicIpAddress.Ipaddress a)
                           (PublicIpAddress.Id a)))
      | _ => mret (inl (Errorf "could not find IP address %v" None))
      end
  end.

Definition associatePublicIPAddress (lb : loadBalancer.t) : M (GoError + loadBalancer.t) :=
  r ← call (GetNetworkByID (loadBalancer.networkID lb) (loadBalancer.projectID lb));
  match r with
  | inl (err, count) =>
      if bool_decide (count = 0)
      then mret (inl (Errorf "could not find network %v" None))
      else mret (inl (Errorf "error retrieving network: %w" (Some err)))
  | inr network =>
      let '(vpcid, networkid) :=
        if negb (bool_decide (Network.Vpcid network = ""))
        then (Network.Vpcid network, "")
        else ("", loadBalancer.networkID lb) in
      r ← call (AssociateIpAddress vpcid networkid (loadBalancer.projectID lb));
      match r with
      | inl err => mret (inl (Errorf "error associating new IP address: %w" (Some err)))
      | inr a => mret (inr (loadBalancer.set_ip lb (PublicIpAddress.Ipaddress a)
                             (PublicIpAddress.Id a)))
      end
  end.

Definition getLoadBalancerIP (lb : loadBalancer.t) (loadBalancerIP : string)
    : M (GoError + loadBalancer.t) :=
  if negb (bool_decide (loadBalancerIP = "")) then getPublicIPAddress lb loadBalancerIP
  else associatePublicIPAddress lb.

Definition releaseLoadBalancerIP (lb : loadBalancer.t) : M (option GoError) :=
  r ← call (DisassociateIpAddress (loadBalancer.ipAddrID lb));
  match r with
  | Some err => mret (Some (Errorf "error releasing load balancer IP %v: %w" (Some err)))
  | None => mret None
  end.

(** *** Load-balancer rules *)

(** [lb] is a pointer in the source; the methods that change it return the
    changed value here. *)
Definition deleteLoadBalancerRule (lb : loadBalancer.t) (lbRule : LoadBalancerRule.t)
    : M (loadBalancer.t * option GoError) :=
  r ← call (DeleteLoadBalancerRule (LoadBalancerRule.Id lbRule));
  match r with
  | Some err => mret (lb, Some (Errorf "error deleting load balancer rule %v: %w" (Some err)))
  | None =>
      mret (loadBalancer.set_rules lb
              (delete (LoadBalancerRule.Name lbRule) (loadBalancer.rules lb)), None)
  end.

Definition checkLoadBalancerRule (lb : loadBalancer.t) (lbRuleName : string)
    (port : ServicePort.t) (protocol : LoadBalancerProtocol)
    : M (loadBalancer.t * (option LoadBalancerRule.t * bool * option GoError)) :=
  match loadBalancer.rules lb !! lbRuleName with
  | None => mret (lb, (None, false, None))
  | Some lbRule =>
      if bool_decide (LoadBalancerRule.Publicip lbRule = loadBalancer.ipAddr lb)
         && bool_decide (LoadBalancerRule.Privateport lbRule = pretty (ServicePort.NodePort port))
         && bool_decide (LoadBalancerRule.Publicport lbRule = pretty (ServicePort.Port port))
      then
        let updateAlgo :=
          negb (bool_decide (LoadBalancerRule.Algorithm lbRule = loadBalancer.algorithm lb)) in
        let updateProto :=
          negb (bool_decide (LoadBalancerRule.Protocol lbRule = CSProtocol protocol)) in
        mret (lb, (Some lbRule, updateAlgo || updateProto, None))
      else
        '(lb, err) ← deleteLoadBalancerRule lb lbRule;
        match err with
        | Some err => mret (lb, (None, false, Some err))
        | None => mret (lb, (None, false, None))
        end
  end.

(** [lb.rules[lbRuleName]] is dereferenced without a check; on a missing
    entry Go stops with a nil dereference, reported here as an error.
    [EnsureLoadBalancer] calls this only for a rule that
    [checkLoadBalancerRule] has just found. *)
Definition updateLoadBalancerRule (lb : loadBalancer.t) (lbRuleName : string)
    (protocol : LoadBalancerProtocol) : M (option GoError) :=
  match loadBalancer.rules lb !! lbRuleName with
  | Some lbRule =>
      call (UpdateLoadBalancerRule (LoadBalancerRule.Id lbRule)
              (loadBalancer.algorithm lb) (CSProtocol protocol))
  | None => mret (Some (ErrorNew "invalid memory address or nil pointer dereference"))
  end.

(** The response carries the fields of the new rule; the source copies
    them one by one into a [LoadBalancerRule]. *)
Definition createLoadBalancerRule (lb : loadBalancer.t) (lbRuleName : string)
    (port : ServicePort.t) (protocol : LoadBalancerProtocol)
    : M (GoError + LoadBalancerRule.t) :=
  r ← call (CreateLoadBalancerRule (loadBalancer.algorithm lb) lbRuleName
              (ServicePort.NodePort port) (ServicePort.Port port)
              (loadBalancer.networkID lb) (loadBalancer.ipAddrID lb)
              (CSProtocol protocol) false);
  match r with
  | inl err => mret (inl (Errorf "error creating load balancer rule %v: %w" (Some err)))
  | inr r =>
      mret (inr (LoadBalancerRule.mk (LoadBalancerRule.Id r) (LoadBalancerRule.Algorithm r)
                   (LoadBalancerRule.Cidrlist r) (LoadBalancerRule.Name r)
                   (LoadBalancerRule.Networkid r) (LoadBalancerRule.Privateport r)
                   (LoadBalancerRule.Publicport r) (LoadBalancerRule.Publicip r)
                   (LoadBalancerRule.Publicipid r) (LoadBalancerRule.Protocol r)))
  end.

Definition assignHostsToRule (lb : loadBalancer.t) (lbRule : LoadBalancerRule.t)
    (hostIDs : list string) : M (option GoError) :=
  r ← call (AssignToLoadBalancerRule (LoadBalancerRule.Id lbRule) hostIDs);
  match r with
  | Some err => mret (Some (Errorf "error assigning hosts to load balancer rule %v: %w" (Some err)))
  | None => mret None
  end.

Definition removeHostsFromRule (lb : loadBalancer.t) (lbRule : LoadBalancerRule.t)
    (hostIDs : list string) : M (option GoError) :=
  r ← call (RemoveFromLoadBalancerRule (LoadBalancerRule.Id lbRule) hostIDs);
  match r with
  | Some err => mret (Some (Errorf "error removing hosts from load balancer rule %v: %w" (Some err)))
  | None => mret None
  end.

(** *** Firewall rules *)

(** The test both firewall functions filter the listing with. *)
Definition matchesPort (protocol : LoadBalancerProtocol) (publicPort : Z)
    (rule : FirewallRule.t) : bool :=
  bool_decide (FirewallRule.Protocol rule = IPProtocol protocol)
  && bool_decide (FirewallRule.Startport rule = publicPort)
  && bool_decide (FirewallRule.Endport rule = publicPort).

(** [filtered] is a map keyed by rule pointer.  A pointer is the position
    of the rule in the listing; an entry is the pointer with the rule it
    points to. *)
Definition cidrsMatch (allowedCIDRs : list string) (entry : nat * FirewallRule.t) : bool :=
  compareStringSlice (Split (FirewallRule.Cidrlist entry.2) ","%char) allowedCIDRs.

(** The loop that deletes what is left in [filtered]: a failed deletion is
    logged and the loop goes on; [err] holds the result of the latest
    deletion. *)
Fixpoint deleteFiltered (filtered : list (nat * FirewallRule.t)) (err : option GoError)
    : M (option GoError) :=
  match filtered with
  | [] => mret err
  | rule :: rest =>
      err ← call (DeleteFirewallRule (FirewallRule.Id rule.2));
      _ ← (match err with
           | Some _ => emit (Klog LogError "Error deleting old firewall rule %v: %v")
           | None => mret tt
           end);
      deleteFiltered rest err
  end.

Definition updateFirewallRule (lb : loadBalancer.t) (publicIPID : string)
    (publicPort : Z) (protocol : LoadBalancerProtocol) (allowedCIDRs : list string)
    : M (bool * option GoError) :=
  let allowedCIDRs :=
    if bool_decide (length allowedCIDRs = 0%nat) then [defaultAllowedCIDR]
    else allowedCIDRs in
  r ← call (ListFirewallRules publicIPID (loadBalancer.projectID lb));
  match r with
  | inl err =>
      mret (false, Some (Errorf "error fetching firewall rules for public IP %v: %w" (Some err)))
  | inr listed =>
      let filtered :=
        filter (λ entry, matchesPort protocol publicPort entry.2 = true)
               (imap (λ i rule, (i, rule)) listed) in
      let match_ := head (filter (λ entry, cidrsMatch allowedCIDRs entry = true)
                                 (rangeOrder filtered)) in
      let filtered :=
        match match_ with
        | Some m => filter (λ entry, entry.1 ≠ m.1) filtered
        | None => filtered
        end in
      err ← deleteFiltered (rangeOrder filtered) None;
      match match_ with
      | None =>
          err ← call (CreateFirewallRule publicIPID (IPProtocol protocol) allowedCIDRs
                        publicPort publicPort);
          match err with
          | Some err =>
              mret (false, Some (Errorf "error creating new firewall rule for public IP %v, proto %v, port %v, allowed %v: %w" (Some err)))
          | None => mret (true, err)
          end
      | Some _ => mret (true, err)
      end
  end.

(** The loop of [deleteFirewallRule] over the filtered slice. *)
Fixpoint deleteMatching (filtered : list FirewallRule.t) (deleted : bool)
    (err : option GoError) : M (bool * option GoError) :=
  match filtered with
  | [] => mret (deleted, err)
  | rule :: rest =>
      err ← call (DeleteFirewallRule (FirewallRule.Id rule));
      match err with
      | Some _ =>
          _ ← emit (Klog LogError "Error deleting old firewall rule %v: %v");
          deleteMatching rest deleted err
      | None => deleteMatching rest true err
      end
  end.

Definition deleteFirewallRule (lb : loadBalancer.t) (publicIPID : string)
    (publicPort : Z) (protocol : LoadBalancerProtocol) : M (bool * option GoError) :=
  r ← call (ListFirewallRules publicIPID (loadBalancer.projectID lb));
  match r with
  | inl err =>
      mret (false, Some (Errorf "error fetching firewall rules for public IP %v: %w" (Some err)))
  | inr listed =>
      let filtered := filter (λ rule, matchesPort protocol publicPort rule = true) listed in
      deleteMatching filtered false None
  end.

(** *** servicePatcher *)

Definition patchService (cur mod_ : Service.t) : M (option GoError) :=
  match Marshal cur with
  | inl err => mret (Some (Errorf "failed to serialize current service object: %w" (Some err)))
  | inr curJSON =>
      match Marshal mod_ with
      | inl err =>
          mret (Some (Errorf "failed to serialize modified service object: %w" (Some err)))
      | inr modJSON =>
          match CreateTwoWayMergePatch curJSON modJSON with
          | inl err => mret (Some (Errorf "failed to create 2-way merge patch: %w" (Some err)))
          | inr patch =>
              if bool_decide (String.length patch = 0%nat) || bool_decide (patch = "{}")
              then mret None
              else
                r ← call (PatchService (Service.Namespace cur) (Service.Name cur) patch);
                match r with
                | Some err =>
                    mret (Some (Errorf "failed to patch service object %s/%s: %w" (Some err)))
                | None => mret None
                end
          end
      end
  end.

(** [updated] is what the live Service holds when [Patch] runs. *)
Definition Patch (sp : servicePatcher.t) (updated : Service.t) (err : option GoError)
    : M (option GoError) :=
  if DeepEqual (Service.Annotations (servicePatcher.base sp)) (Service.Annotations updated)
  then mret err
  else
    perr ← patchService (servicePatcher.base sp) updated;
    mret (NewAggregate [err; perr]).

(** *** EnsureLoadBalancer *)

(** The branch on [lbRule != nil] in the loop over the ports: the rule
    that was found is updated or left alone and taken off [lb.rules], or a
    rule is created and the hosts are assigned to it.  [inl] is a
    [return nil, err]; [inr] carries [lbRule] as it is after the branch. *)
Definition updateOrCreateRule (lb : loadBalancer.t) (lbRuleName : string)
    (port : ServicePort.t) (protocol : LoadBalancerProtocol)
    (lbRule : option LoadBalancerRule.t) (needsUpdate : bool)
    : M (loadBalancer.t * (GoError + option LoadBalancerRule.t)) :=
  match lbRule with
  | Some lbRule =>
      if needsUpdate then
        err ← updateLoadBalancerRule lb lbRuleName protocol;
        match err with
        | Some err => mret (lb, inl err)
        | None =>
            mret (loadBalancer.set_rules lb (delete lbRuleName (loadBalancer.rules lb)),
                  inr (Some lbRule))
        end
      else
        mret (loadBalancer.set_rules lb (delete lbRuleName (loadBalancer.rules lb)),
              inr (Some lbRule))
  | None =>
      r ← createLoadBalancerRule lb lbRuleName port protocol;
      match r with
      | inl err => mret (lb, inl err)
      | inr lbRule =>
          err ← assignHostsToRule lb lbRule (loadBalancer.hostIDs lb);
          match err with
          | Some err => mret (lb, inl err)
          | None => mret (lb, inr (Some lbRule))
          end
      end
  end.

(** One round of the loop over [service.Spec.Ports]; [Some err] is the
    [return nil, err] that leaves the function. *)
Definition ensurePort (service : Service.t) (lb : loadBalancer.t) (port : ServicePort.t)
    : M (loadBalancer.t * option GoError) :=
  let protocol := ProtocolFromServicePort port service in
  if bool_decide (protocol = LoadBalancerProtocolInvalid)
  then mret (lb, Some (Errorf "unsupported load balancer protocol: %v" None))
  else
    let lbRuleName :=
      loadBalancer.name lb +:+ "-" +:+ ProtocolString protocol +:+ "-"
      +:+ pretty (ServicePort.Port port) in
    '(lb, (lbRule, needsUpdate, err)) ← checkLoadBalancerRule lb lbRuleName port protocol;
    match err with
    | Some err => mret (lb, Some err)
    | None =>
        '(lb, r) ← updateOrCreateRule lb lbRuleName port protocol lbRule needsUpdate;
        match r with
        | inl err => mret (lb, Some err)
        | inr lbRule =>
            n ← call (GetNetworkByID (loadBalancer.networkID lb) (loadBalancer.projectID lb));
            match n with
            | inl (err, _) => mret (lb, Some err)
            | inr network =>
                match getLoadBalancerSourceRanges service with
                | inl err => mret (lb, Some err)
                | inr lbSourceRanges =>
                    match lbRule with
                    | Some lbRule =>
                        if isFirewallSupported (Network.Service network) then
                          '(_, err) ← updateFirewallRule lb (LoadBalancerRule.Publicipid lbRule)
                                        (ServicePort.Port port) protocol
                                        (StringSlice lbSourceRanges);
                          mret (lb, err)
                        else
                          _ ← emit (RecordEvent EventTypeWarning "LoadBalancerSourceRangesIgnored");
                          _ ← emit (Klog LogWarning "LoadBalancerSourceRanges are ignored for Service %s because this CloudStack network does not support it");
                          mret (lb, None)
                    | None =>
                        _ ← emit (RecordEvent EventTypeWarning "LoadBalancerSourceRangesIgnored");
                        _ ← emit (Klog LogWarning "LoadBalancerSourceRanges are ignored for Service %s because this CloudStack network does not support it");
                        mret (lb, None)
                    end
                end
            end
        end
    end.

Fixpoint ensurePorts (service : Service.t) (lb : loadBalancer.t)
    (ports : list ServicePort.t) : M (loadBalancer.t * option GoError) :=
  match ports with
  | [] => mret (lb, None)
  | port :: rest =>
      '(lb, err) ← ensurePort service lb port;
      match err with
      | Some err => mret (lb, Some err)
      | None => ensurePorts service lb rest
      end
  end.

(** The loop over the rules still in [lb.rules] once the ports are done.
    Every round deletes the entry it visits and no other, so ranging over
    the entries present at the start is ranging over the live map. *)
Fixpoint cleanupRules (lb : loadBalancer.t) (stale : list LoadBalancerRule.t)
    : M (loadBalancer.t * option GoError) :=
  match stale with
  | [] => mret (lb, None)
  | lbRule :: rest =>
      let protocol := ProtocolFromLoadBalancer (LoadBalancerRule.Protocol lbRule) in
      if bool_decide (protocol = LoadBalancerProtocolInvalid)
      then mret (lb, Some (Errorf "error parsing protocol %v: %w" None))
      else
        match ParseInt32 (LoadBalancerRule.Publicport lbRule) with
        | None =>
            mret (lb, Some (Errorf "error parsing port %s: %w"
                              (Some (ErrorNew "strconv.ParseInt: invalid syntax or value out of range"))))
        | Some port =>
            '(_, err) ← deleteFirewallRule lb (LoadBalancerRule.Publicipid lbRule) port protocol;
            match err with
            | Some err => mret (lb, Some err)
            | None =>
                '(lb, err) ← deleteLoadBalancerRule lb lbRule;
                match err with
                | Some err => mret (lb, Some err)
                | None => cleanupRules lb rest
                end
            end
        end
  end.

(** From [setServiceAnnotation] to the final [return]: the part of
    [EnsureLoadBalancer] that runs once the address is known. *)
Definition ensureRules (service : Service.t) (lb : loadBalancer.t)
    : M (loadBalancer.t * Service.t * option LoadBalancerStatus.t * option GoError) :=
  let service :=
    setServiceAnnotation service ServiceAnnotationLoadBalancerAddress (loadBalancer.ipAddr lb) in
  '(lb, err) ← ensurePorts service lb (ServiceSpec.Ports (Service.Spec service));
  match err with
  | Some err => mret (lb, service, None, Some err)
  | None =>
      '(lb, err) ← cleanupRules lb (rangeOrder (map_to_list (loadBalancer.rules lb))).*2;
      match err with
      | Some err => mret (lb, service, None, Some err)
      | None =>
          let hostname :=
            getStringFromServiceAnnotation service
              ServiceAnnotationLoadBalancerLoadbalancerHostname "" in
          if negb (bool_decide (hostname = "")) then
            mret (lb, service,
                  Some (LoadBalancerStatus.mk [LoadBalancerIngress.mk "" hostname]), None)
          else
            mret (lb, service,
                  Some (LoadBalancerStatus.mk
                          [LoadBalancerIngress.mk (loadBalancer.ipAddr lb) ""]), None)
      end
  end.

(** The condition under which the release of the address is deferred. *)
Definition releaseDeferred (service : Service.t) (lb : loadBalancer.t) : bool :=
  negb (bool_decide (loadBalancer.ipAddr lb = ""))
  && negb (bool_decide (loadBalancer.ipAddr lb
                        = ServiceSpec.LoadBalancerIP (Service.Spec service))).

(** The deferred closure that releases the address: it runs when the
    function returns, before the patcher's, and looks at the named result
    [err]. *)
Definition deferredRelease (lb : loadBalancer.t) (err : option GoError) : M unit :=
  match err with
  | Some _ =>
      r ← releaseLoadBalancerIP lb;
      match r with
      | Some _ => emit (Klog LogError "Attempt to release load balancer IP failed: %s")
      | None => mret tt
      end
  | None => mret tt
  end.

(** From the lookup of the load balancer to the check of the hosts: what
    [EnsureLoadBalancer] does before it turns to the address.  [inl] is an
    early [return nil, err]. *)
Definition locateAndVerify (cs : CSCloud.t) (clusterName : string)
    (service : Service.t) (nodes : list Node.t) : M (GoError + loadBalancer.t) :=
  let name := GetLoadBalancerName clusterName service in
  let legacyName := getLoadBalancerLegacyName clusterName service in
  r ← getLoadBalancerByName cs name legacyName;
  match r with
  | inl err => mret (inl err)
  | inr lb =>
      let affinity := ServiceSpec.SessionAffinity (Service.Spec service) in
      let algorithm :=
        if bool_decide (affinity = ServiceAffinityNone) then Some "roundrobin"
        else if bool_decide (affinity = ServiceAffinityClientIP) then Some "source"
        else None in
      match algorithm with
      | None => mret (inl (Errorf "unsupported load balancer affinity: %v" None))
      | Some algorithm =>
          let lb := loadBalancer.set_algorithm lb algorithm in
          r ← verifyHosts cs nodes;
          match r with
          | inl err => mret (inl err)
          | inr (hostIDs, networkID) =>
              mret (inr (loadBalancer.set_hosts lb hostIDs networkID))
          end
      end
  end.

(** From [if !lb.hasLoadBalancerIP()] to the [return], the deferred
    release included. *)
Definition ensureWithAddress (service : Service.t) (lb : loadBalancer.t)
    : M (Service.t * option LoadBalancerStatus.t * option GoError) :=
  if negb (hasLoadBalancerIP lb) then
    r ← getLoadBalancerIP lb (ServiceSpec.LoadBalancerIP (Service.Spec service));
    match r with
    | inl err => mret (service, None, Some err)
    | inr lb =>
        _ ← emit (RecordEvent EventTypeNormal "CreatedLoadBalancer");
        let deferred := releaseDeferred service lb in
        '(lb, service, status, err) ← ensureRules service lb;
        _ ← (if (deferred : bool) then deferredRelease lb err else mret tt);
        mret (service, status, err)
    end
  else
    '(lb, service, status, err) ← ensureRules service lb;
    mret (service, status, err).

(** [EnsureLoadBalancer] from the registration of the patcher to the
    [return]; the result is the Service as the call leaves it and the
    named results [status] and [err]. *)
Definition ensureLoadBalancer (cs : CSCloud.t) (clusterName : string)
    (service : Service.t) (nodes : list Node.t)
    : M (Service.t * option LoadBalancerStatus.t * option GoError) :=
  r ← locateAndVerify cs clusterName service nodes;
  match r with
  | inl err => mret (service, None, Some err)
  | inr lb => ensureWithAddress service lb
  end.

Definition EnsureLoadBalancer (cs : CSCloud.t) (clusterName : string)
    (service : Service.t) (nodes : list Node.t)
    : M (Service.t * option LoadBalancerStatus.t * option GoError) :=
  if bool_decide (length (ServiceSpec.Ports (Service.Spec service)) = 0%nat)
  then mret (service, None, Some (ErrorNew "requested load balancer with no ports"))
  else
    let patcher := newServicePatcher service in
    '(service, status, err) ← ensureLoadBalancer cs clusterName service nodes;
    err ← Patch patcher service err;
    mret (service, status, err).

(** *** GetLoadBalancer and UpdateLoadBalancer *)

Definition GetLoadBalancer (cs : CSCloud.t) (clusterName : string) (service : Service.t)
    : M (option LoadBalancerStatus.t * bool * option GoError) :=
  let name := GetLoadBalancerName clusterName service in
  let legacyName := getLoadBalancerLegacyName clusterName service in
  r ← getLoadBalancerByName cs name legacyName;
  match r with
  | inl err => mret (None, false, Some err)
  | inr lb =>
      if bool_decide (size (loadBalancer.rules lb) = 0%nat) then mret (None, false, None)
      else
        mret (Some (LoadBalancerStatus.mk [LoadBalancerIngress.mk (loadBalancer.ipAddr lb) ""]),
              true, None)
  end.

Fixpoint updateRuleHosts (lb : loadBalancer.t) (lbRules : list LoadBalancerRule.t)
    : M (option GoError) :=
  match lbRules with
  | [] => mret None
  | lbRule :: rest =>
      l ← call (ListLoadBalancerRuleInstances (LoadBalancerRule.Id lbRule));
      match l with
      | inl err => mret (Some (Errorf "error retrieving associated instances: %w" (Some err)))
      | inr instances =>
          let '(assign, remove) := symmetricDifference (loadBalancer.hostIDs lb) instances in
          err ← (if bool_decide (0 < length assign)%nat
                 then assignHostsToRule lb lbRule assign else mret None);
          match err with
          | Some err => mret (Some err)
          | None =>
              err ← (if bool_decide (0 < length remove)%nat
                     then removeHostsFromRule lb lbRule remove else mret None);
              match err with
              | Some err => mret (Some err)
              | None => updateRuleHosts lb rest
              end
          end
      end
  end.

Definition UpdateLoadBalancer (cs : CSCloud.t) (clusterName : string)
    (service : Service.t) (nodes : list Node.t) : M (option GoError) :=
  let name := GetLoadBalancerName clusterName service in
  let legacyName := getLoadBalancerLegacyName clusterName service in
  r ← getLoadBalancerByName cs name legacyName;
  match r with
  | inl err => mret (Some err)
  | inr lb =>
      r ← verifyHosts cs nodes;
      match r with
      | inl err => mret (Some err)
      | inr (hostIDs, _) =>
          let lb := loadBalancer.set_hostIDs lb hostIDs in
          updateRuleHosts lb (rangeOrder (map_to_list (loadBalancer.rules lb))).*2
      end
  end.

End Provider.

Arguments World : clear implicits.
Arguments M : clear implicits.

(** ** A platform to run the provider on *)

(** The firewall of the simulated platform is a state: the rules installed
    on all addresses.  A listing returns the rules of the given address, a
    deletion removes the rule of the given id, a creation installs a rule
    whose CIDR list is the request's list joined by commas (as the SDK
    sends it) and whose id the platform picks.  Each of the three can be made to fail.  Every other request
    is answered from a fixed script. *)
Module Sim.
Record t := mk {
  firewallRules : list FirewallRule.t;
  listFirewallFails : option GoError;
  deleteFirewallFails : string → option GoError;
  createFirewallFails : option GoError;
  newFirewallRuleId : list FirewallRule.t → string;
  script : ∀ c : Call, Resp c }.

Definition set_firewallRules (s : t) (rules : list FirewallRule.t) : t :=
  mk rules (listFirewallFails s) (deleteFirewallFails s) (createFirewallFails s)
     (newFirewallRuleId s) (script s).

Definition handle (c : Call) (s : t) : Resp c * t :=
  match c return Resp c * t with
  | ListFirewallRules ipaddressid _ =>
      match listFirewallFails s with
      | Some err => (inl err, s)
      | None =>
          (inr (filter (λ rule, FirewallRule.Ipaddressid rule = ipaddressid)
                       (firewallRules s)), s)
      end
  | DeleteFirewallRule id =>
      match deleteFirewallFails s id with
      | Some err => (Some err, s)
      | None =>
          (None, set_firewallRules s
                   (filter (λ rule, FirewallRule.Id rule ≠ id) (firewallRules s)))
      end
  | CreateFirewallRule ipaddressid protocol cidrlist startport endport =>
      match createFirewallFails s with
      | Some err => (Some err, s)
      | None =>
          (None, set_firewallRules s
                   (firewallRules s
                    ++ [FirewallRule.mk (newFirewallRuleId s (firewallRules s))
                          (Join cidrlist ",") ""
                          ipaddressid protocol startport endport]))
      end
  | c => (script s c, s)
  end.
End Sim.

#[export] Instance simPlatform : Platform Sim.t := Sim.handle.

(** The rules installed for one identity: public address, protocol, and
    start port = end port = the public port. *)
Definition forIdentity `{Helpers} (publicIPID : string) (protocol : LoadBalancerProtocol)
    (publicPort : Z) (rule : FirewallRule.t) : bool :=
  bool_decide (FirewallRule.Ipaddressid rule = publicIPID)
  && matchesPort protocol publicPort rule.

(** The desired CIDR list once the default has been applied. *)
Definition desiredCIDRs (allowedCIDRs : list string) : list string :=
  match allowedCIDRs with
  | [] => [defaultAllowedCIDR]
  | _ => allowedCIDRs
  end.

(** ** Instances of the parameters, for running the provider *)

Inductive SampleProtocol := SampleTCP | SampleUDP | SampleTCPProxy | SampleInvalid.

#[export] Instance SampleProtocol_eq_dec : EqDecision SampleProtocol.
Proof. solve_decision. Defined.

Definition sampleHelpers : Helpers := {|
  LoadBalancerProtocol := SampleProtocol;
  LoadBalancerProtocolInvalid := SampleInvalid;
  ProtocolString := λ p,
    match p with
    | SampleTCP => ProtoTCP | SampleUDP => ProtoUDP
    | SampleTCPProxy => ProtoTCPProxy | SampleInvalid => ""
    end;
  CSProtocol := λ p,
    match p with
    | SampleTCP => ProtoTCP | SampleUDP => ProtoUDP
    | SampleTCPProxy => ProtoTCPProxy | SampleInvalid => ""
    end;
  IPProtocol := λ p,
    match p with
    | SampleTCP | SampleTCPProxy => ProtoTCP | SampleUDP => ProtoUDP
    | SampleInvalid => ""
    end;
  ProtocolFromServicePort := λ port service,
    if bool_decide (ServicePort.Protocol port = "TCP") then
      if getBoolFromServiceAnnotation service ServiceAnnotationLoadBalancerProxyProtocol false
      then SampleTCPProxy else SampleTCP
    else if bool_decide (ServicePort.Protocol port = "UDP") then SampleUDP
    else SampleInvalid;
  ProtocolFromLoadBalancer := λ protocol,
    if bool_decide (protocol = ProtoTCP) then SampleTCP
    else if bool_decide (protocol = ProtoUDP) then SampleUDP
    else if bool_decide (protocol = ProtoTCPProxy) then SampleTCPProxy
    else SampleInvalid;
  Sprintf255 := λ format a b c d, a +:+ b +:+ "_" +:+ c +:+ "_" +:+ d
|}.

(** Source ranges are taken as they are written, a Service is serialised
    to its address annotation, and a patch is the modified document (empty
    when nothing changed). *)
Definition sampleLibraries : Libraries := {|
  DefaultLoadBalancerName := λ service, "a" +:+ Service.Name service;
  IPNetSet := list string;
  ParseIPNets := λ specs, inr specs;
  StringSlice := λ ipnets, ipnets;
  TrimSpace := λ s, s;
  Marshal := λ service,
    inr (default "" (annotation service ServiceAnnotationLoadBalancerAddress));
  CreateTwoWayMergePatch := λ cur mod_,
    inr (if bool_decide (cur = mod_) then "{}" else mod_)
|}.

(** ** Vocabulary of the statements *)

(** The counter a [map[string]int] holds for a key (0 when absent). *)
Definition multiplicity (diff : gmap string Z) (k : string) : Z :=
  default 0 (diff !! k).

(** Every entry of the map holds a positive counter. *)
Definition positiveCounts (diff : gmap string Z) : Prop :=
  ∀ k c, diff !! k = Some c → 0 < c.

(** Number of occurrences of [k] in [l]. *)
Definition occurrences (l : list string) (k : string) : Z :=
  Z.of_nat (count_occ String.string_dec l k).

(** ** Sample inputs *)

Definition sampleInstance (id : string) : VirtualMachine.t :=
  VirtualMachine.mk id id [Nic.mk "net-1"].

(** A script for everything but the firewall: the instances [vms] on a
    network that offers the Firewall service, an address to associate, and
    load-balancer rules created as requested; [lbRules] answers the
    listings of load-balancer rules. *)
Definition sampleScript (lbRules : string → GoError + list LoadBalancerRule.t)
    (vms : list VirtualMachine.t) (c : Call) : Resp c :=
  match c return Resp c with
  | ListLoadBalancerRules keyword _ => lbRules keyword
  | ListLoadBalancerRuleInstances _ => inr []
  | ListVirtualMachines _ => inr vms
  | ListPublicIpAddresses ipaddress _ => inr [PublicIpAddress.mk "ip-9" ipaddress]
  | GetNetworkByID id _ => inr (Network.mk id "" [NetworkServiceInternal.mk "Firewall"])
  | AssociateIpAddress _ _ _ => inr (PublicIpAddress.mk "ip-1" "203.0.113.10")
  | CreateLoadBalancerRule algorithm name privateport publicport networkid publicipid
      protocol _ =>
      inr (LoadBalancerRule.mk ("lb-" +:+ name) algorithm "" name networkid
             (pretty privateport) (pretty publicport) "203.0.113.10" publicipid protocol)
  | ListFirewallRules _ _ => inr []
  | _ => None
  end.

Definition sampleVMs : list VirtualMachine.t :=
  [VirtualMachine.mk "vm-1" "Node-1" [Nic.mk "net-1"];
   VirtualMachine.mk "vm-2" "node-2" [Nic.mk "net-1"];
   VirtualMachine.mk "vm-3" "node-3" [Nic.mk "net-2"];
   VirtualMachine.mk "vm-4" "node-2" []].

(** The first matched machine reports an empty network. *)
Definition mixedNetworkVMs : list VirtualMachine.t :=
  [VirtualMachine.mk "vm-1" "node-1" [Nic.mk ""];
   VirtualMachine.mk "vm-2" "node-2" [Nic.mk "net-1"]].

Definition simWithVMs (vms : list VirtualMachine.t) : Sim.t :=
  Sim.mk [] None (λ _, None) None (λ _, "fw-0") (sampleScript (λ _, inr []) vms).

Definition sampleSim (lbRules : string → GoError + list LoadBalancerRule.t)
    (firewall : list FirewallRule.t) (deleteFails : string → option GoError) : Sim.t :=
  Sim.mk firewall None deleteFails None
    (λ rules, "fw-" +:+ pretty (Z.of_nat (length rules))) (sampleScript lbRules sampleVMs).

Definition noRules : string → GoError + list LoadBalancerRule.t := λ _, inr [].

Definition sampleService : Service.t :=
  Service.mk "default" "web" None
    (ServiceSpec.mk
       [ServicePort.mk "http" "TCP" 80 30080; ServicePort.mk "https" "TCP" 443 30443]
       ServiceAffinityNone "" ["10.0.0.0/24"]).

Definition sampleNodes : list Node.t := [Node.mk "node-1.example.com"; Node.mk "NODE-2"].

Definition sampleLB : loadBalancer.t :=
  loadBalancer.mk "K8s_svc_kube_default_web" "roundrobin" ["vm-1"; "vm-2"]
    "203.0.113.10" "ip-1" "net-1" "" ∅.

(** The ids of the rules in [filtered]. *)
Definition ruleIds (filtered : list (nat * FirewallRule.t)) : list string :=
  (λ e : nat * FirewallRule.t, FirewallRule.Id e.2) <$> filtered.

(** The map [filtered] as [updateFirewallRule] first builds it. *)
Definition filteredEntries `{Helpers} (protocol : LoadBalancerProtocol) (publicPort : Z)
    (listed : list FirewallRule.t) : list (nat * FirewallRule.t) :=
  filter (λ entry, matchesPort protocol publicPort entry.2 = true)
         (imap (λ i rule, (i, rule)) listed).

Definition sampleFirewallRule (id cidrs : string) (port : Z) : FirewallRule.t :=
  FirewallRule.mk id cidrs "203.0.113.10" "ip-1" "tcp" port port.

Definition refuseAll : string → option GoError := λ _, Some (ErrorNew "deletion refused").

Definition refuseNone : string → option GoError := λ _, None.

(** The rule map [getLoadBalancerByName] builds from a listing. *)
Definition rulesByName (start : gmap string LoadBalancerRule.t)
    (found : list LoadBalancerRule.t) : gmap string LoadBalancerRule.t :=
  foldl (λ m lbRule, <[LoadBalancerRule.Name lbRule := lbRule]> m) start found.

(** The load balancer that stands for a listing: the rules by name, and
    the address of the rule listed last. *)
Definition located (lb : loadBalancer.t) (found : list LoadBalancerRule.t) : loadBalancer.t :=
  match last found with
  | None => lb
  | Some lbRule =>
      loadBalancer.mk (loadBalancer.name lb) (loadBalancer.algorithm lb)
        (loadBalancer.hostIDs lb) (LoadBalancerRule.Publicip lbRule)
        (LoadBalancerRule.Publicipid lbRule) (loadBalancer.networkID lb)
        (loadBalancer.projectID lb) (rulesByName (loadBalancer.rules lb) found)
  end.

Definition isWarning (e : Event) : bool :=
  match e with Klog LogWarning _ => true | _ => false end.

Definition emptyLoadBalancer (cs : CSCloud.t) (name : string) : loadBalancer.t :=
  loadBalancer.mk name "" [] "" "" "" (CSCloud.projectID cs) ∅.

Definition sampleRule (name publicip publicipid : string) : LoadBalancerRule.t :=
  LoadBalancerRule.mk ("lb-" +:+ name) "roundrobin" "" name "net-1" "30080" "80"
    publicip publicipid "tcp".

(** Rules exist under the legacy name only. *)
Definition legacyOnly : string → GoError + list LoadBalancerRule.t :=
  λ keyword,
    if bool_decide (keyword = "aweb")
    then inr [sampleRule "aweb-tcp-80" "203.0.113.10" "ip-1"]
    else inr [].

(** Two rules under the canonical name, on different addresses. *)
Definition twoAddresses : string → GoError + list LoadBalancerRule.t :=
  λ keyword,
    if bool_decide (keyword = "K8s_svc_kube_default_web")
    then inr [sampleRule "K8s_svc_kube_default_web-tcp-80" "203.0.113.10" "ip-1";
              sampleRule "K8s_svc_kube_default_web-tcp-443" "198.51.100.7" "ip-2"]
    else inr [].

Definition sampleServiceWithHostname : Service.t :=
  Service.mk "default" "web"
    (Some {[ ServiceAnnotationLoadBalancerLoadbalancerHostname := "lb.example.com" ]})
    (Service.Spec sampleService).

(** The fields of a rule that cannot be updated are those the Service
    port asks for. *)
Definition immutableFieldsMatch (lb : loadBalancer.t) (port : ServicePort.t)
    (lbRule : LoadBalancerRule.t) : Prop :=
  LoadBalancerRule.Publicip lbRule = loadBalancer.ipAddr lb
  ∧ LoadBalancerRule.Privateport lbRule = pretty (ServicePort.NodePort port)
  ∧ LoadBalancerRule.Publicport lbRule = pretty (ServicePort.Port port).

Definition sampleLBWithRule : loadBalancer.t :=
  loadBalancer.set_rules (loadBalancer.set_algorithm sampleLB "source")
    {[ "web-tcp-80" := sampleRule "web-tcp-80" "203.0.113.10" "ip-1" ]}.

(** A listed virtual machine counts when its lower-cased name is one of
    the host names and it has a network interface. *)
Definition isCandidate (hostNames : gmap string bool) (vm : VirtualMachine.t) : bool :=
  default false (hostNames !! ToLower (VirtualMachine.Name vm))
  && match VirtualMachine.Nic vm with [] => false | _ => true end.

(** The network of the first interface. *)
Definition firstNetwork (vm : VirtualMachine.t) : string :=
  match VirtualMachine.Nic vm with
  | nic0 :: _ => Nic.Networkid nic0
  | [] => ""
  end.

(** Somewhere in the sequence a network differs from the non-empty
    network just before it. *)
Definition networksDisagree (networks : list string) : Prop :=
  ∃ i a b, networks !! i = Some a ∧ networks !! S i = Some b ∧ a ≠ "" ∧ a ≠ b.

(** The test of the loop, along a sequence of networks. *)
Fixpoint crossNetwork (networkID : string) (networks : list string) : bool :=
  match networks with
  | [] => false
  | n :: rest =>
      negb (bool_decide (networkID = "")) && negb (bool_decide (networkID = n))
      || crossNetwork n rest
  end.

(** [m] only extends the trace, and every event it adds satisfies [P]. *)
Definition emits {S A : Type} (P : Event → Prop) (m : M S A) : Prop :=
  ∀ w, ∃ new, trace (m w).2 = trace w ++ new ∧ Forall P new.

(** What [m] returns satisfies [Q], whatever the platform answers. *)
Definition returns {S A : Type} (Q : A → Prop) (m : M S A) : Prop :=
  ∀ w, Q (m w).1.

(** An event that is neither a patch of the Service nor the release of an
    address. *)
Definition internal (e : Event) : Prop := isPatch e = false ∧ isRelease e = false.

(** The addresses a trace releases, and the patches it sends. *)
Definition releases (t : list Event) : list string :=
  omap (λ e, match e with Api (DisassociateIpAddress id) => Some id | _ => None end) t.

Definition patches (t : list Event) : list (string * string * string) :=
  omap (λ e, match e with
             | Api (PatchService namespace name patch) => Some (namespace, name, patch)
             | _ => None
             end) t.

(** [lb'] has the address of [lb]. *)
Definition sameAddress (lb lb' : loadBalancer.t) : Prop :=
  loadBalancer.ipAddr lb' = loadBalancer.ipAddr lb
  ∧ loadBalancer.ipAddrID lb' = loadBalancer.ipAddrID lb.



(** ** EnsureLoadBalancerDeleted *)

Section Deletion.
Context {mapRange : MapRange} {helpers : Helpers} {libraries : Libraries}.
Context {S : Type} {platform : Platform S}.

(** The loop over [lb.rules].  An entry is a key of the map with the rule
    it maps to, as the map held it when the loop started; an entry that has
    been deleted from the map before the loop reaches it is not visited
    (the first test).  A rule whose protocol is not known is logged and
    passed over; a rule whose port is not a number keeps its firewall
    rules and is deleted all the same. *)
Fixpoint deleteRules (lb : loadBalancer.t) (entries : list (string * LoadBalancerRule.t))
    : M S (loadBalancer.t * option GoError) :=
  match entries with
  | [] => mret (lb, None)
  | (key, lbRule) :: rest =>
      if bool_decide (loadBalancer.rules lb !! key = None) then deleteRules lb rest
      else
        let protocol := ProtocolFromLoadBalancer (LoadBalancerRule.Protocol lbRule) in
        if bool_decide (protocol = LoadBalancerProtocolInvalid) then
          _ ← emit (Klog LogError "Error parsing protocol: %v");
          deleteRules lb rest
        else
          err ← match ParseInt32 (LoadBalancerRule.Publicport lbRule) with
                | None =>
                    _ ← emit (Klog LogError "Error parsing port: %v");
                    mret None
                | Some port =>
                    '(_, err) ← deleteFirewallRule lb (LoadBalancerRule.Publicipid lbRule)
                                  port protocol;
                    mret err
                end;
          match err with
          | Some err => mret (lb, Some err)
          | None =>
              '(lb, err) ← deleteLoadBalancerRule lb lbRule;
              match err with
              | Some err => mret (lb, Some err)
              | None => deleteRules lb rest
              end
          end
  end.

Definition EnsureLoadBalancerDeleted (cs : CSCloud.t) (clusterName : string)
    (service : Service.t) : M S (option GoError) :=
  let name := GetLoadBalancerName clusterName service in
  let legacyName := getLoadBalancerLegacyName clusterName service in
  r ← getLoadBalancerByName cs name legacyName;
  match r with
  | inl err => mret (Some err)
  | inr lb =>
      '(lb, err) ← deleteRules lb (rangeOrder (map_to_list (loadBalancer.rules lb)));
      match err with
      | Some err => mret (Some err)
      | None =>
          if negb (bool_decide (loadBalancer.ipAddr lb = "")) then releaseLoadBalancerIP lb
          else mret None
      end
  end.

End Deletion.

(** ** Vocabulary of the statements on requests and rule maps *)

(** Every key of the rule map is the name of the rule it maps to. *)
Definition keyedByName (rules : gmap string LoadBalancerRule.t) : Prop :=
  ∀ key lbRule, rules !! key = Some lbRule → LoadBalancerRule.Name lbRule = key.

(** The requests of a trace, and the ids of the load-balancer rules it
    asks to delete. *)
Definition requests (t : list Event) : list Call :=
  omap (λ e, match e with Api c => Some c | _ => None end) t.

Definition lbRuleDeletions (t : list Event) : list string :=
  omap (λ e, match e with Api (DeleteLoadBalancerRule id) => Some id | _ => None end) t.

(** The name [EnsureLoadBalancer] gives the rule of a Service port. *)
Definition lbRuleName `{Helpers} (lb : loadBalancer.t) (service : Service.t)
    (port : ServicePort.t) : string :=
  loadBalancer.name lb +:+ "-" +:+ ProtocolString (ProtocolFromServicePort port service)
  +:+ "-" +:+ pretty (ServicePort.Port port).

(** The status [EnsureLoadBalancer] reports for a Service whose load
    balancer has the address [ip]: the hostname of the annotation when it
    is set, the address otherwise. *)
Definition reportedStatus (service : Service.t) (ip : string) : LoadBalancerStatus.t :=
  let hostname :=
    getStringFromServiceAnnotation service
      ServiceAnnotationLoadBalancerLoadbalancerHostname "" in
  LoadBalancerStatus.mk
    [if bool_decide (hostname = "") then LoadBalancerIngress.mk ip ""
     else LoadBalancerIngress.mk "" hostname].

(** A lookup: a listing of load-balancer rules or of virtual machines, or
    a line in the log. *)
Definition isLookup (e : Event) : bool :=
  match e with
  | Api (ListLoadBalancerRules _ _) | Api (ListVirtualMachines _) | Klog _ _ => true
  | _ => false
  end.

(** What changing the hosts of rules takes: lookups, the listing of the
    instances of a rule, and the assignment and removal of instances. *)
Definition isHostUpdate (e : Event) : bool :=
  match e with
  | Api (ListLoadBalancerRuleInstances _) | Api (AssignToLoadBalancerRule _ _)
  | Api (RemoveFromLoadBalancerRule _ _) => true
  | e => isLookup e
  end.


(** What bringing the rules of a load balancer in line takes: the lookup
    of the network, requests on load-balancer rules and on the instances
    of a rule, requests on firewall rules, lines in the log, and the
    warning that the source ranges are ignored. *)
Definition isRuleWork (e : Event) : bool :=
  match e with
  | Api (GetNetworkByID _ _)
  | Api (CreateLoadBalancerRule _ _ _ _ _ _ _ _) | Api (UpdateLoadBalancerRule _ _ _)
  | Api (DeleteLoadBalancerRule _) | Api (AssignToLoadBalancerRule _ _)
  | Api (ListFirewallRules _ _) | Api (CreateFirewallRule _ _ _ _ _)
  | Api (DeleteFirewallRule _) | Klog _ _ => true
  | RecordEvent _ reason => bool_decide (reason = "LoadBalancerSourceRangesIgnored")
  | _ => false
  end.

(** A creation as the provider means to send it: a load-balancer rule is
    created without opening the firewall, and a firewall rule is created
    for one port and with at least one CIDR. *)
Definition wellFormedRequest (e : Event) : Prop :=
  match e with
  | Api (CreateLoadBalancerRule _ _ _ _ _ _ _ openfirewall) => openfirewall = false
  | Api (CreateFirewallRule _ _ cidrlist startport endport) =>
      cidrlist ≠ [] ∧ startport = endport
  | _ => True
  end.

(** What the part of the call that works on the rules sends. *)
Definition ruleWork (e : Event) : Prop := isRuleWork e = true ∧ wellFormedRequest e.

Definition isAssociate (e : Event) : bool :=
  match e with Api (AssociateIpAddress _ _ _) => true | _ => false end.

(** A request that creates, updates or deletes a load-balancer rule, or
    changes the instances of one. *)
Definition touchesLbRule (e : Event) : bool :=
  match e with
  | Api (CreateLoadBalancerRule _ _ _ _ _ _ _ _) | Api (UpdateLoadBalancerRule _ _ _)
  | Api (DeleteLoadBalancerRule _) | Api (AssignToLoadBalancerRule _ _)
  | Api (RemoveFromLoadBalancerRule _ _) => true
  | _ => false
  end.

(** What looking after the firewall takes: the listing and the deletion of
    firewall rules, and lines in the log. *)
Definition isFirewallWork (e : Event) : bool :=
  match e with
  | Api (ListFirewallRules _ _) | Api (DeleteFirewallRule _) | Klog _ _ => true
  | _ => false
  end.

(** The protocol of the rule is one the provider knows. *)
Definition knownProtocol `{Helpers} (lbRule : LoadBalancerRule.t) : Prop :=
  ProtocolFromLoadBalancer (LoadBalancerRule.Protocol lbRule) ≠ LoadBalancerProtocolInvalid.

(** Whether the platform refuses to delete the firewall rule, [fails]
    being what it answers to the deletion of an id. *)
Definition refuses (fails : string → option GoError) (rule : FirewallRule.t) : bool :=
  match fails (FirewallRule.Id rule) with Some _ => true | None => false end.

(** The warning [getLoadBalancerByName] logs for a rule on another
    address. *)
Definition differentIPsWarning : Event :=
  Klog LogWarning "Load balancer %v has rules associated with different IP's: %v, %v".

(** A rule follows a rule that has an address, and its own address is
    another one. *)
Definition addressChange (pair : LoadBalancerRule.t * LoadBalancerRule.t) : bool :=
  negb (bool_decide (LoadBalancerRule.Publicip pair.1 = ""))
  && negb (bool_decide (LoadBalancerRule.Publicip pair.1 = LoadBalancerRule.Publicip pair.2)).

(** How many rules of a listing follow a rule on another address. *)
Definition addressChanges (found : list LoadBalancerRule.t) : nat :=
  length (filter (λ pair, addressChange pair = true) (zip found (tail found))).

(** What the deletion loop of [deleteFirewallRule] leaves in the trace for
    the rules in [filtered]: the request to delete each, in turn, followed
    by a line in the error log when the platform refuses it. *)
Definition deletionEvents (fails : string → option GoError)
    (filtered : list FirewallRule.t) : list Event :=
  concat ((λ rule,
             Api (DeleteFirewallRule (FirewallRule.Id rule))
             :: if refuses fails rule
                then [Klog LogError "Error deleting old firewall rule %v: %v"]
                else []) <$> filtered).

(** The line [EnsureLoadBalancerDeleted] writes to the error log for a
    rule whose protocol it does not know, and how many of them a trace
    holds. *)
Definition isProtocolError (e : Event) : bool :=
  match e with
  | Klog LogError msg => bool_decide (msg = "Error parsing protocol: %v")
  | _ => false
  end.

Definition protocolErrors (t : list Event) : nat :=
  length (filter (λ e, isProtocolError e = true) t).

(** What a round for a port takes besides the requests on load-balancer
    rules: the lookup of the network, requests on firewall rules, lines in
    the log, and the warning that the source ranges are ignored. *)
Definition isFirewallRound (e : Event) : bool :=
  match e with
  | Api (GetNetworkByID _ _) | Api (ListFirewallRules _ _)
  | Api (CreateFirewallRule _ _ _ _ _) | Api (DeleteFirewallRule _) | Klog _ _ => true
  | RecordEvent _ reason => bool_decide (reason = "LoadBalancerSourceRangesIgnored")
  | _ => false
  end.

(** ** More sample inputs *)



(** The deletion of the firewall rule fw-1 is refused. *)
Definition refuseSecond : string → option GoError :=
  λ id, if bool_decide (id = "fw-1") then Some (ErrorNew "deletion refused") else None.

(** Two rules under the canonical name, the second with a protocol the
    provider does not know. *)
Definition unknownProtocolRules : string → GoError + list LoadBalancerRule.t :=
  λ keyword,
    if bool_decide (keyword = "K8s_svc_kube_default_web")
    then inr [sampleRule "K8s_svc_kube_default_web-tcp-80" "203.0.113.10" "ip-1";
              LoadBalancerRule.mk "lb-K8s_svc_kube_default_web-sctp-90" "roundrobin" ""
                "K8s_svc_kube_default_web-sctp-90" "net-1" "30090" "90" "203.0.113.10"
                "ip-1" "sctp"]
    else inr [].

(** The load balancer with the rule of the first port of [sampleService],
    as that port wants it. *)
Definition upToDateLB : loadBalancer.t :=
  loadBalancer.set_rules sampleLB
    {[ "K8s_svc_kube_default_web-tcp-80"
       := sampleRule "K8s_svc_kube_default_web-tcp-80" "203.0.113.10" "ip-1" ]}.

(** The platform lists the two desired hosts as the instances of every
    rule. *)
Definition inSyncScript (c : Call) : Resp c :=
  match c return Resp c with
  | ListLoadBalancerRuleInstances _ => inr [sampleInstance "vm-1"; sampleInstance "vm-2"]
  | c => sampleScript noRules sampleVMs c
  end.

Definition inSyncSim : Sim.t :=
  Sim.mk [] None refuseNone None (λ _, "fw-0") inSyncScript.

(** Two rules are found under the canonical name, and the release of an
    address is refused. *)
Definition keepsAddress (c : Call) : Resp c :=
  match c return Resp c with
  | DisassociateIpAddress _ => Some (ErrorNew "release refused")
  | c => sampleScript twoAddresses sampleVMs c
  end.

Definition keepsAddressSim : Sim.t :=
  Sim.mk [] None refuseNone None (λ _, "fw-0") keepsAddress.

(** The deletion of the firewall rule fw-0 is refused. *)
Definition refuseFirst : string → option GoError :=
  λ id, if bool_decide (id = "fw-0") then Some (ErrorNew "deletion refused") else None.

(** The Service asks for an address of its own. *)
Definition pinnedService : Service.t :=
  Service.mk "default" "web" None
    (ServiceSpec.mk (ServiceSpec.Ports (Service.Spec sampleService)) ServiceAffinityNone
       "203.0.113.77" []).

Definition threeFirewallRules : list FirewallRule.t :=
  [sampleFirewallRule "fw-0" "10.0.0.0/8" 80;
   sampleFirewallRule "fw-1" "192.168.0.0/16" 80;
   sampleFirewallRule "fw-2" "10.0.0.0/8" 443].


(* ===================================================================== *)
(** * Properties *)
(* ===================================================================== *)

(** ** Strings *)

Lemma Split_nonempty s sep : Split s sep ≠ [].
Proof.
  destruct s as [|c s]; simpl; [done|].
  case_decide; [done|]. by destruct (Split s sep).
Qed.

Lemma Split_no_sep s sep : ContainsByte s sep = false → Split s sep = [s].
Proof.
  induction s as [|c s IH]; simpl; [done|].
  intros [Hc Hs]%orb_false_iff. apply bool_decide_eq_false in Hc.
  rewrite decide_False by done. by rewrite IH.
Qed.

Lemma Split_app_sep s t sep :
  ContainsByte s sep = false →
  Split (s +:+ String sep t) sep = s :: Split t sep.
Proof.
  induction s as [|c s IH]; simpl.
  - intros _. by rewrite decide_True.
  - intros [Hc Hs]%orb_false_iff. apply bool_decide_eq_false in Hc.
    rewrite decide_False by done. by rewrite IH.
Qed.

(** Splitting a joined list gives the list back when no element holds the
    separator. *)
Lemma Split_Join (l : list string) (sep : ascii) :
  l ≠ [] →
  Forall (λ e, ContainsByte e sep = false) l →
  Split (Join l (String sep EmptyString)) sep = l.
Proof.
  induction l as [|e l IH]; [done|]. intros _ Hall.
  apply Forall_cons in Hall as [He Hl].
  destruct l as [|e' l].
  - simpl. by apply Split_no_sep.
  - change (Join (e :: e' :: l) (String sep EmptyString))
      with (e +:+ String sep EmptyString +:+ Join (e' :: l) (String sep EmptyString)).
    change (String sep EmptyString +:+ ?t) with (String sep t).
    rewrite Split_app_sep by done. f_equal. by apply IH.
Qed.

(** ** compareStringSlice *)

Lemma multiplicity_insert (diff : gmap string Z) (k : string) (c : Z) (k' : string) :
  multiplicity (<[k := c]> diff) k' = if decide (k = k') then c else multiplicity diff k'.
Proof. unfold multiplicity. rewrite lookup_insert. by case_decide. Qed.

Lemma multiplicity_delete (diff : gmap string Z) (k k' : string) :
  multiplicity (delete k diff) k' = if decide (k = k') then 0 else multiplicity diff k'.
Proof. unfold multiplicity. rewrite lookup_delete. by case_decide. Qed.

Lemma multiplicity_nonneg (diff : gmap string Z) (k : string) : positiveCounts diff → 0 ≤ multiplicity diff k.
Proof.
  intros Hpos. unfold multiplicity.
  destruct (diff !! k) as [c|] eqn:E; simpl; [|done]. apply Hpos in E. lia.
Qed.

Lemma occurrences_cons (a : string) (l : list string) (k : string) :
  occurrences (a :: l) k = (if decide (a = k) then 1 else 0) + occurrences l k.
Proof.
  unfold occurrences. case_decide.
  - rewrite count_occ_cons_eq by done. lia.
  - rewrite count_occ_cons_neq by done. lia.
Qed.

Lemma occurrences_nonneg l k : 0 ≤ occurrences l k.
Proof. unfold occurrences. lia. Qed.

Lemma countUp_spec x : ∀ diff,
  positiveCounts diff →
  positiveCounts (countUp diff x)
  ∧ ∀ k, multiplicity (countUp diff x) k = multiplicity diff k + occurrences x k.
Proof.
  induction x as [|a x IH]; intros diff Hpos.
  - split; [done|]. intros k. unfold occurrences. simpl. lia.
  - unfold countUp. simpl. fold (countUp (<[a:=default 0 (diff !! a) + 1]> diff) x).
    destruct (IH (<[a:=default 0 (diff !! a) + 1]> diff)) as [Hpos' Hmul].
    + intros k c. rewrite lookup_insert. case_decide.
      * intros [= <-]. pose proof (multiplicity_nonneg diff a Hpos).
        unfold multiplicity in *. lia.
      * apply Hpos.
    + split; [done|]. intros k. rewrite Hmul, multiplicity_insert, occurrences_cons.
      case_decide; subst; unfold multiplicity; lia.
Qed.

Lemma countDown_spec y : ∀ diff,
  positiveCounts diff →
  match countDown diff y with
  | Some diff' =>
      positiveCounts diff'
      ∧ ∀ k, multiplicity diff' k = multiplicity diff k - occurrences y k
  | None => ∃ k, multiplicity diff k < occurrences y k
  end.
Proof.
  induction y as [|a y IH]; intros diff Hpos; simpl.
  - split; [done|]. intros k. unfold occurrences. simpl. lia.
  - destruct (diff !! a) as [c|] eqn:Ha.
    + pose proof (Hpos _ _ Ha) as Hc.
      rewrite lookup_insert_eq. simpl.
      assert (∀ diff1,
        positiveCounts diff1 →
        (∀ k, multiplicity diff1 k = multiplicity diff k - if decide (a = k) then 1 else 0) →
        match countDown diff1 y with
        | Some diff' =>
            positiveCounts diff'
            ∧ ∀ k, multiplicity diff' k = multiplicity diff k - occurrences (a :: y) k
        | None => ∃ k, multiplicity diff k < occurrences (a :: y) k
        end) as Hstep.
      { intros diff1 Hpos1 Hmul1. specialize (IH diff1 Hpos1).
        destruct (countDown diff1 y) as [diff'|].
        - destruct IH as [Hpos' Hmul']. split; [done|]. intros k.
          rewrite Hmul', Hmul1, occurrences_cons. lia.
        - destruct IH as [k Hk]. exists k. rewrite Hmul1 in Hk.
          rewrite occurrences_cons. lia. }
      case_bool_decide as Hz; apply Hstep.
      * intros k c'. rewrite lookup_delete. case_decide; [done|].
        rewrite lookup_insert_ne by done. apply Hpos.
      * intros k. rewrite multiplicity_delete. case_decide.
        -- subst. unfold multiplicity. rewrite Ha. simpl. lia.
        -- rewrite multiplicity_insert. rewrite decide_False by done. lia.
      * intros k c'. rewrite lookup_insert. case_decide.
        -- intros [= <-]. lia.
        -- apply Hpos.
      * intros k. rewrite multiplicity_insert. case_decide.
        -- subst. unfold multiplicity. rewrite Ha. simpl. lia.
        -- lia.
    + exists a. unfold multiplicity. rewrite Ha. simpl.
      rewrite occurrences_cons, decide_True by done.
      pose proof (occurrences_nonneg y a). lia.
Qed.

Lemma positiveCounts_empty_iff (diff : gmap string Z) :
  positiveCounts diff → (size diff = 0%nat ↔ ∀ k, multiplicity diff k = 0).
Proof.
  intros Hpos. rewrite map_size_empty_iff. split.
  - intros -> k. unfold multiplicity. by rewrite lookup_empty.
  - intros Hz. apply map_eq. intros k. rewrite lookup_empty.
    destruct (diff !! k) as [c|] eqn:E; [|done].
    specialize (Hz k). unfold multiplicity in Hz. rewrite E in Hz. simpl in Hz.
    apply Hpos in E. lia.
Qed.

(** [compareStringSlice] decides equality of multisets: it answers [true]
    exactly when one slice is a rearrangement of the other. *)
Lemma compareStringSlice_Permutation (x y : list string) :
  compareStringSlice x y = true ↔ x ≡ₚ y.
Proof.
  unfold compareStringSlice.
  destruct (countUp_spec x ∅) as [Hpos Hmul]; [intros k c; by rewrite lookup_empty|].
  assert (∀ k, multiplicity (countUp ∅ x) k = occurrences x k) as Hx.
  { intros k. rewrite Hmul. unfold multiplicity. rewrite lookup_empty. simpl. lia. }
  pose proof (countDown_spec y _ Hpos) as Hdown.
  split.
  - case_bool_decide as Hlen; simpl; [|done].
    destruct (countDown (countUp ∅ x) y) as [diff'|]; [|done].
    destruct Hdown as [Hpos' Hmul']. intros Hsize%bool_decide_eq_true.
    apply (Permutation_count_occ String.string_dec). intros k.
    apply (positiveCounts_empty_iff _ Hpos') with (k := k) in Hsize.
    rewrite Hmul', Hx in Hsize. unfold occurrences in Hsize. lia.
  - intros Hperm.
    rewrite bool_decide_eq_true_2 by (by apply Permutation_length). simpl.
    assert (∀ k, occurrences x k = occurrences y k) as Hocc.
    { intros k. unfold occurrences. f_equal.
      by apply (Permutation_count_occ String.string_dec). }
    destruct (countDown (countUp ∅ x) y) as [diff'|].
    + destruct Hdown as [Hpos' Hmul']. apply bool_decide_eq_true.
      apply positiveCounts_empty_iff; [done|]. intros k.
      rewrite Hmul', Hx, Hocc. lia.
    + destruct Hdown as [k Hk]. rewrite Hx, Hocc in Hk. lia.
Qed.

(** ** symmetricDifference *)

Section SymmetricDifferenceFacts.
Context {mapRange : MapRange}.

Lemma newIDs_lookup (hostIDs : list string) : ∀ (m : gmap string bool) (k : string),
  foldl (λ m hostID, <[hostID := true]> m) m hostIDs !! k
  = if decide (k ∈ hostIDs) then Some true else m !! k.
Proof.
  induction hostIDs as [|a l IH]; intros m k; cbn [foldl].
  - case_decide as Hin; [by apply elem_of_nil in Hin|done].
  - rewrite IH, lookup_insert.
    destruct (decide (k ∈ l)) as [Hin|Hnin].
    + rewrite decide_True; [done|]. by apply list_elem_of_further.
    + destruct (decide (a = k)) as [->|Hne].
      * rewrite decide_True; [done|]. apply list_elem_of_here.
      * rewrite decide_False; [done|]. rewrite elem_of_cons. naive_solver.
Qed.

Lemma removeLoop_newIDs (lbInstances : list VirtualMachine.t) :
  ∀ (newIDs : gmap string bool) (remove : list string) (k : string),
  (removeLoop newIDs remove lbInstances).1 !! k
  = if decide (k ∈ VirtualMachine.Id <$> lbInstances) then
      (if default false (newIDs !! k) then None else newIDs !! k)
    else newIDs !! k.
Proof.
  induction lbInstances as [|i rest IH]; intros newIDs remove k; cbn [removeLoop].
  - case_decide as Hin; [by apply elem_of_nil in Hin|done].
  - rewrite fmap_cons.
    destruct (default false (newIDs !! VirtualMachine.Id i)) eqn:Hi; rewrite IH.
    + rewrite lookup_delete.
      destruct (decide (VirtualMachine.Id i = k)) as [<-|Hne].
      * rewrite (decide_True (P := _ ∈ _ :: _)) by apply list_elem_of_here.
        rewrite Hi. simpl. by case_decide.
      * destruct (decide (k ∈ VirtualMachine.Id <$> rest)) as [Hin|Hnin].
        -- rewrite decide_True; [done|]. by apply list_elem_of_further.
        -- rewrite decide_False; [done|]. rewrite elem_of_cons. naive_solver.
    + destruct (decide (k ∈ VirtualMachine.Id <$> rest)) as [Hin|Hnin].
      * rewrite decide_True; [done|]. by apply list_elem_of_further.
      * destruct (decide (k = VirtualMachine.Id i)) as [->|Hne].
        -- rewrite decide_True by apply list_elem_of_here. by rewrite Hi.
        -- rewrite decide_False; [done|]. rewrite elem_of_cons. naive_solver.
Qed.

Lemma removeLoop_remove_subset (lbInstances : list VirtualMachine.t) :
  ∀ (newIDs : gmap string bool) (remove : list string) (k : string),
  k ∈ (removeLoop newIDs remove lbInstances).2 →
  k ∈ remove ∨ (k ∈ VirtualMachine.Id <$> lbInstances).
Proof.
  induction lbInstances as [|i rest IH]; intros newIDs remove k; cbn [removeLoop];
    [by left|].
  rewrite fmap_cons.
  destruct (default false (newIDs !! VirtualMachine.Id i)); intros Hk%IH;
    rewrite elem_of_cons.
  - naive_solver.
  - rewrite elem_of_app, list_elem_of_singleton in Hk. naive_solver.
Qed.

Lemma removeLoop_remove (lbInstances : list VirtualMachine.t) :
  NoDup (VirtualMachine.Id <$> lbInstances) →
  ∀ (newIDs : gmap string bool) (remove : list string) (k : string),
  k ∈ (removeLoop newIDs remove lbInstances).2
  ↔ k ∈ remove ∨ (k ∈ VirtualMachine.Id <$> lbInstances ∧ default false (newIDs !! k) = false).
Proof.
  induction lbInstances as [|i rest IH]; intros Hnodup newIDs remove k; cbn [removeLoop].
  - rewrite fmap_nil. split; [by left|]. intros [?|[[]%elem_of_nil _]]. done.
  - rewrite fmap_cons in *. apply NoDup_cons in Hnodup as [Hi Hrest].
    destruct (default false (newIDs !! VirtualMachine.Id i)) eqn:Hlook;
      rewrite (IH Hrest), elem_of_cons.
    + split.
      * intros [?|[Hk Hd]]; [by left|right]. split; [by right|].
        destruct (decide (k = VirtualMachine.Id i)) as [->|Hne]; [done|].
        by rewrite lookup_delete_ne in Hd.
      * intros [?|[[->|Hk] Hd]]; [by left|congruence|right]. split; [done|].
        destruct (decide (k = VirtualMachine.Id i)) as [->|Hne]; [congruence|].
        by rewrite lookup_delete_ne.
    + rewrite elem_of_app, list_elem_of_singleton. naive_solver.
Qed.

(** C4 (as amended).  For every desired host-ID list and every current
    instance list in which no instance occurs twice, [symmetricDifference]
    returns [assign] = desired − current and [remove] = current − desired as
    sets; every element of [assign] is desired, every element of [remove]
    is current, and no element is in both. *)
Theorem symmetricDifference_sets (hostIDs : list string)
    (lbInstances : list VirtualMachine.t) :
  NoDup (VirtualMachine.Id <$> lbInstances) →
  let current := VirtualMachine.Id <$> lbInstances in
  let assign := (symmetricDifference hostIDs lbInstances).1 in
  let remove := (symmetricDifference hostIDs lbInstances).2 in
  (∀ x, x ∈ assign ↔ x ∈ hostIDs ∧ x ∉ current)
  ∧ (∀ x, x ∈ remove ↔ x ∈ current ∧ x ∉ hostIDs)
  ∧ (∀ x, x ∈ assign → x ∈ hostIDs)
  ∧ (∀ x, x ∈ remove → x ∈ current)
  ∧ (∀ x, x ∈ assign → x ∉ remove).
Proof.
  intros Hnodup current assign remove.
  set (newIDs := foldl (λ m hostID, <[hostID := true]> m) (∅ : gmap string bool) hostIDs).
  assert (∀ k, default false (newIDs !! k) = bool_decide (k ∈ hostIDs)) as Hnew.
  { intros k. unfold newIDs. rewrite newIDs_lookup, lookup_empty.
    case_decide; [by rewrite bool_decide_eq_true_2|by rewrite bool_decide_eq_false_2]. }
  assert (∀ x, x ∈ assign ↔ x ∈ hostIDs ∧ x ∉ current) as Hassign.
  { intros x. unfold assign, symmetricDifference. fold newIDs.
    destruct (removeLoop newIDs [] lbInstances) as [newIDs' remove'] eqn:Hloop.
    cbn [fst]. rewrite rangeOrder_perm, list_elem_of_fmap.
    pose proof (removeLoop_newIDs lbInstances newIDs [] x) as Hx.
    rewrite Hloop in Hx. cbn [fst] in Hx. fold current in Hx.
    rewrite Hnew in Hx. unfold newIDs in Hx at 1 2. rewrite newIDs_lookup, lookup_empty in Hx.
    split.
    - intros [[k v] [Hk Hin%elem_of_map_to_list]]. cbn [fst] in Hk. subst k.
      rewrite Hin in Hx.
      destruct (decide (x ∈ current)); destruct (decide (x ∈ hostIDs));
        rewrite ?bool_decide_eq_true_2 in Hx by done;
        rewrite ?bool_decide_eq_false_2 in Hx by done; naive_solver.
    - intros [Hin Hnin]. rewrite decide_False in Hx by done.
      rewrite decide_True in Hx by done.
      exists (x, true). split; [done|]. by apply elem_of_map_to_list. }
  assert (∀ x, x ∈ remove ↔ x ∈ current ∧ x ∉ hostIDs) as Hremove.
  { intros x. unfold remove, symmetricDifference. fold newIDs.
    pose proof (removeLoop_remove lbInstances Hnodup newIDs [] x) as Hx.
    destruct (removeLoop newIDs [] lbInstances) as [newIDs' remove']. cbn [snd] in *.
    rewrite Hx, Hnew, bool_decide_eq_false. fold current.
    split; [intros [[]%elem_of_nil|?]; done|by right]. }
  split_and!; [done|done|..].
  - intros x Hx. by apply Hassign in Hx as [? _].
  - intros x Hx. by apply Hremove in Hx as [? _].
  - intros x Hx%Hassign Hx'%Hremove. naive_solver.
Qed.
End SymmetricDifferenceFacts.

Lemma symmetricDifference_sets_witness :
  NoDup (VirtualMachine.Id <$> [sampleInstance "vm-b"; sampleInstance "vm-c"])
  ∧ (∀ x, x ∈ (symmetricDifference (mapRange := insertionOrder) ["vm-a"; "vm-b"]
                 [sampleInstance "vm-b"; sampleInstance "vm-c"]).2
          ↔ x ∈ VirtualMachine.Id <$> [sampleInstance "vm-b"; sampleInstance "vm-c"]
            ∧ x ∉ ["vm-a"; "vm-b"]).
Proof.
  assert (NoDup (VirtualMachine.Id <$> [sampleInstance "vm-b"; sampleInstance "vm-c"]))
    as Hnodup by (apply (bool_decide_unpack _); vm_compute; exact I).
  split; [exact Hnodup|].
  exact (proj1 (proj2 (symmetricDifference_sets (mapRange := insertionOrder)
                         ["vm-a"; "vm-b"] _ Hnodup))).
Defined.

(** C4 (as stated) fails when an instance is listed twice: the second
    occurrence of a desired host lands in [remove]. *)
Lemma symmetricDifference_duplicate_instance :
  symmetricDifference (mapRange := insertionOrder) ["vm-a"]
    [sampleInstance "vm-a"; sampleInstance "vm-a"] = ([], ["vm-a"])
  ∧ "vm-a" ∈ ["vm-a"].
Proof. split; [by vm_compute|apply list_elem_of_here]. Qed.

(** ** Lists *)

Lemma filter_all {A} (P : A → Prop) `{∀ x, Decision (P x)} (l : list A) :
  (∀ x, x ∈ l → P x) → filter P l = l.
Proof.
  induction l as [|a l IH]; intros HP; [done|].
  rewrite filter_cons_True by (apply HP, list_elem_of_here).
  f_equal. apply IH. intros x Hx. by apply HP, list_elem_of_further.
Qed.

Lemma filter_none {A} (P : A → Prop) `{∀ x, Decision (P x)} (l : list A) :
  (∀ x, x ∈ l → ¬ P x) → filter P l = [].
Proof.
  induction l as [|a l IH]; intros HP; [done|].
  rewrite filter_cons_False by (apply HP, list_elem_of_here).
  apply IH. intros x Hx. by apply HP, list_elem_of_further.
Qed.

Lemma NoDup_singleton_ext {A} (l : list A) (a : A) :
  NoDup l → (∀ x, x ∈ l ↔ x = a) → l = [a].
Proof.
  intros Hnd Hiff. destruct l as [|x l].
  - pose proof (proj2 (Hiff a) eq_refl) as Hin. by apply elem_of_nil in Hin.
  - assert (x = a) as -> by (apply Hiff, list_elem_of_here).
    apply NoDup_cons in Hnd as [Hx _]. destruct l as [|y l]; [done|].
    assert (y = a) as ->.
    { apply Hiff. apply list_elem_of_further, list_elem_of_here. }
    destruct Hx. apply list_elem_of_here.
Qed.

Section FirewallOnSim.
Context {mapRange : MapRange} {helpers : Helpers}.

Lemma set_firewallRules_same (sim : Sim.t) :
  Sim.set_firewallRules sim (Sim.firewallRules sim) = sim.
Proof. by destruct sim. Qed.

Lemma elem_of_filteredEntries protocol publicPort listed (e : nat * FirewallRule.t) :
  e ∈ filteredEntries protocol publicPort listed
  ↔ listed !! e.1 = Some e.2 ∧ matchesPort protocol publicPort e.2 = true.
Proof.
  unfold filteredEntries. rewrite list_elem_of_filter, elem_of_lookup_imap.
  split.
  - intros [Hm (i & r & -> & Hl)]. done.
  - intros [Hl Hm]. split; [done|]. exists e.1, e.2. by destruct e.
Qed.

Lemma desiredCIDRs_eq (allowedCIDRs : list string) :
  (if bool_decide (length allowedCIDRs = 0%nat) then [defaultAllowedCIDR] else allowedCIDRs)
  = desiredCIDRs allowedCIDRs.
Proof. by destruct allowedCIDRs. Qed.

Lemma desiredCIDRs_no_comma (allowedCIDRs : list string) :
  Forall (λ cidr, ContainsByte cidr ","%char = false) allowedCIDRs →
  desiredCIDRs allowedCIDRs ≠ []
  ∧ Forall (λ cidr, ContainsByte cidr ","%char = false) (desiredCIDRs allowedCIDRs).
Proof.
  destruct allowedCIDRs as [|c l]; intros Hall; cbn.
  - split; [done|]. by repeat constructor.
  - done.
Qed.

End FirewallOnSim.

(** C1 (the code departs from it).  The platform refuses to delete the
    rule that is in the way.  When no rule carries the desired list, the
    error of the deletion is overwritten by the result of the creation:
    the call returns without error, and two rules exist for the identity.
    When a rule carries the desired list and nothing is created, the same
    refusal is returned. *)
Lemma updateFirewallRule_drops_deletion_error :
  let update (rules : list FirewallRule.t) :=
    updateFirewallRule (mapRange := insertionOrder) (helpers := sampleHelpers)
      sampleLB "ip-1" 80 SampleTCP ["192.168.0.0/16"]
      (mkWorld (sampleSim noRules rules refuseAll) []) in
  let run := update [sampleFirewallRule "fw-0" "10.0.0.0/8" 80] in
  let sibling :=
    update [sampleFirewallRule "fw-0" "10.0.0.0/8" 80;
            sampleFirewallRule "fw-1" "192.168.0.0/16" 80] in
  (run.1 = (true, None)
   ∧ trace run.2
     = [Api (ListFirewallRules "ip-1" "");
        Api (DeleteFirewallRule "fw-0");
        Klog LogError "Error deleting old firewall rule %v: %v";
        Api (CreateFirewallRule "ip-1" "tcp" ["192.168.0.0/16"] 80 80)]
   ∧ filter (λ r, forIdentity (H := sampleHelpers) "ip-1" SampleTCP 80 r = true)
       (Sim.firewallRules (remote run.2))
     = [sampleFirewallRule "fw-0" "10.0.0.0/8" 80;
        FirewallRule.mk "fw-1" "192.168.0.0/16" "" "ip-1" "tcp" 80 80])
  ∧ sibling.1 = (true, Some (ErrorNew "deletion refused"))
  ∧ trace sibling.2
    = [Api (ListFirewallRules "ip-1" "");
       Api (DeleteFirewallRule "fw-0");
       Klog LogError "Error deleting old firewall rule %v: %v"].
Proof. by vm_compute. Qed.

(** C8 (the code departs from it).  A rule with the desired CIDR list is
    installed and no other rule matches: [updateFirewallRule] sends the
    listing and nothing else, leaves the firewall as it is, and still
    returns [true]. *)
Lemma updateFirewallRule_reports_change_without_change :
  let w := mkWorld (sampleSim noRules [sampleFirewallRule "fw-0" "10.0.0.0/8" 80] refuseNone) [] in
  let run :=
    updateFirewallRule (mapRange := insertionOrder) (helpers := sampleHelpers)
      sampleLB "ip-1" 80 SampleTCP ["10.0.0.0/8"] w in
  run.1 = (true, None)
  ∧ trace run.2 = [Api (ListFirewallRules "ip-1" "")]
  ∧ Sim.firewallRules (remote run.2) = Sim.firewallRules (remote w).
Proof. by vm_compute. Qed.

Section FirewallResult.
Context {mapRange : MapRange} {helpers : Helpers} {libraries : Libraries}.
Context {S : Type} {platform : Platform S}.

(** On every platform, a call of [updateFirewallRule] that returns no
    error returns [true]: the result does not tell a change from none. *)
Lemma updateFirewallRule_true_unless_error (lb : loadBalancer.t) (publicIPID : string)
    (publicPort : Z) (protocol : LoadBalancerProtocol) (allowedCIDRs : list string)
    (w : World S) :
  (updateFirewallRule lb publicIPID publicPort protocol allowedCIDRs w).1.2 = None →
  (updateFirewallRule lb publicIPID publicPort protocol allowedCIDRs w).1.1 = true.
Proof.
  unfold updateFirewallRule, mbind, M_bind.
  destruct (call _ w) as [[err|listed] w1]; [done|].
  destruct (deleteFiltered _ None w1) as [err w2].
  destruct (head _); [done|].
  by destruct (call _ w2) as [[?|] ?].
Qed.

(** When [ensureRules] returns no error, the status it returns names the
    hostname of the annotation if there is one, and the address of the
    load balancer otherwise. *)
Lemma ensureRules_status (service : Service.t) (lb : loadBalancer.t) (w : World S) :
  let run := ensureRules service lb w in
  let hostname :=
    getStringFromServiceAnnotation run.1.1.1.2
      ServiceAnnotationLoadBalancerLoadbalancerHostname "" in
  run.1.2 = None →
  run.1.1.2
  = Some (LoadBalancerStatus.mk
            [if bool_decide (hostname = "")
             then LoadBalancerIngress.mk (loadBalancer.ipAddr run.1.1.1.1) ""
             else LoadBalancerIngress.mk "" hostname]).
Proof.
  cbn zeta. unfold ensureRules, mbind, M_bind.
  destruct (ensurePorts _ lb _ w) as [[lb1 [err|]] w1]; [done|].
  destruct (cleanupRules lb1 _ w1) as [[lb2 [err|]] w2]; [done|].
  set (annotated := setServiceAnnotation service _ _).
  destruct (bool_decide (getStringFromServiceAnnotation annotated _ "" = "")) eqn:Hhost;
    cbn; by rewrite Hhost.
Qed.

End FirewallResult.

(** ** checkLoadBalancerRule *)

Section RuleReconciler.
Context {helpers : Helpers} {S : Type} {platform : Platform S}.

End RuleReconciler.


(** ** getLoadBalancerByName and GetLoadBalancer *)

Section Locator.
Context {helpers : Helpers} {libraries : Libraries}.
Context {S : Type} {platform : Platform S}.

Lemma rulesByName_nonempty (found : list LoadBalancerRule.t) :
  ∀ start, found ≠ [] → rulesByName start found ≠ ∅.
Proof.
  induction found as [|a rest IH]; intros start Hne; [done|].
  destruct rest as [|b rest].
  - cbn. apply insert_non_empty.
  - apply (IH (<[LoadBalancerRule.Name a := a]> start)). done.
Qed.

Lemma collectRules_located (found : list LoadBalancerRule.t) :
  ∀ (lb : loadBalancer.t) (w : World S),
  ∃ warnings,
    collectRules lb found w = (located lb found, mkWorld (remote w) (trace w ++ warnings))
    ∧ Forall (λ e, isWarning e = true) warnings.
Proof.
  induction found as [|a rest IH]; intros lb w.
  - exists []. rewrite app_nil_r. split; [by destruct w|done].
  - cbn [collectRules]. unfold mbind, M_bind.
    set (lb1 := loadBalancer.set_rules lb _).
    set (lb2 := loadBalancer.set_ip lb1 _ _).
    assert (located lb (a :: rest) = located lb2 rest) as ->.
    { unfold located. rewrite last_cons. destruct (last rest) eqn:E; [done|].
      apply last_None in E. subst rest. done. }
    destruct (negb _ && negb _).
    + destruct (IH lb2 (emit (Klog LogWarning "Load balancer %v has rules associated with different IP's: %v, %v") w).2)
        as (warnings & Heq & Hall).
      eexists (_ :: warnings). cbn in *. rewrite Heq. split.
      * by rewrite <- app_assoc.
      * by constructor.
    + destruct (IH lb2 w) as (warnings & Heq & Hall).
      exists warnings. cbn. by rewrite Heq.
Qed.

Lemma getLoadBalancerByName_canonical (cs : CSCloud.t) (name legacyName : string)
    (w w1 : World S) (found : list LoadBalancerRule.t) :
  call (ListLoadBalancerRules name (CSCloud.projectID cs)) w = (inr found, w1) →
  found ≠ [] →
  ∃ warnings,
    getLoadBalancerByName cs name legacyName w
    = (inr (located (emptyLoadBalancer cs name) found),
       mkWorld (remote w1) (trace w1 ++ warnings))
    ∧ Forall (λ e, isWarning e = true) warnings.
Proof.
  intros Hcall Hne. unfold getLoadBalancerByName, mbind, M_bind.
  cbn [loadBalancer.name]. rewrite Hcall.
  rewrite bool_decide_eq_false_2 by (by destruct found).
  destruct (collectRules_located found (emptyLoadBalancer cs name) w1)
    as (warnings & Heq & Hall).
  exists warnings. unfold emptyLoadBalancer in Heq. by rewrite Heq.
Qed.

Lemma getLoadBalancerByName_legacy (cs : CSCloud.t) (name legacyName : string)
    (w w1 w2 : World S) (found : list LoadBalancerRule.t) :
  call (ListLoadBalancerRules name (CSCloud.projectID cs)) w = (inr [], w1) →
  legacyName ≠ "" →
  call (ListLoadBalancerRules legacyName (CSCloud.projectID cs)) w1 = (inr found, w2) →
  ∃ warnings,
    getLoadBalancerByName cs name legacyName w
    = (inr (located (emptyLoadBalancer cs match found with [] => name | _ => legacyName end)
                    found),
       mkWorld (remote w2) (trace w2 ++ warnings))
    ∧ Forall (λ e, isWarning e = true) warnings.
Proof.
  intros Hcall Hne Hlegacy. unfold getLoadBalancerByName, mbind, M_bind.
  cbn [loadBalancer.name]. rewrite Hcall.
  rewrite bool_decide_eq_true_2 by done.
  rewrite bool_decide_eq_true_2 by (destruct legacyName; [done|cbn; lia]).
  rewrite Hlegacy.
  set (lb := if bool_decide _ then _ else _).
  destruct (collectRules_located found lb w2) as (warnings & Heq & Hall).
  exists warnings. rewrite Heq. split; [|done]. unfold mret, M_ret. do 3 f_equal.
  unfold lb. by destruct found.
Qed.

Lemma getLoadBalancerByName_nothing (cs : CSCloud.t) (name : string) (w w1 : World S) :
  call (ListLoadBalancerRules name (CSCloud.projectID cs)) w = (inr [], w1) →
  getLoadBalancerByName cs name "" w = (inr (emptyLoadBalancer cs name), w1).
Proof.
  intros Hcall. unfold getLoadBalancerByName, mbind, M_bind.
  cbn [loadBalancer.name]. by rewrite Hcall.
Qed.

Lemma getLoadBalancerByName_canonical_error (cs : CSCloud.t) (name legacyName : string)
    (w w1 : World S) (err : GoError) :
  call (ListLoadBalancerRules name (CSCloud.projectID cs)) w = (inl err, w1) →
  getLoadBalancerByName cs name legacyName w
  = (inl (Errorf "error retrieving load balancer rules: %w" (Some err)), w1).
Proof.
  intros Hcall. unfold getLoadBalancerByName, mbind, M_bind.
  cbn [loadBalancer.name]. by rewrite Hcall.
Qed.

Lemma getLoadBalancerByName_legacy_error (cs : CSCloud.t) (name legacyName : string)
    (w w1 w2 : World S) (err : GoError) :
  call (ListLoadBalancerRules name (CSCloud.projectID cs)) w = (inr [], w1) →
  legacyName ≠ "" →
  call (ListLoadBalancerRules legacyName (CSCloud.projectID cs)) w1 = (inl err, w2) →
  getLoadBalancerByName cs name legacyName w
  = (inl (Errorf "error retrieving load balancer rules: %w" (Some err)), w2).
Proof.
  intros Hcall Hne Hlegacy. unfold getLoadBalancerByName, mbind, M_bind.
  cbn [loadBalancer.name]. rewrite Hcall.
  rewrite bool_decide_eq_true_2 by done.
  rewrite bool_decide_eq_true_2 by (destruct legacyName; [done|cbn; lia]).
  by rewrite Hlegacy.
Qed.

Lemma call_trace (c : Call) (w : World S) : trace (call c w).2 = trace w ++ [Api c].
Proof. unfold call. by destruct (handle c (remote w)). Qed.

Lemma located_name (lb : loadBalancer.t) (found : list LoadBalancerRule.t) :
  loadBalancer.name (located lb found) = loadBalancer.name lb.
Proof. unfold located. by destruct (last found). Qed.

Lemma located_rules (lb : loadBalancer.t) (found : list LoadBalancerRule.t) :
  loadBalancer.rules (located lb found) = rulesByName (loadBalancer.rules lb) found.
Proof.
  unfold located. destruct (last found) eqn:E; [done|].
  apply last_None in E. by subst.
Qed.

(** C3.  When the listing under the canonical name is empty and a legacy
    name is given, [getLoadBalancerByName] lists again under the legacy
    name, and if that listing holds a rule the load balancer it returns
    carries the legacy name and the rules listed under it; when the
    canonical listing holds a rule, the name stays canonical. *)
Theorem getLoadBalancerByName_legacy_fallback (cs : CSCloud.t)
    (name legacyName : string) (w : World S) :
  let pid := CSCloud.projectID cs in
  let canonical := call (ListLoadBalancerRules name pid) w in
  let legacy := call (ListLoadBalancerRules legacyName pid) canonical.2 in
  let run := getLoadBalancerByName cs name legacyName w in
  (canonical.1 = inr [] → legacyName ≠ "" →
     (∃ rest, trace run.2
              = trace w ++ [Api (ListLoadBalancerRules name pid);
                            Api (ListLoadBalancerRules legacyName pid)] ++ rest)
     ∧ ∀ found, legacy.1 = inr found → found ≠ [] →
         ∃ lb, run.1 = inr lb
               ∧ loadBalancer.name lb = legacyName
               ∧ loadBalancer.rules lb = rulesByName ∅ found)
  ∧ (∀ found, canonical.1 = inr found → found ≠ [] →
       ∃ lb, run.1 = inr lb
             ∧ loadBalancer.name lb = name
             ∧ loadBalancer.rules lb = rulesByName ∅ found).
Proof.
  intros pid canonical legacy run.
  pose proof (call_trace (ListLoadBalancerRules name pid) w) as Htr1.
  pose proof (call_trace (ListLoadBalancerRules legacyName pid) canonical.2) as Htr2.
  fold canonical in Htr1. fold legacy in Htr2.
  destruct canonical as [r1 w1] eqn:Hc. destruct legacy as [r2 w2] eqn:Hl.
  cbn [fst snd] in *. split.
  - intros -> Hne. split.
    + destruct r2 as [err|found].
      * exists []. unfold run.
        rewrite (getLoadBalancerByName_legacy_error cs name legacyName w w1 w2 err) by done.
        cbn [snd]. rewrite Htr2, Htr1, <- app_assoc. done.
      * destruct (getLoadBalancerByName_legacy cs name legacyName w w1 w2 found)
          as (warnings & Heq & _); [done..|].
        exists warnings. unfold run. rewrite Heq. cbn [snd trace].
        rewrite Htr2, Htr1, <- !app_assoc. done.
    + intros found -> Hfound.
      destruct (getLoadBalancerByName_legacy cs name legacyName w w1 w2 found)
        as (warnings & Heq & _); [done..|].
      eexists. unfold run. rewrite Heq. cbn [fst]. split; [done|].
      rewrite located_name, located_rules. by destruct found.
  - intros found -> Hfound.
    destruct (getLoadBalancerByName_canonical cs name legacyName w w1 found)
      as (warnings & Heq & _); [done..|].
    eexists. unfold run. rewrite Heq. cbn [fst]. split; [done|].
    by rewrite located_name, located_rules.
Qed.

Lemma collectRules_warnings (found : list LoadBalancerRule.t) :
  ∀ (lb : loadBalancer.t) (w : World S),
  collectRules lb found w
  = (located lb found,
     mkWorld (remote w)
       (trace w
        ++ replicate
             (match found with
              | [] => 0%nat
              | first :: _ =>
                  (if negb (bool_decide (loadBalancer.ipAddr lb = ""))
                      && negb (bool_decide (loadBalancer.ipAddr lb
                                            = LoadBalancerRule.Publicip first))
                   then 1 else 0) + addressChanges found
              end)%nat
             differentIPsWarning)).
Proof.
  induction found as [|a rest IH]; intros lb w.
  - cbn. rewrite app_nil_r. by destruct w.
  - cbn [collectRules]. unfold mbind, M_bind.
    set (lb1 := loadBalancer.set_rules lb _).
    set (lb2 := loadBalancer.set_ip lb1 _ _).
    assert (located lb (a :: rest) = located lb2 rest) as ->.
    { unfold located. rewrite last_cons. destruct (last rest) eqn:E; [done|].
      apply last_None in E. subst rest. done. }
    assert (addressChanges (a :: rest)
            = match rest with
              | [] => 0%nat
              | first :: _ =>
                  ((if negb (bool_decide (loadBalancer.ipAddr lb2 = ""))
                       && negb (bool_decide (loadBalancer.ipAddr lb2
                                             = LoadBalancerRule.Publicip first))
                    then 1 else 0) + addressChanges rest)%nat
              end) as ->.
    { destruct rest as [|b rest']; [done|].
      unfold addressChanges. cbn [tail zip zip_with].
      change (negb (bool_decide (loadBalancer.ipAddr lb2 = ""))
              && negb (bool_decide (loadBalancer.ipAddr lb2 = LoadBalancerRule.Publicip b)))
        with (addressChange (a, b)).
      destruct (addressChange (a, b)) eqn:Hchange.
      - by rewrite filter_cons_True.
      - rewrite filter_cons_False; [done|]. by rewrite Hchange. }
    change (loadBalancer.ipAddr lb1) with (loadBalancer.ipAddr lb).
    destruct (negb _ && negb _); unfold emit, mret, M_ret; cbv beta iota.
    + rewrite IH. cbn [remote trace]. f_equal. f_equal.
      by rewrite <- app_assoc.
    + by rewrite IH.
Qed.

Lemma getLoadBalancerByName_canonical_trace (cs : CSCloud.t) (name legacyName : string)
    (w w1 : World S) (found : list LoadBalancerRule.t) :
  call (ListLoadBalancerRules name (CSCloud.projectID cs)) w = (inr found, w1) →
  found ≠ [] →
  getLoadBalancerByName cs name legacyName w
  = (inr (located (emptyLoadBalancer cs name) found),
     mkWorld (remote w1)
       (trace w1 ++ replicate (addressChanges found) differentIPsWarning)).
Proof.
  intros Hcall Hne. unfold getLoadBalancerByName, mbind, M_bind.
  cbn [loadBalancer.name]. rewrite Hcall.
  rewrite bool_decide_eq_false_2 by (by destruct found).
  fold (emptyLoadBalancer cs name). rewrite collectRules_warnings.
  by destruct found.
Qed.

Lemma getLoadBalancerByName_legacy_trace (cs : CSCloud.t) (name legacyName : string)
    (w w1 w2 : World S) (found : list LoadBalancerRule.t) :
  call (ListLoadBalancerRules name (CSCloud.projectID cs)) w = (inr [], w1) →
  legacyName ≠ "" →
  call (ListLoadBalancerRules legacyName (CSCloud.projectID cs)) w1 = (inr found, w2) →
  found ≠ [] →
  getLoadBalancerByName cs name legacyName w
  = (inr (located (emptyLoadBalancer cs legacyName) found),
     mkWorld (remote w2)
       (trace w2 ++ replicate (addressChanges found) differentIPsWarning)).
Proof.
  intros Hcall Hne Hlegacy Hfound. unfold getLoadBalancerByName, mbind, M_bind.
  cbn [loadBalancer.name]. rewrite Hcall.
  rewrite bool_decide_eq_true_2 by done.
  rewrite bool_decide_eq_true_2 by (destruct legacyName; [done|cbn; lia]).
  rewrite Hlegacy.
  rewrite bool_decide_eq_true_2 by (destruct found; [done|cbn; lia]).
  rewrite collectRules_warnings. by destruct found.
Qed.

Lemma addressChanges_positive (found : list LoadBalancerRule.t) (i : nat)
    (r1 r2 : LoadBalancerRule.t) :
  found !! i = Some r1 → found !! Datatypes.S i = Some r2 →
  LoadBalancerRule.Publicip r1 ≠ "" →
  LoadBalancerRule.Publicip r1 ≠ LoadBalancerRule.Publicip r2 →
  (0 < addressChanges found)%nat.
Proof.
  intros H1 H2 Hne Hdiff. unfold addressChanges.
  assert ((r1, r2) ∈ filter (λ pair, addressChange pair = true) (zip found (tail found)))
    as Hin.
  { apply list_elem_of_filter. split.
    - unfold addressChange. cbn [fst snd].
      by rewrite !bool_decide_eq_false_2.
    - apply list_elem_of_lookup. exists i.
      rewrite lookup_zip_with, H1. cbn. by rewrite lookup_tail, H2. }
  destruct (filter _ _); [by apply elem_of_nil in Hin|cbn; lia].
Qed.

(** C7 (as amended).  When [getLoadBalancerByName] finds at least one
    rule, [ipAddr] and [ipAddrID] are those of the rule listed last, and
    it returns no error.  What it logs after its requests is one warning
    for every rule that follows a rule on another address, and nothing
    else: where a rule follows a rule that has an address and its own
    address is another one, the warning is in the log. *)
Theorem getLoadBalancerByName_address (cs : CSCloud.t) (name legacyName : string)
    (w : World S) (found : list LoadBalancerRule.t) :
  let pid := CSCloud.projectID cs in
  let canonical := call (ListLoadBalancerRules name pid) w in
  let legacy := call (ListLoadBalancerRules legacyName pid) canonical.2 in
  let run := getLoadBalancerByName cs name legacyName w in
  found ≠ [] →
  canonical.1 = inr found
  ∨ (canonical.1 = inr [] ∧ legacyName ≠ "" ∧ legacy.1 = inr found) →
  ∃ lb lbRule requests,
    run.1 = inr lb
    ∧ last found = Some lbRule
    ∧ loadBalancer.ipAddr lb = LoadBalancerRule.Publicip lbRule
    ∧ loadBalancer.ipAddrID lb = LoadBalancerRule.Publicipid lbRule
    ∧ trace run.2
      = trace w ++ (Api <$> requests)
        ++ replicate (addressChanges found) differentIPsWarning
    ∧ (∀ i r1 r2,
         found !! i = Some r1 → found !! Datatypes.S i = Some r2 →
         LoadBalancerRule.Publicip r1 ≠ "" →
         LoadBalancerRule.Publicip r1 ≠ LoadBalancerRule.Publicip r2 →
         differentIPsWarning ∈ trace run.2).
Proof.
  intros pid canonical legacy run Hfound Hlisted.
  pose proof (call_trace (ListLoadBalancerRules name pid) w) as Htr1.
  pose proof (call_trace (ListLoadBalancerRules legacyName pid) canonical.2) as Htr2.
  fold canonical in Htr1. fold legacy in Htr2.
  destruct canonical as [r1 w1] eqn:Hc. destruct legacy as [r2 w2] eqn:Hl.
  cbn [fst snd] in *.
  destruct (last found) as [lbRule|] eqn:Hlast;
    [|by apply last_None in Hlast].
  assert (∀ requests,
            (∀ i r1 r2,
               found !! i = Some r1 → found !! Datatypes.S i = Some r2 →
               LoadBalancerRule.Publicip r1 ≠ "" →
               LoadBalancerRule.Publicip r1 ≠ LoadBalancerRule.Publicip r2 →
               differentIPsWarning
               ∈ trace w ++ requests
                 ++ replicate (addressChanges found) differentIPsWarning)) as Hlogged.
  { intros requests i a b Ha Hb Hne Hdiff.
    pose proof (addressChanges_positive found i a b Ha Hb Hne Hdiff) as Hpos.
    rewrite !elem_of_app. right. right.
    destruct (addressChanges found); [lia|]. cbn. apply list_elem_of_here. }
  destruct Hlisted as [->|(-> & Hne & ->)].
  - exists (located (emptyLoadBalancer cs name) found), lbRule,
      [ListLoadBalancerRules name pid].
    unfold run.
    rewrite (getLoadBalancerByName_canonical_trace cs name legacyName w w1 found)
      by done.
    cbn [fst snd trace]. unfold located. rewrite Hlast.
    rewrite Htr1, <- app_assoc. split_and!; [done..|].
    exact (Hlogged [Api (ListLoadBalancerRules name pid)]).
  - exists (located (emptyLoadBalancer cs legacyName) found), lbRule,
      [ListLoadBalancerRules name pid; ListLoadBalancerRules legacyName pid].
    unfold run.
    rewrite (getLoadBalancerByName_legacy_trace cs name legacyName w w1 w2 found)
      by done.
    cbn [fst snd trace]. unfold located. rewrite Hlast.
    rewrite Htr2, Htr1, <- !app_assoc. split_and!; [done..|].
    exact (Hlogged [Api (ListLoadBalancerRules name pid);
                    Api (ListLoadBalancerRules legacyName pid)]).
Qed.
Lemma located_size (lb : loadBalancer.t) (found : list LoadBalancerRule.t) :
  found ≠ [] → size (loadBalancer.rules (located lb found)) ≠ 0%nat.
Proof.
  intros Hne. rewrite located_rules, map_size_empty_iff.
  by apply rulesByName_nonempty.
Qed.

(** C10.  [GetLoadBalancer] returns (no status, false, no error) exactly
    when the listing under the canonical name is empty and the listing
    under the legacy name is empty too (or no legacy name is there to
    list); when a listing holds a rule, it returns [true] and a status
    whose only ingress entry carries the address of the located load
    balancer and an empty hostname, whatever the annotations of the
    Service are. *)
Theorem GetLoadBalancer_status (cs : CSCloud.t) (clusterName : string)
    (service : Service.t) (w : World S) :
  let name := GetLoadBalancerName clusterName service in
  let legacyName := getLoadBalancerLegacyName clusterName service in
  let pid := CSCloud.projectID cs in
  let canonical := call (ListLoadBalancerRules name pid) w in
  let legacy := call (ListLoadBalancerRules legacyName pid) canonical.2 in
  let run := GetLoadBalancer cs clusterName service w in
  (run.1 = (None, false, None)
   ↔ canonical.1 = inr [] ∧ (legacyName = "" ∨ legacy.1 = inr []))
  ∧ (∀ found,
       found ≠ [] →
       canonical.1 = inr found
       ∨ (canonical.1 = inr [] ∧ legacyName ≠ "" ∧ legacy.1 = inr found) →
       ∃ lb,
         (getLoadBalancerByName cs name legacyName w).1 = inr lb
         ∧ run.1 = (Some (LoadBalancerStatus.mk
                            [LoadBalancerIngress.mk (loadBalancer.ipAddr lb) ""]),
                    true, None)).
Proof.
  intros name legacyName pid canonical legacy run.
  assert (∀ lb found w', found ≠ [] →
            getLoadBalancerByName cs name legacyName w = (inr (located lb found), w') →
            run.1 = (Some (LoadBalancerStatus.mk
                             [LoadBalancerIngress.mk
                                (loadBalancer.ipAddr (located lb found)) ""]),
                     true, None)) as Hsome.
  { intros lb found w' Hne Heq. unfold run, GetLoadBalancer, mbind, M_bind.
    fold name legacyName. rewrite Heq.
    by rewrite bool_decide_eq_false_2 by (by apply located_size). }
  destruct canonical as [r1 w1] eqn:Hc. destruct legacy as [r2 w2] eqn:Hl.
  cbn [fst snd] in *. split.
  - destruct r1 as [err|[|a rest]].
    + unfold run, GetLoadBalancer, mbind, M_bind. fold name legacyName.
      rewrite (getLoadBalancerByName_canonical_error cs name legacyName w w1 err) by done.
      cbn. split; [done|]. by intros [? _].
    + destruct (decide (legacyName = "")) as [Hempty|Hne].
      * unfold run, GetLoadBalancer, mbind, M_bind. fold name legacyName.
        rewrite Hempty.
        rewrite (getLoadBalancerByName_nothing cs name w w1) by done.
        cbn. split; [by intros; split; [|left]|done].
      * destruct r2 as [err|[|a rest]].
        -- unfold run, GetLoadBalancer, mbind, M_bind. fold name legacyName.
           rewrite (getLoadBalancerByName_legacy_error cs name legacyName w w1 w2 err)
             by done.
           cbn. split; [done|]. by intros [_ [?|?]].
        -- destruct (getLoadBalancerByName_legacy cs name legacyName w w1 w2 [])
             as (warnings & Heq & _); [done..|].
           unfold run, GetLoadBalancer, mbind, M_bind. fold name legacyName.
           rewrite Heq. cbn. split; [by intros; split; [|right]|done].
        -- destruct (getLoadBalancerByName_legacy cs name legacyName w w1 w2 (a :: rest))
             as (warnings & Heq & _); [done..|].
           assert (a :: rest ≠ []) as Hcons by done.
           rewrite (Hsome _ _ _ Hcons Heq).
           split; [done|]. by intros [_ [?|?]].
    + destruct (getLoadBalancerByName_canonical cs name legacyName w w1 (a :: rest))
        as (warnings & Heq & _); [done..|].
      assert (a :: rest ≠ []) as Hcons by done.
      rewrite (Hsome _ _ _ Hcons Heq).
      split; [done|]. by intros [? _].
  - intros found Hne [->|(-> & Hleg & ->)].
    + destruct (getLoadBalancerByName_canonical cs name legacyName w w1 found)
        as (warnings & Heq & _); [done..|].
      eexists. rewrite Heq. split; [done|]. by eapply Hsome.
    + destruct (getLoadBalancerByName_legacy cs name legacyName w w1 w2 found)
        as (warnings & Heq & _); [done..|].
      eexists. rewrite Heq. split; [done|]. by eapply Hsome.
Qed.
End Locator.

Lemma getLoadBalancerByName_legacy_fallback_witness :
  ∃ lb,
    (getLoadBalancerByName (CSCloud.mk "") "K8s_svc_kube_default_web" "aweb"
       (mkWorld (sampleSim legacyOnly [] refuseNone) [])).1 = inr lb
    ∧ loadBalancer.name lb = "aweb"
    ∧ loadBalancer.rules lb
      = rulesByName ∅ [sampleRule "aweb-tcp-80" "203.0.113.10" "ip-1"].
Proof.
  refine (proj2 (proj1 (getLoadBalancerByName_legacy_fallback (CSCloud.mk "")
                          "K8s_svc_kube_default_web" "aweb"
                          (mkWorld (sampleSim legacyOnly [] refuseNone) [])) _ _)
            [sampleRule "aweb-tcp-80" "203.0.113.10" "ip-1"] _ _).
  - reflexivity.
  - discriminate.
  - reflexivity.
  - discriminate.
Defined.

Lemma getLoadBalancerByName_address_witness :
  let found :=
    [sampleRule "K8s_svc_kube_default_web-tcp-80" "203.0.113.10" "ip-1";
     sampleRule "K8s_svc_kube_default_web-tcp-443" "198.51.100.7" "ip-2"] in
  let w := mkWorld (sampleSim twoAddresses [] refuseNone) [] in
  let run := getLoadBalancerByName (CSCloud.mk "") "K8s_svc_kube_default_web" "aweb" w in
  ∃ lb lbRule requests,
    run.1 = inr lb
    ∧ last found = Some lbRule
    ∧ loadBalancer.ipAddr lb = LoadBalancerRule.Publicip lbRule
    ∧ loadBalancer.ipAddrID lb = LoadBalancerRule.Publicipid lbRule
    ∧ trace run.2
      = trace w ++ (Api <$> requests)
        ++ replicate (addressChanges found) differentIPsWarning
    ∧ (∀ i r1 r2,
         found !! i = Some r1 → found !! Datatypes.S i = Some r2 →
         LoadBalancerRule.Publicip r1 ≠ "" →
         LoadBalancerRule.Publicip r1 ≠ LoadBalancerRule.Publicip r2 →
         differentIPsWarning ∈ trace run.2).
Proof.
  intros found w run.
  apply (getLoadBalancerByName_address (CSCloud.mk "") "K8s_svc_kube_default_web" "aweb"
           w found).
  - discriminate.
  - left. reflexivity.
Defined.

(** C7 (as stated) fails when the rules disagree: the address is that of
    the rule listed last, not of the first. *)
Lemma getLoadBalancerByName_last_rule_wins :
  let run :=
    getLoadBalancerByName (CSCloud.mk "") "K8s_svc_kube_default_web" "aweb"
      (mkWorld (sampleSim twoAddresses [] refuseNone) []) in
  match run.1 with
  | inr lb => Some (loadBalancer.ipAddr lb, loadBalancer.ipAddrID lb)
  | inl _ => None
  end = Some ("198.51.100.7", "ip-2")
  ∧ twoAddresses "K8s_svc_kube_default_web"
    = inr [sampleRule "K8s_svc_kube_default_web-tcp-80" "203.0.113.10" "ip-1";
           sampleRule "K8s_svc_kube_default_web-tcp-443" "198.51.100.7" "ip-2"]
  ∧ trace run.2
    = [Api (ListLoadBalancerRules "K8s_svc_kube_default_web" "");
       Klog LogWarning "Load balancer %v has rules associated with different IP's: %v, %v"].
Proof. by vm_compute. Qed.

Lemma GetLoadBalancer_status_witness :
  ∃ lb,
    (getLoadBalancerByName (CSCloud.mk "")
       (GetLoadBalancerName (helpers := sampleHelpers) "kube" sampleServiceWithHostname)
       (getLoadBalancerLegacyName (libraries := sampleLibraries) "kube"
          sampleServiceWithHostname)
       (mkWorld (sampleSim legacyOnly [] refuseNone) [])).1 = inr lb
    ∧ (GetLoadBalancer (helpers := sampleHelpers) (libraries := sampleLibraries)
         (CSCloud.mk "") "kube" sampleServiceWithHostname
         (mkWorld (sampleSim legacyOnly [] refuseNone) [])).1
      = (Some (LoadBalancerStatus.mk [LoadBalancerIngress.mk (loadBalancer.ipAddr lb) ""]),
         true, None).
Proof.
  refine (proj2 (GetLoadBalancer_status (helpers := sampleHelpers)
                   (libraries := sampleLibraries) (CSCloud.mk "") "kube"
                   sampleServiceWithHostname
                   (mkWorld (sampleSim legacyOnly [] refuseNone) []))
            [sampleRule "aweb-tcp-80" "203.0.113.10" "ip-1"] _ _).
  - discriminate.
  - right. split; [reflexivity|]. split; [discriminate|reflexivity].
Defined.

(** ** verifyHosts *)

Lemma matchHosts_spec (hostNames : gmap string bool) (vms : list VirtualMachine.t) :
  ∀ (hostIDs : list string) (networkID : string),
  let matched := filter (λ vm, isCandidate hostNames vm = true) vms in
  let networks := firstNetwork <$> matched in
  matchHosts hostNames hostIDs networkID vms
  = if crossNetwork networkID networks
    then inl (ErrorNew "found hosts that belong to different networks")
    else inr (hostIDs ++ (VirtualMachine.Id <$> matched), default networkID (last networks)).
Proof.
  induction vms as [|vm rest IH]; intros hostIDs networkID; cbn zeta.
  - cbn. by rewrite app_nil_r.
  - cbn [matchHosts]. rewrite filter_cons.
    destruct (isCandidate hostNames vm) eqn:Hc; unfold isCandidate in Hc.
    + apply andb_true_iff in Hc as [Hm Hn]. rewrite Hm.
      destruct (VirtualMachine.Nic vm) as [|nic0 nics] eqn:Hnic; [done|].
      assert (firstNetwork vm = Nic.Networkid nic0) as Hfirst
        by (unfold firstNetwork; by rewrite Hnic).
      rewrite decide_True by done. rewrite !fmap_cons. cbn [crossNetwork].
      rewrite Hfirst.
      destruct (negb (bool_decide (networkID = ""))
                && negb (bool_decide (networkID = Nic.Networkid nic0))); [done|].
      cbn [orb]. rewrite IH. cbn zeta.
      destruct (crossNetwork _ _); [done|].
      rewrite last_cons, <- app_assoc. cbn [app].
      by destruct (last _).
    + rewrite decide_False by done.
      apply andb_false_iff in Hc as [Hm|Hn].
      * rewrite Hm. apply IH.
      * destruct (VirtualMachine.Nic vm); [|done].
        destruct (default false _); apply IH.
Qed.

Lemma crossNetwork_disagree (networks : list string) : ∀ networkID,
  crossNetwork networkID networks = true
  ↔ (∃ b, networks !! 0%nat = Some b ∧ networkID ≠ "" ∧ networkID ≠ b)
    ∨ networksDisagree networks.
Proof.
  induction networks as [|n rest IH]; intros networkID; cbn [crossNetwork].
  - split; [done|]. intros [(b & Hb & _)|(i & a & b & Ha & _)]; done.
  - rewrite orb_true_iff, andb_true_iff, !negb_true_iff, !bool_decide_eq_false, IH.
    split.
    + intros [[? ?]|[(b & Hb & ? & ?)|(i & a & b & Ha & Hb & ? & ?)]].
      * left. by exists n.
      * right. by exists 0%nat, n, b.
      * right. by exists (S i), a, b.
    + intros [(b & [= <-] & ? & ?)|(i & a & b & Ha & Hb & ? & ?)]; [by left|].
      right. destruct i as [|i].
      * left. injection Ha as ->. by exists b.
      * right. by exists i, a, b.
Qed.

Lemma crossNetwork_shared (networks : list string) : ∀ networkID,
  crossNetwork networkID networks = false →
  let n := default networkID (last networks) in
  (networkID = "" ∨ networkID = n) ∧ Forall (λ m, m = "" ∨ m = n) networks.
Proof.
  induction networks as [|a rest IH]; intros networkID; cbn [crossNetwork].
  - intros _. cbn. split; [by right|done].
  - intros [Hhere Hrest]%orb_false_iff. rewrite last_cons.
    destruct (IH a Hrest) as [Ha Hall]. cbn zeta in *.
    replace (default networkID match last rest with Some y => Some y | None => Some a end)
      with (default a (last rest)) by (by destruct (last rest)).
    split; [|by constructor].
    apply andb_false_iff in Hhere as [Hempty|Heq].
    + left. apply negb_false_iff, bool_decide_eq_true in Hempty. done.
    + apply negb_false_iff, bool_decide_eq_true in Heq. subst a. done.
Qed.

Lemma networksDisagree_crossNetwork (networks : list string) :
  networksDisagree networks ↔ crossNetwork "" networks = true.
Proof.
  rewrite crossNetwork_disagree. split; [by right|].
  intros [(b & _ & ? & _)|?]; done.
Qed.

Section VerifyHosts.
Context {S : Type} {platform : Platform S}.

(** C6 (as amended).  [verifyHosts] passes over the listed machines that
    match no node or have no network interface; it fails with the
    cross-network error when a matched machine's first-interface network
    differs from the non-empty network of the matched machine before it;
    it fails when no machine is left or the network is empty; otherwise it
    returns the ids of the matched machines with the network of the last
    one, which every matched machine with a non-empty network shares. *)
Theorem verifyHosts_networks (cs : CSCloud.t) (nodes : list Node.t) (w : World S)
    (vms : list VirtualMachine.t) :
  let answer := call (ListVirtualMachines (CSCloud.projectID cs)) w in
  let run := verifyHosts cs nodes w in
  let matched := filter (λ vm, isCandidate (hostNameSet nodes) vm = true) vms in
  let networks := firstNetwork <$> matched in
  answer.1 = inr vms →
  (networksDisagree networks →
     run.1 = inl (ErrorNew "found hosts that belong to different networks"))
  ∧ (¬ networksDisagree networks →
     matched = [] ∨ last networks = Some "" →
     run.1 = inl (ErrorNew "none of the hosts matched the list of VMs retrieved from CS API"))
  ∧ (¬ networksDisagree networks →
     ∀ networkID, last networks = Some networkID → networkID ≠ "" →
       run.1 = inr (VirtualMachine.Id <$> matched, networkID)
       ∧ Forall (λ n, n = "" ∨ n = networkID) networks).
Proof.
  intros answer run matched networks Hanswer.
  assert (run.1 =
    if crossNetwork "" networks
    then inl (ErrorNew "found hosts that belong to different networks")
    else if bool_decide (length (VirtualMachine.Id <$> matched) = 0%nat)
            || bool_decide (String.length (default "" (last networks)) = 0%nat)
         then inl (ErrorNew "none of the hosts matched the list of VMs retrieved from CS API")
         else inr (VirtualMachine.Id <$> matched, default "" (last networks))) as Hrun.
  { unfold run, verifyHosts, mbind, M_bind. fold answer.
    destruct answer as [r w1]. cbn [fst] in Hanswer. subst r.
    rewrite matchHosts_spec. cbn zeta. fold matched. fold networks. cbn [app].
    destruct (crossNetwork "" networks); [done|].
    by destruct (_ || _). }
  assert (crossNetwork "" networks = true ↔ networksDisagree networks) as Hcross
    by (by rewrite networksDisagree_crossNetwork).
  assert (¬ networksDisagree networks → crossNetwork "" networks = false) as Hagrees.
  { intros Hno. apply not_true_is_false. by rewrite Hcross. }
  rewrite Hrun. split_and!.
  - intros Hdis%Hcross. by rewrite Hdis.
  - intros Hagree%Hagrees Hnone. rewrite Hagree.
    destruct Hnone as [Hnone|Hnone]; rewrite Hnone; [done|].
    cbn. by rewrite orb_true_r.
  - intros Hagree%Hagrees networkID Hlast Hne.
    rewrite Hagree, Hlast. cbn [default].
    pose proof (crossNetwork_shared networks "" Hagree) as [_ Hall].
    rewrite Hlast in Hall. cbn in Hall. split; [|done].
    rewrite bool_decide_eq_false_2.
    + rewrite bool_decide_eq_false_2; [done|]. by destruct networkID.
    + rewrite length_fmap. intros Hlen%length_zero_iff_nil.
      unfold networks in Hlast. by rewrite Hlen in Hlast.
Qed.
End VerifyHosts.

Lemma verifyHosts_networks_witness :
  (verifyHosts (CSCloud.mk "") sampleNodes (mkWorld (simWithVMs sampleVMs) [])).1
  = inr (VirtualMachine.Id
           <$> filter (λ vm, isCandidate (hostNameSet sampleNodes) vm = true) sampleVMs,
         "net-1")
  ∧ Forall (λ n, n = "" ∨ n = "net-1")
      (firstNetwork
         <$> filter (λ vm, isCandidate (hostNameSet sampleNodes) vm = true) sampleVMs).
Proof.
  refine (proj2 (proj2 (verifyHosts_networks (CSCloud.mk "") sampleNodes
                          (mkWorld (simWithVMs sampleVMs) []) sampleVMs _)) _ "net-1" _ _).
  - reflexivity.
  - rewrite networksDisagree_crossNetwork. vm_compute. discriminate.
  - vm_compute. reflexivity.
  - discriminate.
Defined.

(** C6 (as stated) fails when a matched machine reports an empty network:
    the machine after it is on another network and no error is raised. *)
Lemma verifyHosts_empty_network_passes :
  (verifyHosts (CSCloud.mk "") sampleNodes (mkWorld (simWithVMs mixedNetworkVMs) [])).1
  = inr (["vm-1"; "vm-2"], "net-1")
  ∧ firstNetwork <$> filter (λ vm, isCandidate (hostNameSet sampleNodes) vm = true)
                       mixedNetworkVMs
    = [""; "net-1"].
Proof. by vm_compute. Qed.

(** ** Traces *)

Section Traces.
Context {mapRange : MapRange} {helpers : Helpers} {libraries : Libraries}.
Context {S : Type} {platform : Platform S}.

Lemma emits_ret {A} (P : Event → Prop) (a : A) : emits (S := S) P (mret a).
Proof. intros w. exists []. by rewrite app_nil_r. Qed.

Lemma emits_bind {A B} (P : Event → Prop) (m : M S A) (f : A → M S B) :
  emits P m → (∀ a, emits P (f a)) → emits P (m ≫= f).
Proof.
  intros Hm Hf w. unfold mbind, M_bind.
  destruct (Hm w) as (new1 & Htr1 & Hall1). destruct (m w) as [a w1]. cbn [snd] in *.
  destruct (Hf a w1) as (new2 & Htr2 & Hall2).
  exists (new1 ++ new2). rewrite Htr2, Htr1, app_assoc. split; [done|].
  by apply Forall_app.
Qed.

Lemma emits_call (P : Event → Prop) (c : Call) : P (Api c) → emits P (call c).
Proof.
  intros HP w. exists [Api c]. unfold call.
  destruct (handle c (remote w)). split; [done|]. by constructor.
Qed.

Lemma emits_emit (P : Event → Prop) (e : Event) : P e → emits (S := S) P (emit e).
Proof. intros HP w. exists [e]. split; [done|]. by constructor. Qed.

Lemma emits_weaken {A} (P Q : Event → Prop) (m : M S A) :
  (∀ e, P e → Q e) → emits P m → emits Q m.
Proof.
  intros HPQ Hm w. destruct (Hm w) as (new & Htr & Hall).
  exists new. split; [done|]. eapply Forall_impl; eauto.
Qed.

Lemma returns_ret {A} (Q : A → Prop) (a : A) : Q a → returns (S := S) Q (mret a).
Proof. by intros HQ w. Qed.

Lemma returns_bind {A B} (Q' : A → Prop) (Q : B → Prop) (m : M S A) (f : A → M S B) :
  returns Q' m → (∀ a, Q' a → returns Q (f a)) → returns Q (m ≫= f).
Proof.
  intros Hm Hf w. unfold mbind, M_bind.
  specialize (Hm w). destruct (m w) as [a w1]. by apply Hf.
Qed.

Lemma returns_any {A} (m : M S A) : returns (λ _, True) m.
Proof. by intros w. Qed.

Lemma releases_app (t1 t2 : list Event) : releases (t1 ++ t2) = releases t1 ++ releases t2.
Proof. apply omap_app. Qed.

Lemma patches_app (t1 t2 : list Event) : patches (t1 ++ t2) = patches t1 ++ patches t2.
Proof. apply omap_app. Qed.

Lemma releases_internal (new : list Event) : Forall internal new → releases new = [].
Proof.
  induction 1 as [|e new [_ He] _ IH]; [done|].
  cbn. fold (releases new). rewrite IH.
  by destruct e as [[]| |].
Qed.

Lemma patches_internal (new : list Event) : Forall internal new → patches new = [].
Proof.
  induction 1 as [|e new [He _] _ IH]; [done|].
  cbn. fold (patches new). rewrite IH.
  by destruct e as [[]| |].
Qed.

Lemma emits_releases {A} (m : M S A) (w : World S) :
  emits internal m → releases (trace (m w).2) = releases (trace w).
Proof.
  intros Hm. destruct (Hm w) as (new & -> & Hall).
  by rewrite releases_app, (releases_internal new Hall), app_nil_r.
Qed.

Lemma emits_patches {A} (m : M S A) (w : World S) :
  emits internal m → patches (trace (m w).2) = patches (trace w).
Proof.
  intros Hm. destruct (Hm w) as (new & -> & Hall).
  by rewrite patches_app, (patches_internal new Hall), app_nil_r.
Qed.
End Traces.

Ltac emits_step :=
  lazymatch goal with
  | |- emits _ (mret _) => apply emits_ret
  | |- emits _ (mbind _ _) => apply emits_bind; [|intros ?]
  | |- emits ?P (call ?c) => apply (emits_call P c); by split
  | |- emits _ (emit _) => apply emits_emit; by split
  | |- emits _ (match ?x with _ => _ end) => destruct x
  | |- emits _ ((λ _, _) _) => cbv beta
  | |- emits _ (let _ := _ in _) => cbv zeta
  | |- emits _ _ => solve [eauto with emits]
  end.

Ltac emits_go := repeat emits_step.

Create HintDb emits discriminated.

Ltac same_address :=
  unfold sameAddress in *; cbn in *; intuition congruence.

Ltac returns_step :=
  lazymatch goal with
  | |- returns _ (mret _) => apply returns_ret; try same_address
  | |- returns _ (mbind _ _) =>
      eapply returns_bind;
      [first [solve [eauto with returns] | apply returns_any] | intros ? ?]
  | |- returns _ (match ?x with _ => _ end) => destruct x
  | |- returns _ ((λ _, _) _) => cbv beta
  | |- returns _ (let _ := _ in _) => cbv zeta
  end.

Ltac returns_go := repeat returns_step.

Create HintDb returns discriminated.

Section TraceFacts.
Context {mapRange : MapRange} {helpers : Helpers} {libraries : Libraries}.
Context {S : Type} {platform : Platform S}.

Lemma collectRules_emits (found : list LoadBalancerRule.t) :
  ∀ lb, emits (S := S) internal (collectRules lb found).
Proof. induction found; intros lb; cbn [collectRules]; emits_go. Qed.
Hint Resolve collectRules_emits : emits.

Lemma getLoadBalancerByName_emits cs name legacyName :
  emits (S := S) internal (getLoadBalancerByName cs name legacyName).
Proof. unfold getLoadBalancerByName. emits_go. Qed.
Hint Resolve getLoadBalancerByName_emits : emits.

Lemma verifyHosts_emits cs nodes : emits (S := S) internal (verifyHosts cs nodes).
Proof. unfold verifyHosts. emits_go. Qed.
Hint Resolve verifyHosts_emits : emits.

Lemma locateAndVerify_emits cs clusterName service nodes :
  emits (S := S) internal (locateAndVerify cs clusterName service nodes).
Proof. unfold locateAndVerify. emits_go. Qed.
Hint Resolve locateAndVerify_emits : emits.

Lemma getLoadBalancerIP_emits lb loadBalancerIP :
  emits (S := S) internal (getLoadBalancerIP lb loadBalancerIP).
Proof.
  unfold getLoadBalancerIP, getPublicIPAddress, associatePublicIPAddress. emits_go.
Qed.
Hint Resolve getLoadBalancerIP_emits : emits.

Lemma deleteLoadBalancerRule_emits lb lbRule :
  emits (S := S) internal (deleteLoadBalancerRule lb lbRule).
Proof. unfold deleteLoadBalancerRule. emits_go. Qed.
Hint Resolve deleteLoadBalancerRule_emits : emits.

Lemma checkLoadBalancerRule_emits lb lbRuleName port protocol :
  emits (S := S) internal (checkLoadBalancerRule lb lbRuleName port protocol).
Proof. unfold checkLoadBalancerRule. emits_go. Qed.
Hint Resolve checkLoadBalancerRule_emits : emits.

Lemma updateLoadBalancerRule_emits lb lbRuleName protocol :
  emits (S := S) internal (updateLoadBalancerRule lb lbRuleName protocol).
Proof. unfold updateLoadBalancerRule. emits_go. Qed.
Hint Resolve updateLoadBalancerRule_emits : emits.

Lemma createLoadBalancerRule_emits lb lbRuleName port protocol :
  emits (S := S) internal (createLoadBalancerRule lb lbRuleName port protocol).
Proof. unfold createLoadBalancerRule. emits_go. Qed.
Hint Resolve createLoadBalancerRule_emits : emits.

Lemma assignHostsToRule_emits lb lbRule hostIDs :
  emits (S := S) internal (assignHostsToRule lb lbRule hostIDs).
Proof. unfold assignHostsToRule. emits_go. Qed.
Hint Resolve assignHostsToRule_emits : emits.

Lemma deleteFiltered_emits (filtered : list (nat * FirewallRule.t)) :
  ∀ err, emits (S := S) internal (deleteFiltered filtered err).
Proof. induction filtered; intros err; cbn [deleteFiltered]; emits_go. Qed.
Hint Resolve deleteFiltered_emits : emits.

Lemma updateFirewallRule_emits lb publicIPID publicPort protocol allowedCIDRs :
  emits (S := S) internal
    (updateFirewallRule lb publicIPID publicPort protocol allowedCIDRs).
Proof. unfold updateFirewallRule. emits_go. Qed.
Hint Resolve updateFirewallRule_emits : emits.

Lemma deleteMatching_emits (filtered : list FirewallRule.t) :
  ∀ deleted err, emits (S := S) internal (deleteMatching filtered deleted err).
Proof. induction filtered; intros deleted err; cbn [deleteMatching]; emits_go. Qed.
Hint Resolve deleteMatching_emits : emits.

Lemma deleteFirewallRule_emits lb publicIPID publicPort protocol :
  emits (S := S) internal (deleteFirewallRule lb publicIPID publicPort protocol).
Proof. unfold deleteFirewallRule. emits_go. Qed.
Hint Resolve deleteFirewallRule_emits : emits.

Lemma updateOrCreateRule_emits lb lbRuleName port protocol lbRule needsUpdate :
  emits (S := S) internal
    (updateOrCreateRule lb lbRuleName port protocol lbRule needsUpdate).
Proof. unfold updateOrCreateRule. emits_go. Qed.
Hint Resolve updateOrCreateRule_emits : emits.

Lemma ensurePort_emits service lb port :
  emits (S := S) internal (ensurePort service lb port).
Proof. unfold ensurePort. emits_go. Qed.
Hint Resolve ensurePort_emits : emits.

Lemma ensurePorts_emits service (ports : list ServicePort.t) :
  ∀ lb, emits (S := S) internal (ensurePorts service lb ports).
Proof. induction ports; intros lb; cbn [ensurePorts]; emits_go. Qed.
Hint Resolve ensurePorts_emits : emits.

Lemma cleanupRules_emits (stale : list LoadBalancerRule.t) :
  ∀ lb, emits (S := S) internal (cleanupRules lb stale).
Proof. induction stale; intros lb; cbn [cleanupRules]; emits_go. Qed.
Hint Resolve cleanupRules_emits : emits.

Lemma ensureRules_emits service lb : emits (S := S) internal (ensureRules service lb).
Proof. unfold ensureRules. emits_go. Qed.
Hint Resolve ensureRules_emits : emits.

Lemma returns_weaken {A} (Q' Q : A → Prop) (m : M S A) :
  (∀ a, Q' a → Q a) → returns Q' m → returns Q m.
Proof. intros HQ Hm w. apply HQ, Hm. Qed.

Lemma deleteLoadBalancerRule_address lb lbRule :
  returns (S := S) (λ r, sameAddress lb r.1) (deleteLoadBalancerRule lb lbRule).
Proof. unfold deleteLoadBalancerRule. returns_go. Qed.
Hint Resolve deleteLoadBalancerRule_address : returns.

Lemma checkLoadBalancerRule_address lb lbRuleName port protocol :
  returns (S := S) (λ r, sameAddress lb r.1)
    (checkLoadBalancerRule lb lbRuleName port protocol).
Proof. unfold checkLoadBalancerRule. returns_go. Qed.
Hint Resolve checkLoadBalancerRule_address : returns.

Lemma updateOrCreateRule_address lb lbRuleName port protocol lbRule needsUpdate :
  returns (S := S) (λ r, sameAddress lb r.1)
    (updateOrCreateRule lb lbRuleName port protocol lbRule needsUpdate).
Proof. unfold updateOrCreateRule. returns_go. Qed.
Hint Resolve updateOrCreateRule_address : returns.

Lemma ensurePort_address service lb port :
  returns (S := S) (λ r, sameAddress lb r.1) (ensurePort service lb port).
Proof. unfold ensurePort. returns_go. Qed.
Hint Resolve ensurePort_address : returns.

Lemma ensurePorts_address service (ports : list ServicePort.t) :
  ∀ lb, returns (S := S) (λ r, sameAddress lb r.1) (ensurePorts service lb ports).
Proof.
  induction ports as [|port rest IH]; intros lb; cbn [ensurePorts]; returns_go.
  eapply returns_weaken; [|apply IH]. intros r Hr. same_address.
Qed.
Hint Resolve ensurePorts_address : returns.

Lemma cleanupRules_address (stale : list LoadBalancerRule.t) :
  ∀ lb, returns (S := S) (λ r, sameAddress lb r.1) (cleanupRules lb stale).
Proof.
  induction stale as [|lbRule rest IH]; intros lb; cbn [cleanupRules]; returns_go.
  eapply returns_weaken; [|apply IH]. intros r Hr. same_address.
Qed.
Hint Resolve cleanupRules_address : returns.



Lemma patches_none (new : list Event) :
  Forall (λ e, isPatch e = false) new → patches new = [].
Proof.
  induction 1 as [|e new He _ IH]; [done|].
  cbn. fold (patches new). rewrite IH. by destruct e as [[]| |].
Qed.

(** *** servicePatcher.Patch *)

Lemma patchService_cases (cur mod_ : Service.t) (w : World S) :
  patchService cur mod_ w = ((patchService cur mod_ w).1, w)
  ∨ ∃ curJSON modJSON patch,
      Marshal cur = inr curJSON ∧ Marshal mod_ = inr modJSON
      ∧ CreateTwoWayMergePatch curJSON modJSON = inr patch
      ∧ trace (patchService cur mod_ w).2
        = trace w ++ [Api (PatchService (Service.Namespace cur) (Service.Name cur) patch)].
Proof.
  unfold patchService.
  destruct (Marshal cur) as [?|curJSON]; [by left|].
  destruct (Marshal mod_) as [?|modJSON]; [by left|].
  destruct (CreateTwoWayMergePatch curJSON modJSON) as [?|patch] eqn:Hpatch; [by left|].
  destruct (_ || _); [by left|].
  right. exists curJSON, modJSON, patch. split_and!; [done..|].
  unfold mbind, M_bind, call.
  by destruct (handle _ _) as [[?|] ?].
Qed.

Lemma Patch_unchanged (sp : servicePatcher.t) (updated : Service.t)
    (err : option GoError) (w : World S) :
  Service.Annotations (servicePatcher.base sp) = Service.Annotations updated →
  Patch sp updated err w = (err, w).
Proof. intros Heq. unfold Patch, DeepEqual. by rewrite bool_decide_eq_true_2. Qed.

Lemma Patch_changed (sp : servicePatcher.t) (updated : Service.t)
    (err : option GoError) (w : World S) :
  Service.Annotations (servicePatcher.base sp) ≠ Service.Annotations updated →
  ∃ perr,
    (Patch sp updated err w).1 = NewAggregate [err; perr]
    ∧ ((Patch sp updated err w).2 = w
       ∨ ∃ curJSON modJSON patch,
           Marshal (servicePatcher.base sp) = inr curJSON
           ∧ Marshal updated = inr modJSON
           ∧ CreateTwoWayMergePatch curJSON modJSON = inr patch
           ∧ trace (Patch sp updated err w).2
             = trace w ++ [Api (PatchService (Service.Namespace (servicePatcher.base sp))
                                  (Service.Name (servicePatcher.base sp)) patch)]).
Proof.
  intros Hne. unfold Patch, DeepEqual. rewrite bool_decide_eq_false_2 by done.
  unfold mbind, M_bind.
  destruct (patchService_cases (servicePatcher.base sp) updated w) as [Heq|Hsent];
    destruct (patchService (servicePatcher.base sp) updated w) as [perr w1];
    exists perr; (split; [done|]).
  - left. by injection Heq.
  - by right.
Qed.


Lemma deferredRelease_no_patch (lb : loadBalancer.t) (err : option GoError) :
  emits (S := S) (λ e, isPatch e = false) (deferredRelease lb err).
Proof. unfold deferredRelease, releaseLoadBalancerIP. emits_go. Qed.

Lemma ensureLoadBalancer_no_patch cs clusterName service nodes :
  emits (S := S) (λ e, isPatch e = false)
    (ensureLoadBalancer cs clusterName service nodes).
Proof.
  assert (∀ e, internal e → isPatch e = false) as Hweak by (by intros e [? _]).
  pose proof (λ s l, emits_weaken internal _ _ Hweak (ensureRules_emits s l)) as Hrules.
  pose proof (λ l ip, emits_weaken internal _ _ Hweak (getLoadBalancerIP_emits l ip)) as Hip.
  pose proof (emits_weaken internal _ _ Hweak
                (locateAndVerify_emits cs clusterName service nodes)) as Hlocate.
  pose proof deferredRelease_no_patch as Hrelease.
  unfold ensureLoadBalancer, ensureWithAddress. emits_go.
Qed.

Lemma patchService_sends (cur mod_ : Service.t) (w : World S)
    (curJSON modJSON patch : string) :
  Marshal cur = inr curJSON → Marshal mod_ = inr modJSON →
  CreateTwoWayMergePatch curJSON modJSON = inr patch →
  patch ≠ "" → patch ≠ "{}" →
  trace (patchService cur mod_ w).2
  = trace w ++ [Api (PatchService (Service.Namespace cur) (Service.Name cur) patch)].
Proof.
  intros Hcur Hmod Hpatch Hempty Hbraces. unfold patchService.
  rewrite Hcur, Hmod, Hpatch.
  rewrite (bool_decide_eq_false_2 (String.length patch = 0%nat))
    by (by destruct patch).
  rewrite (bool_decide_eq_false_2 (patch = "{}")) by done. cbn [orb].
  unfold mbind, M_bind, call.
  by destruct (handle _ _) as [[?|] ?].
Qed.

Lemma patchService_silent (cur mod_ : Service.t) (w : World S) :
  (∀ curJSON modJSON patch,
     Marshal cur = inr curJSON → Marshal mod_ = inr modJSON →
     CreateTwoWayMergePatch curJSON modJSON = inr patch →
     patch = "" ∨ patch = "{}") →
  (patchService cur mod_ w).2 = w.
Proof.
  intros Hnothing. unfold patchService.
  destruct (Marshal cur) as [?|curJSON]; [done|].
  destruct (Marshal mod_) as [?|modJSON]; [done|].
  destruct (CreateTwoWayMergePatch curJSON modJSON) as [?|patch] eqn:Hpatch; [done|].
  destruct (Hnothing curJSON modJSON patch eq_refl eq_refl Hpatch) as [->| ->]; done.
Qed.

(** C9.  A call with no ports returns at once.  Otherwise the part of
    [EnsureLoadBalancer] that runs before the patcher sends no patch; when
    the annotations are what they were when the patcher copied the
    Service, the call ends as that part ended: no request, the same
    result; when they differ, the error is the aggregate of the error so
    far and the patcher's, and the patcher sends no request or one, the
    last of the trace.  It sends one - the only patch of the call, on the
    success and on the error path alike - whenever the copy and the
    Service as it is now serialise and their two-way merge patch is
    neither empty nor [{}], and the request carries that patch; in the
    cases that are left it sends none. *)
Theorem EnsureLoadBalancer_patches_once (cs : CSCloud.t) (clusterName : string)
    (service : Service.t) (nodes : list Node.t) (w : World S) :
  let run := EnsureLoadBalancer cs clusterName service nodes w in
  let body := ensureLoadBalancer cs clusterName service nodes w in
  let updated := body.1.1.1 in
  let status := body.1.1.2 in
  let err := body.1.2 in
  (ServiceSpec.Ports (Service.Spec service) = [] →
     run = ((service, None, Some (ErrorNew "requested load balancer with no ports")), w))
  ∧ (ServiceSpec.Ports (Service.Spec service) ≠ [] →
     patches (trace body.2) = patches (trace w)
     ∧ (Service.Annotations service = Service.Annotations updated → run = body)
     ∧ (Service.Annotations service ≠ Service.Annotations updated →
        (∃ perr,
           run.1 = (updated, status, NewAggregate [err; perr])
           ∧ (run.2 = body.2
              ∨ ∃ curJSON modJSON patch,
                  Marshal service = inr curJSON
                  ∧ Marshal updated = inr modJSON
                  ∧ CreateTwoWayMergePatch curJSON modJSON = inr patch
                  ∧ trace run.2
                    = trace body.2
                      ++ [Api (PatchService (Service.Namespace service)
                                 (Service.Name service) patch)]))
        ∧ (∀ curJSON modJSON patch,
             Marshal service = inr curJSON →
             Marshal updated = inr modJSON →
             CreateTwoWayMergePatch curJSON modJSON = inr patch →
             patch ≠ "" → patch ≠ "{}" →
             trace run.2
             = trace body.2
               ++ [Api (PatchService (Service.Namespace service)
                          (Service.Name service) patch)]
             ∧ patches (trace run.2)
               = patches (trace w)
                 ++ [(Service.Namespace service, Service.Name service, patch)])
        ∧ ((∀ curJSON modJSON patch,
              Marshal service = inr curJSON →
              Marshal updated = inr modJSON →
              CreateTwoWayMergePatch curJSON modJSON = inr patch →
              patch = "" ∨ patch = "{}") →
           run.2 = body.2))).
Proof.
  intros run body updated status err. split.
  - intros Hports. unfold run, EnsureLoadBalancer. by rewrite Hports.
  - intros Hports.
    assert (run = let '(service', status', err') := body.1 in
                  let r := Patch (newServicePatcher service) service' err' body.2 in
                  ((service', status', r.1), r.2)) as Hrun.
    { unfold run, EnsureLoadBalancer.
      rewrite bool_decide_eq_false_2
        by (by destruct (ServiceSpec.Ports (Service.Spec service))).
      unfold mbind at 1, M_bind at 1. fold body.
      destruct body as [[[service' status'] err'] w1]. cbn [fst snd].
      unfold mbind, M_bind. by destruct (Patch _ _ _ _). }
    assert (patches (trace body.2) = patches (trace w)) as Hbody.
    { destruct (ensureLoadBalancer_no_patch cs clusterName service nodes w)
        as (new & Htr & Hall).
      fold body in Htr. by rewrite Htr, patches_app, (patches_none new Hall), app_nil_r. }
    split_and!.
    + exact Hbody.
    + intros Heq. rewrite Hrun. unfold updated in Heq.
      destruct body as [[[service' status'] err'] w1]. cbn [fst snd] in *.
      by rewrite Patch_unchanged.
    + intros Hne. rewrite Hrun. unfold updated, status, err in *.
      destruct body as [[[service' status'] err'] w1]. cbn [fst snd] in *.
      split.
      { destruct (Patch_changed (newServicePatcher service) service' err' w1 Hne)
          as (perr & Herr & Hsent).
        exists perr. cbn [fst snd]. rewrite Herr. split; [done|].
        destruct Hsent as [?|Hsent]; [by left|by right]. }
      split.
      { intros curJSON modJSON patch Hcur Hmod Hpatch Hempty Hbraces.
        assert (trace (Patch (newServicePatcher service) service' err' w1).2
                = trace w1 ++ [Api (PatchService (Service.Namespace service)
                                      (Service.Name service) patch)]) as Htrace.
        { unfold Patch, DeepEqual. rewrite bool_decide_eq_false_2 by done.
          unfold mbind, M_bind.
          pose proof (patchService_sends service service' w1 curJSON modJSON patch
                        Hcur Hmod Hpatch Hempty Hbraces) as Hsends.
          cbn [servicePatcher.base newServicePatcher].
          by destruct (patchService service service' w1). }
        rewrite Htrace. split; [done|].
        rewrite patches_app, Hbody. done. }
      intros Hnothing. unfold Patch, DeepEqual.
      rewrite bool_decide_eq_false_2 by done. unfold mbind, M_bind.
      pose proof (patchService_silent service service' w1 Hnothing) as Hsilent.
      cbn [servicePatcher.base newServicePatcher].
      by destruct (patchService service service' w1).
Qed.

(** *** The deferred release *)

Lemma emits_run {A} (P : Event → Prop) (m : M S A) (w w' : World S) (a : A) :
  emits P m → m w = (a, w') → ∃ new, trace w' = trace w ++ new ∧ Forall P new.
Proof. intros Hm Heq. specialize (Hm w). by rewrite Heq in Hm. Qed.




Lemma Patch_error (sp : servicePatcher.t) (updated : Service.t) (e : GoError)
    (w : World S) :
  (Patch sp updated (Some e) w).1 = Some e
  ∨ (Patch sp updated (Some e) w).1
    = NewAggregate [Some e; (patchService (servicePatcher.base sp) updated w).1].
Proof.
  unfold Patch. destruct (DeepEqual _ _); [by left|right].
  unfold mbind, M_bind. by destruct (patchService _ _ _).
Qed.

(** With an address asked for, the resolved address is the one the
    platform lists for it; when that is the address asked for, no release
    is deferred. *)
Lemma getLoadBalancerIP_requested (service : Service.t) (lb lb1 : loadBalancer.t)
    (w0 w1 : World S) :
  let requested := ServiceSpec.LoadBalancerIP (Service.Spec service) in
  requested ≠ "" →
  getLoadBalancerIP lb requested w0 = (inr lb1, w1) →
  ∃ a,
    (handle (ListPublicIpAddresses requested (loadBalancer.projectID lb)) (remote w0)).1
    = inr [a]
    ∧ loadBalancer.ipAddr lb1 = PublicIpAddress.Ipaddress a
    ∧ (PublicIpAddress.Ipaddress a = requested → releaseDeferred service lb1 = false).
Proof.
  intros requested Hne. unfold getLoadBalancerIP, getPublicIPAddress, mbind, M_bind, call.
  rewrite bool_decide_eq_false_2 by done. cbn [negb].
  destruct (handle _ _) as [[err|[|a [|b rest]]] s1]; try done.
  unfold mret, M_ret. intros [= <- _]. exists a. split_and!; [done..|].
  cbn [loadBalancer.set_ip loadBalancer.ipAddr]. intros Heq.
  unfold releaseDeferred. cbn [loadBalancer.ipAddr]. fold requested.
  rewrite (bool_decide_eq_true_2 _ Heq). cbn. apply andb_false_r.
Qed.

Lemma ensureWithAddress_existing (service : Service.t) (lb : loadBalancer.t)
    (w0 : World S) :
  hasLoadBalancerIP lb = true →
  ensureWithAddress service lb w0
  = let '((_, service2, status2, err2), w2) := ensureRules service lb w0 in
    ((service2, status2, err2), w2).
Proof.
  intros Hhas. unfold ensureWithAddress, mbind, M_bind. rewrite Hhas. cbn [negb].
  by destruct (ensureRules service lb w0) as [[[[? ?] ?] ?] ?].
Qed.

Lemma ensureWithAddress_unresolved (service : Service.t) (lb : loadBalancer.t)
    (w0 w1 : World S) (err : GoError) :
  hasLoadBalancerIP lb = false →
  getLoadBalancerIP lb (ServiceSpec.LoadBalancerIP (Service.Spec service)) w0
  = (inl err, w1) →
  ensureWithAddress service lb w0 = ((service, None, Some err), w1).
Proof.
  intros Hhas Hip. unfold ensureWithAddress, mbind, M_bind. rewrite Hhas. cbn [negb].
  by rewrite Hip.
Qed.

Lemma ensureWithAddress_resolved (service : Service.t) (lb lb1 : loadBalancer.t)
    (w0 w1 : World S) :
  hasLoadBalancerIP lb = false →
  getLoadBalancerIP lb (ServiceSpec.LoadBalancerIP (Service.Spec service)) w0
  = (inr lb1, w1) →
  ensureWithAddress service lb w0
  = let '((lb2, service2, status2, err2), w2) :=
      ensureRules service lb1
        (emit (RecordEvent EventTypeNormal "CreatedLoadBalancer") w1).2 in
    ((service2, status2, err2),
     ((if releaseDeferred service lb1 then deferredRelease lb2 err2 else mret tt) w2).2).
Proof.
  intros Hhas Hip. unfold ensureWithAddress, mbind, M_bind. rewrite Hhas. cbn [negb].
  rewrite Hip. cbn [emit snd].
  destruct (ensureRules service lb1 _) as [[[[lb2 service2] status2] err2] w2].
  by destruct (releaseDeferred service lb1); [destruct (deferredRelease lb2 err2 w2)|].
Qed.


End TraceFacts.

Lemma EnsureLoadBalancer_patches_once_witness :
  let w := mkWorld (sampleSim noRules [] refuseNone) [] in
  let run :=
    EnsureLoadBalancer (mapRange := insertionOrder) (helpers := sampleHelpers)
      (libraries := sampleLibraries) (CSCloud.mk "") "kube" sampleService sampleNodes w in
  let body :=
    ensureLoadBalancer (mapRange := insertionOrder) (helpers := sampleHelpers)
      (libraries := sampleLibraries) (CSCloud.mk "") "kube" sampleService sampleNodes w in
  trace run.2 = trace body.2 ++ [Api (PatchService "default" "web" "203.0.113.10")]
  ∧ patches (trace run.2) = patches (trace w) ++ [("default", "web", "203.0.113.10")].
Proof.
  intros w run body.
  assert (ServiceSpec.Ports (Service.Spec sampleService) ≠ []) as Hports by discriminate.
  assert (Service.Annotations sampleService ≠ Service.Annotations body.1.1.1) as Hchanged
    by (vm_compute; discriminate).
  apply (proj1 (proj2 (proj2 (proj2 (proj2 (EnsureLoadBalancer_patches_once
                                       (mapRange := insertionOrder)
                                       (helpers := sampleHelpers)
                                       (libraries := sampleLibraries)
                                       (CSCloud.mk "") "kube" sampleService sampleNodes w)
                                Hports)) Hchanged))
           "" "203.0.113.10" "203.0.113.10").
  - reflexivity.
  - vm_compute. reflexivity.
  - reflexivity.
  - discriminate.
  - discriminate.
Defined.



(** ** Multisets of strings *)

(** X1.  [compareStringSlice] answers [true] exactly when every string
    occurs as often in one slice as in the other. *)
Theorem compareStringSlice_same_counts (x y : list string) :
  compareStringSlice x y = true ↔ ∀ k, occurrences x k = occurrences y k.
Proof.
  rewrite compareStringSlice_Permutation. unfold occurrences. split.
  - intros Hperm k. f_equal. by apply (Permutation_count_occ String.string_dec).
  - intros Hocc. apply (Permutation_count_occ String.string_dec).
    intros k. specialize (Hocc k). lia.
Qed.

(** ** Hosts to assign and to remove *)

Section SymmetricDifferenceLists.
Context {mapRange : MapRange}.

Lemma removeLoop_keeps (lbInstances : list VirtualMachine.t) :
  ∀ (newIDs : gmap string bool) (remove : list string),
  ∃ more, (removeLoop newIDs remove lbInstances).2 = remove ++ more
          ∧ more `sublist_of` VirtualMachine.Id <$> lbInstances.
Proof.
  induction lbInstances as [|i rest IH]; intros newIDs remove; cbn [removeLoop].
  - exists []. by rewrite app_nil_r.
  - rewrite fmap_cons. destruct (default false (newIDs !! VirtualMachine.Id i)).
    + destruct (IH (delete (VirtualMachine.Id i) newIDs) remove) as (more & -> & Hsub).
      exists more. split; [done|]. by apply sublist_cons.
    + destruct (IH newIDs (remove ++ [VirtualMachine.Id i])) as (more & -> & Hsub).
      exists (VirtualMachine.Id i :: more). rewrite <- app_assoc. split; [done|].
      by apply sublist_skip.
Qed.

Lemma removeLoop_undesired (lbInstances : list VirtualMachine.t) :
  ∀ (newIDs : gmap string bool) (remove : list string) (k : string),
  k ∈ VirtualMachine.Id <$> lbInstances →
  default false (newIDs !! k) = false →
  k ∈ (removeLoop newIDs remove lbInstances).2.
Proof.
  induction lbInstances as [|i rest IH]; intros newIDs remove k; cbn [removeLoop].
  - by intros ?%elem_of_nil.
  - rewrite fmap_cons, elem_of_cons. intros Hk Hd.
    destruct (default false (newIDs !! VirtualMachine.Id i)) eqn:Hi.
    + destruct Hk as [->|Hk]; [congruence|].
      apply IH; [done|].
      destruct (decide (VirtualMachine.Id i = k)) as [<-|Hne]; [congruence|].
      by rewrite lookup_delete_ne.
    + destruct Hk as [->|Hk]; [|by apply IH].
      destruct (removeLoop_keeps rest newIDs (remove ++ [VirtualMachine.Id i]))
        as (more & -> & _).
      rewrite !elem_of_app, list_elem_of_singleton. by left; right.
Qed.

(** X2.  For every list of desired hosts and every list of instances,
    duplicates included: no host occurs twice in [assign]; [assign] holds
    exactly the desired hosts that are not instances of the rule;
    [remove] lists instances of the rule in the order of the listing, and
    every instance that is not desired is among them. *)
Theorem symmetricDifference_any_lists (hostIDs : list string)
    (lbInstances : list VirtualMachine.t) :
  let current := VirtualMachine.Id <$> lbInstances in
  let assign := (symmetricDifference hostIDs lbInstances).1 in
  let remove := (symmetricDifference hostIDs lbInstances).2 in
  NoDup assign
  ∧ (∀ x, x ∈ assign ↔ x ∈ hostIDs ∧ x ∉ current)
  ∧ remove `sublist_of` current
  ∧ (∀ x, x ∈ current → x ∉ hostIDs → x ∈ remove).
Proof.
  intros current assign remove.
  set (newIDs := foldl (λ m hostID, <[hostID := true]> m) (∅ : gmap string bool) hostIDs).
  assert (∀ k, default false (newIDs !! k) = bool_decide (k ∈ hostIDs)) as Hnew.
  { intros k. unfold newIDs. rewrite newIDs_lookup, lookup_empty.
    case_decide; [by rewrite bool_decide_eq_true_2|by rewrite bool_decide_eq_false_2]. }
  unfold assign, remove, symmetricDifference. fold newIDs.
  pose proof (removeLoop_keeps lbInstances newIDs []) as (more & Hmore & Hsub).
  pose proof (removeLoop_undesired lbInstances newIDs []) as Hundesired.
  pose proof (removeLoop_newIDs lbInstances newIDs []) as Hleft.
  destruct (removeLoop newIDs [] lbInstances) as [newIDs' remove']. cbn [fst snd] in *.
  subst remove'. fold current in Hsub, Hundesired, Hleft. split_and!.
  - rewrite rangeOrder_perm. apply NoDup_fst_map_to_list.
  - intros x. rewrite rangeOrder_perm, list_elem_of_fmap.
    specialize (Hleft x). rewrite Hnew in Hleft.
    unfold newIDs in Hleft at 1 2. rewrite newIDs_lookup, lookup_empty in Hleft.
    split.
    + intros [[k v] [Hk Hin%elem_of_map_to_list]]. cbn [fst] in Hk. subst k.
      rewrite Hin in Hleft.
      destruct (decide (x ∈ current)); destruct (decide (x ∈ hostIDs));
        rewrite ?bool_decide_eq_true_2 in Hleft by done;
        rewrite ?bool_decide_eq_false_2 in Hleft by done; naive_solver.
    + intros [Hin Hnin]. rewrite decide_False in Hleft by done.
      rewrite decide_True in Hleft by done.
      exists (x, true). split; [done|]. by apply elem_of_map_to_list.
  - done.
  - intros x Hx Hnot. apply Hundesired; [done|].
    rewrite Hnew. by apply bool_decide_eq_false.
Qed.
End SymmetricDifferenceLists.

(** ** Annotations of the Service *)

Lemma annotation_set_eq (service : Service.t) (key value : string) :
  annotation (setServiceAnnotation service key value) key = Some value.
Proof.
  unfold annotation, setServiceAnnotation. cbn [Service.Annotations].
  apply lookup_insert_eq.
Qed.

Lemma annotation_set_ne (service : Service.t) (key value other : string) :
  other ≠ key →
  annotation (setServiceAnnotation service key value) other = annotation service other.
Proof.
  intros Hne. unfold annotation, setServiceAnnotation.
  cbn [Service.Annotations]. rewrite lookup_insert_ne by done.
  destruct (Service.Annotations service); [done|]. cbn. apply lookup_empty.
Qed.

(** X3.  An annotation that has been set is read back, with or without an
    annotation map to start from; the other annotations read as before;
    nothing else of the Service changes; and setting it again changes
    nothing. *)
Theorem setServiceAnnotation_lookup (service : Service.t) (key value : string) :
  let updated := setServiceAnnotation service key value in
  (∀ defaultSetting, getStringFromServiceAnnotation updated key defaultSetting = value)
  ∧ (∀ other defaultSetting, other ≠ key →
       getStringFromServiceAnnotation updated other defaultSetting
       = getStringFromServiceAnnotation service other defaultSetting)
  ∧ (∀ other defaultSetting, other ≠ key →
       getBoolFromServiceAnnotation updated other defaultSetting
       = getBoolFromServiceAnnotation service other defaultSetting)
  ∧ Service.Namespace updated = Service.Namespace service
  ∧ Service.Name updated = Service.Name service
  ∧ Service.Spec updated = Service.Spec service
  ∧ setServiceAnnotation updated key value = updated.
Proof.
  intros updated. split_and!; try done.
  - intros defaultSetting. unfold updated, getStringFromServiceAnnotation.
    by rewrite annotation_set_eq.
  - intros other defaultSetting Hne. unfold updated, getStringFromServiceAnnotation.
    by rewrite annotation_set_ne.
  - intros other defaultSetting Hne. unfold updated, getBoolFromServiceAnnotation.
    by rewrite annotation_set_ne.
  - unfold updated, setServiceAnnotation. cbn. by rewrite insert_insert_eq.
Qed.

(** ** The hosts verifyHosts matches *)

Lemma hostNames_lookup (nodes : list Node.t) :
  ∀ (hostNames : gmap string bool) (h : string),
  default false (foldl (λ hostNames node,
                          <[hd "" (Split (ToLower (Node.Name node)) "."%char) := true]>
                            hostNames) hostNames nodes !! h) = true
  ↔ default false (hostNames !! h) = true
    ∨ ∃ node, node ∈ nodes ∧ hd "" (Split (ToLower (Node.Name node)) "."%char) = h.
Proof.
  induction nodes as [|node rest IH]; intros hostNames h; cbn [foldl].
  - split; [by left|]. intros [?|(node & []%elem_of_nil & _)]. done.
  - rewrite IH, lookup_insert. split.
    + intros [Hh|(n & Hn & Hl)].
      * case_decide as Heq; [|by left]. right. exists node. split; [apply list_elem_of_here|done].
      * right. exists n. split; [by apply list_elem_of_further|done].
    + intros [Hh|(n & [->|Hn]%elem_of_cons & Hl)].
      * left. by case_decide.
      * left. by rewrite decide_True.
      * right. by exists n.
Qed.

Lemma hostNameSet_lookup (nodes : list Node.t) (h : string) :
  default false (hostNameSet nodes !! h) = true
  ↔ ∃ node, node ∈ nodes ∧ hd "" (Split (ToLower (Node.Name node)) "."%char) = h.
Proof.
  unfold hostNameSet. rewrite hostNames_lookup, lookup_empty. cbn. naive_solver.
Qed.

Section MatchedHosts.
Context {S : Type} {platform : Platform S}.

(** X4.  When [verifyHosts] succeeds, the ids it returns are those of the
    listed machines that have a network interface and whose name, in lower
    case, is the first label of the lower-cased name of one of the nodes. *)
Theorem verifyHosts_first_label (cs : CSCloud.t) (nodes : list Node.t) (w : World S)
    (vms : list VirtualMachine.t) (hostIDs : list string) (networkID : string) :
  (call (ListVirtualMachines (CSCloud.projectID cs)) w).1 = inr vms →
  (verifyHosts cs nodes w).1 = inr (hostIDs, networkID) →
  ∀ id, id ∈ hostIDs
        ↔ ∃ vm node,
            vm ∈ vms ∧ node ∈ nodes ∧ VirtualMachine.Id vm = id
            ∧ VirtualMachine.Nic vm ≠ []
            ∧ ToLower (VirtualMachine.Name vm)
              = hd "" (Split (ToLower (Node.Name node)) "."%char).
Proof.
  intros Hanswer Hrun id.
  unfold verifyHosts, mbind, M_bind in Hrun.
  destruct (call (ListVirtualMachines (CSCloud.projectID cs)) w) as [r w1].
  cbn [fst] in Hanswer. subst r.
  rewrite matchHosts_spec in Hrun. cbn zeta in Hrun.
  destruct (crossNetwork "" _); [done|].
  destruct (_ || _); [done|]. cbn in Hrun. injection Hrun as <- _.
  rewrite list_elem_of_fmap. split.
  - intros (vm & -> & [Hc Hvm]%list_elem_of_filter).
    unfold isCandidate in Hc. apply andb_true_iff in Hc as [Hname Hnic].
    apply hostNameSet_lookup in Hname as (node & Hnode & Hlabel).
    exists vm, node. split_and!; [done..| |done].
    by destruct (VirtualMachine.Nic vm).
  - intros (vm & node & Hvm & Hnode & <- & Hnic & Hlabel).
    exists vm. split; [done|]. apply list_elem_of_filter. split; [|done].
    unfold isCandidate. apply andb_true_iff. split.
    + apply hostNameSet_lookup. by exists node.
    + by destruct (VirtualMachine.Nic vm).
Qed.

(** X5.  With no node to look for, [verifyHosts] fails: with the error of
    the listing when the listing fails, and with the error that no host
    matched otherwise, whatever the platform lists. *)
Theorem verifyHosts_no_nodes (cs : CSCloud.t) (w : World S) :
  (verifyHosts cs [] w).1
  = match (call (ListVirtualMachines (CSCloud.projectID cs)) w).1 with
    | inl err => inl (Errorf "error retrieving list of hosts: %w" (Some err))
    | inr _ =>
        inl (ErrorNew "none of the hosts matched the list of VMs retrieved from CS API")
    end.
Proof.
  unfold verifyHosts, mbind, M_bind.
  destruct (call (ListVirtualMachines (CSCloud.projectID cs)) w) as [[err|vms] w1];
    [done|].
  rewrite matchHosts_spec. cbn zeta.
  rewrite filter_none; [done|].
  intros vm _. unfold isCandidate, hostNameSet. cbn. by rewrite lookup_empty.
Qed.
End MatchedHosts.

(** ** What the lookup of a load balancer returns *)

Lemma rulesByName_keyed (found : list LoadBalancerRule.t) :
  ∀ start, keyedByName start → keyedByName (rulesByName start found).
Proof.
  induction found as [|a rest IH]; intros start Hstart; [done|].
  apply (IH (<[LoadBalancerRule.Name a := a]> start)).
  intros key lbRule. rewrite lookup_insert. case_decide; [|apply Hstart].
  by intros [= <-].
Qed.

Lemma rulesByName_last (found : list LoadBalancerRule.t) (lbRule : LoadBalancerRule.t) :
  ∀ start, last found = Some lbRule →
  rulesByName start found !! LoadBalancerRule.Name lbRule = Some lbRule.
Proof.
  induction found as [|a rest IH]; intros start Hlast; [done|].
  destruct rest as [|b rest].
  - injection Hlast as ->. cbn. apply lookup_insert_eq.
  - apply (IH (<[LoadBalancerRule.Name a := a]> start)). exact Hlast.
Qed.

Section Located.
Context {helpers : Helpers} {libraries : Libraries}.
Context {S : Type} {platform : Platform S}.

Lemma getLoadBalancerByName_located (cs : CSCloud.t) (name legacyName : string)
    (w : World S) (lb : loadBalancer.t) :
  (getLoadBalancerByName cs name legacyName w).1 = inr lb →
  ∃ n found, (n = name ∨ n = legacyName) ∧ lb = located (emptyLoadBalancer cs n) found.
Proof.
  destruct (call (ListLoadBalancerRules name (CSCloud.projectID cs)) w)
    as [[err|found] w1] eqn:Hcanonical.
  { by rewrite (getLoadBalancerByName_canonical_error _ _ _ _ _ _ Hcanonical). }
  destruct found as [|a rest].
  - destruct (decide (legacyName = "")) as [->|Hlegacy].
    { rewrite (getLoadBalancerByName_nothing _ _ _ _ Hcanonical). intros [= <-].
      exists name, []. split; [by left|done]. }
    destruct (call (ListLoadBalancerRules legacyName (CSCloud.projectID cs)) w1)
      as [[err|found] w2] eqn:Hlisted.
    { by rewrite (getLoadBalancerByName_legacy_error _ _ _ _ _ _ _ Hcanonical Hlegacy Hlisted). }
    destruct (getLoadBalancerByName_legacy _ _ _ _ _ _ _ Hcanonical Hlegacy Hlisted)
      as (warnings & -> & _).
    intros [= <-]. eexists _, found. split; [|done]. destruct found; [by left|by right].
  - destruct (getLoadBalancerByName_canonical cs name legacyName w w1 (a :: rest) Hcanonical)
      as (warnings & -> & _); [done|].
    intros [= <-]. eexists name, _. split; [by left|done].
Qed.

(** X6.  The load balancer [getLoadBalancerByName] returns: every key of
    its rule map is the name of the rule kept under it; without rules it
    has no address, and with rules its address is that of one of the
    rules in the map; its name is one of the two names asked for, and its
    project is that of the provider. *)
Theorem getLoadBalancerByName_keys (cs : CSCloud.t) (name legacyName : string)
    (w : World S) (lb : loadBalancer.t) :
  (getLoadBalancerByName cs name legacyName w).1 = inr lb →
  keyedByName (loadBalancer.rules lb)
  ∧ (loadBalancer.rules lb = ∅ →
     loadBalancer.ipAddr lb = "" ∧ loadBalancer.ipAddrID lb = "")
  ∧ (loadBalancer.rules lb ≠ ∅ →
     ∃ lbRule,
       loadBalancer.rules lb !! LoadBalancerRule.Name lbRule = Some lbRule
       ∧ loadBalancer.ipAddr lb = LoadBalancerRule.Publicip lbRule
       ∧ loadBalancer.ipAddrID lb = LoadBalancerRule.Publicipid lbRule)
  ∧ (loadBalancer.name lb = name ∨ loadBalancer.name lb = legacyName)
  ∧ loadBalancer.projectID lb = CSCloud.projectID cs.
Proof.
  intros (n & found & Hn & ->)%getLoadBalancerByName_located.
  rewrite located_rules, located_name. split_and!.
  - apply rulesByName_keyed. intros key lbRule. cbn. by rewrite lookup_empty.
  - intros Hempty. destruct found as [|a rest]; [done|].
    by apply (rulesByName_nonempty (a :: rest) ∅) in Hempty.
  - intros Hrules. unfold located. destruct (last found) as [lbRule|] eqn:Hlast.
    + exists lbRule. split_and!; [|done..]. by apply rulesByName_last.
    + apply last_None in Hlast. by subst found.
  - done.
  - unfold located. by destruct (last found).
Qed.

(** X7.  [GetLoadBalancer] only looks: it sends the listing of the rules
    under the name of the load balancer, or that and the listing under the
    legacy name, and what it adds to the log are warnings. *)
Theorem GetLoadBalancer_read_only (cs : CSCloud.t) (clusterName : string)
    (service : Service.t) (w : World S) :
  let name := GetLoadBalancerName clusterName service in
  let legacyName := getLoadBalancerLegacyName clusterName service in
  let pid := CSCloud.projectID cs in
  ∃ sent warnings,
    trace (GetLoadBalancer cs clusterName service w).2
    = trace w ++ (Api <$> sent) ++ warnings
    ∧ (sent = [ListLoadBalancerRules name pid]
       ∨ sent = [ListLoadBalancerRules name pid; ListLoadBalancerRules legacyName pid])
    ∧ Forall (λ e, isWarning e = true) warnings.
Proof.
  intros name legacyName pid.
  assert ((GetLoadBalancer cs clusterName service w).2
          = (getLoadBalancerByName cs name legacyName w).2) as ->.
  { unfold GetLoadBalancer, mbind, M_bind. fold name legacyName.
    destruct (getLoadBalancerByName cs name legacyName w) as [[err|lb] w']; [done|].
    by destruct (bool_decide _). }
  pose proof (call_trace (ListLoadBalancerRules name pid) w) as Htr1.
  destruct (call (ListLoadBalancerRules name pid) w) as [[err|found] w1] eqn:Hcanonical;
    cbn [snd] in Htr1.
  { rewrite (getLoadBalancerByName_canonical_error _ _ _ _ _ _ Hcanonical).
    exists [ListLoadBalancerRules name pid], []. rewrite app_nil_r. by split_and!; [|left|]. }
  destruct found as [|a rest].
  - destruct (decide (legacyName = "")) as [Hlegacy|Hlegacy].
    { rewrite Hlegacy, (getLoadBalancerByName_nothing _ _ _ _ Hcanonical).
      exists [ListLoadBalancerRules name pid], []. rewrite app_nil_r.
      by split_and!; [|left|]. }
    pose proof (call_trace (ListLoadBalancerRules legacyName pid) w1) as Htr2.
    destruct (call (ListLoadBalancerRules legacyName pid) w1)
      as [[err|found] w2] eqn:Hlisted; cbn [snd] in Htr2.
    { rewrite (getLoadBalancerByName_legacy_error _ _ _ _ _ _ _ Hcanonical Hlegacy Hlisted).
      exists [ListLoadBalancerRules name pid; ListLoadBalancerRules legacyName pid], [].
      cbn [snd]. rewrite Htr2, Htr1, app_nil_r, <- app_assoc. by split_and!; [|right|]. }
    destruct (getLoadBalancerByName_legacy _ _ _ _ _ _ _ Hcanonical Hlegacy Hlisted)
      as (warnings & -> & Hall).
    exists [ListLoadBalancerRules name pid; ListLoadBalancerRules legacyName pid], warnings.
    cbn [snd trace]. rewrite Htr2, Htr1, <- !app_assoc. by split_and!; [|right|].
  - destruct (getLoadBalancerByName_canonical cs name legacyName w w1 (a :: rest) Hcanonical)
      as (warnings & -> & Hall); [done|].
    exists [ListLoadBalancerRules name pid], warnings.
    cbn [snd trace]. rewrite Htr1, <- !app_assoc. by split_and!; [|left|].
Qed.
End Located.

(** ** Requests of UpdateLoadBalancer *)

Section HostUpdates.
Context {mapRange : MapRange} {helpers : Helpers} {libraries : Libraries}.
Context {S : Type} {platform : Platform S}.

Lemma collectRules_lookups (found : list LoadBalancerRule.t) :
  ∀ lb, emits (S := S) (λ e, isLookup e = true) (collectRules lb found).
Proof. induction found; intros lb; cbn [collectRules]; emits_go. Qed.
Hint Resolve collectRules_lookups : emits.

Lemma getLoadBalancerByName_lookups cs name legacyName :
  emits (S := S) (λ e, isLookup e = true) (getLoadBalancerByName cs name legacyName).
Proof. unfold getLoadBalancerByName. emits_go. Qed.

Lemma verifyHosts_lookups cs nodes :
  emits (S := S) (λ e, isLookup e = true) (verifyHosts cs nodes).
Proof. unfold verifyHosts. emits_go. Qed.

Lemma isLookup_isHostUpdate (e : Event) : isLookup e = true → isHostUpdate e = true.
Proof. by destruct e as [[]| |]. Qed.

Lemma updateRuleHosts_host_updates (lbRules : list LoadBalancerRule.t) :
  ∀ lb, emits (S := S) (λ e, isHostUpdate e = true) (updateRuleHosts lb lbRules).
Proof.
  induction lbRules as [|lbRule rest IH]; intros lb; cbn [updateRuleHosts];
    unfold assignHostsToRule, removeHostsFromRule; emits_go.
Qed.

(** X8.  [UpdateLoadBalancer] sends nothing but listings (of rules, of
    virtual machines, of the instances of a rule) and assignments and
    removals of instances: it creates and deletes no rule, touches no
    firewall rule and no address, and does not patch the Service. *)
Theorem UpdateLoadBalancer_requests (cs : CSCloud.t) (clusterName : string)
    (service : Service.t) (nodes : list Node.t) (w : World S) :
  ∃ new,
    trace (UpdateLoadBalancer cs clusterName service nodes w).2 = trace w ++ new
    ∧ Forall (λ e, isHostUpdate e = true) new.
Proof.
  revert w. change (emits (λ e, isHostUpdate e = true)
                      (UpdateLoadBalancer cs clusterName service nodes)).
  pose proof (λ n l, emits_weaken _ _ _ isLookup_isHostUpdate
                       (getLoadBalancerByName_lookups cs n l)) as Hlocate.
  pose proof (emits_weaken _ _ _ isLookup_isHostUpdate (verifyHosts_lookups cs nodes))
    as Hverify.
  pose proof updateRuleHosts_host_updates as Hloop.
  unfold UpdateLoadBalancer. emits_go.
Qed.

Lemma symmetricDifference_nothing (hostIDs : list string)
    (lbInstances : list VirtualMachine.t) :
  NoDup (VirtualMachine.Id <$> lbInstances) →
  (∀ x, x ∈ VirtualMachine.Id <$> lbInstances ↔ x ∈ hostIDs) →
  symmetricDifference hostIDs lbInstances = ([], []).
Proof.
  intros Hnodup Hsame.
  set (newIDs := foldl (λ m hostID, <[hostID := true]> m) (∅ : gmap string bool) hostIDs).
  assert (∀ k, default false (newIDs !! k) = bool_decide (k ∈ hostIDs)) as Hnew.
  { intros k. unfold newIDs. rewrite newIDs_lookup, lookup_empty.
    case_decide; [by rewrite bool_decide_eq_true_2|by rewrite bool_decide_eq_false_2]. }
  unfold symmetricDifference. fold newIDs.
  pose proof (removeLoop_remove lbInstances Hnodup newIDs []) as Hremove.
  pose proof (removeLoop_newIDs lbInstances newIDs []) as Hleft.
  destruct (removeLoop newIDs [] lbInstances) as [newIDs' remove]. cbn [fst snd] in *.
  assert (newIDs' = ∅) as ->.
  { apply map_eq. intros k. rewrite Hleft, lookup_empty.
    unfold newIDs. rewrite !newIDs_lookup, lookup_empty.
    destruct (decide (k ∈ VirtualMachine.Id <$> lbInstances)) as [Hin|Hnin].
    - rewrite decide_True by (by apply Hsame). done.
    - rewrite decide_False; [done|]. by rewrite <- Hsame. }
  rewrite map_to_list_empty.
  assert (rangeOrder ([] : list (string * bool)).*1 = []) as ->.
  { apply Permutation_nil_r. by rewrite rangeOrder_perm. }
  f_equal. apply elem_of_nil_inv. intros x [[]%elem_of_nil|[Hin Hd]]%Hremove.
  rewrite Hnew in Hd. apply bool_decide_eq_false in Hd. by apply Hd, Hsame.
Qed.

(** X9.  On a platform that lists, for every rule, exactly the desired
    hosts as its instances (none of them twice), the loop of
    [UpdateLoadBalancer] over the rules asks for the instances of each rule
    and sends nothing else - no assignment, no removal - and returns no
    error.  [stable] is what the platform keeps true of its state. *)
Theorem updateRuleHosts_in_sync (stable : S → Prop) (lb : loadBalancer.t)
    (lbRules : list LoadBalancerRule.t) (w : World S) :
  (∀ id s, stable s →
     stable (handle (ListLoadBalancerRuleInstances id) s).2
     ∧ ∃ instances,
         (handle (ListLoadBalancerRuleInstances id) s).1 = inr instances
         ∧ NoDup (VirtualMachine.Id <$> instances)
         ∧ ∀ x, x ∈ VirtualMachine.Id <$> instances ↔ x ∈ loadBalancer.hostIDs lb) →
  stable (remote w) →
  (updateRuleHosts lb lbRules w).1 = None
  ∧ trace (updateRuleHosts lb lbRules w).2
    = trace w ++ ((λ lbRule, Api (ListLoadBalancerRuleInstances (LoadBalancerRule.Id lbRule)))
                  <$> lbRules).
Proof.
  intros Hplatform. revert w.
  induction lbRules as [|lbRule rest IH]; intros w Hstable.
  - cbn. by rewrite app_nil_r.
  - destruct (Hplatform (LoadBalancerRule.Id lbRule) (remote w) Hstable)
      as (Hnext & instances & Hanswer & Hnodup & Hsame).
    destruct (handle (ListLoadBalancerRuleInstances (LoadBalancerRule.Id lbRule)) (remote w))
      as [answer s1] eqn:Hhandle. cbn [fst snd] in *. subst answer.
    set (w1 := mkWorld s1 (trace w ++ [Api (ListLoadBalancerRuleInstances
                                              (LoadBalancerRule.Id lbRule))])).
    assert (updateRuleHosts lb (lbRule :: rest) w = updateRuleHosts lb rest w1) as ->.
    { cbn [updateRuleHosts]. unfold mbind at 1, M_bind at 1, call. rewrite Hhandle.
      rewrite (symmetricDifference_nothing _ _ Hnodup Hsame). cbn [length].
      rewrite (bool_decide_eq_false_2 (0 < 0)%nat) by lia. done. }
    destruct (IH w1 Hnext) as [Herr Htrace]. split; [done|].
    rewrite Htrace. cbn. by rewrite <- app_assoc.
Qed.
End HostUpdates.

(** ** What EnsureLoadBalancer returns *)

Section EnsureResults.
Context {mapRange : MapRange} {helpers : Helpers} {libraries : Libraries}.
Context {S : Type} {platform : Platform S}.

Lemma NewAggregate_error (e : GoError) (perr : option GoError) :
  ∃ rest, NewAggregate [Some e; perr] = Some (Aggregate (e :: rest)).
Proof. unfold NewAggregate. cbn. by eexists. Qed.

(** X10.  An error handed to [Patch] is not lost: [Patch] returns that
    error, or an aggregate that starts with it; so a call of
    [EnsureLoadBalancer] that failed before the patch returns an error
    whatever the patch does. *)
Theorem Patch_keeps_error (sp : servicePatcher.t) (updated : Service.t) (e : GoError)
    (w : World S) :
  (Patch sp updated (Some e) w).1 = Some e
  ∨ ∃ rest, (Patch sp updated (Some e) w).1 = Some (Aggregate (e :: rest)).
Proof.
  unfold Patch. destruct (DeepEqual _ _); [by left|right].
  unfold mbind, M_bind. destruct (patchService _ _ _) as [perr w1].
  unfold mret, M_ret. cbn [fst]. apply NewAggregate_error.
Qed.

Lemma Patch_nil (sp : servicePatcher.t) (updated : Service.t) (err : option GoError)
    (w : World S) :
  (Patch sp updated err w).1 = None → err = None.
Proof.
  destruct err as [e|]; [|done]. unfold Patch.
  destruct (DeepEqual _ _); [done|].
  unfold mbind, M_bind. destruct (patchService _ _ _) as [perr w1].
  unfold mret, M_ret. cbn [fst].
  by destruct (NewAggregate_error e perr) as (rest & ->).
Qed.

Lemma reportedStatus_set (service : Service.t) (value ip : string) :
  reportedStatus (setServiceAnnotation service ServiceAnnotationLoadBalancerAddress value) ip
  = reportedStatus service ip.
Proof.
  unfold reportedStatus, getStringFromServiceAnnotation.
  by rewrite annotation_set_ne.
Qed.

Lemma ensureRules_result (service : Service.t) (lb : loadBalancer.t) (w : World S) :
  let r := (ensureRules service lb w).1 in
  r.1.1.2
  = setServiceAnnotation service ServiceAnnotationLoadBalancerAddress (loadBalancer.ipAddr lb)
  ∧ (r.2 = None → r.1.2 = Some (reportedStatus service (loadBalancer.ipAddr lb))).
Proof.
  cbn zeta. unfold ensureRules, mbind, M_bind.
  set (annotated := setServiceAnnotation service _ _).
  pose proof (ensurePorts_address annotated
                (ServiceSpec.Ports (Service.Spec annotated)) lb w) as [Hip1 _].
  destruct (ensurePorts annotated lb _ w) as [[lb1 [err|]] w1]; [done|].
  set (stale := (rangeOrder (map_to_list (loadBalancer.rules lb1))).*2).
  pose proof (cleanupRules_address stale lb1 w1) as [Hip2 _].
  destruct (cleanupRules lb1 stale w1) as [[lb2 [err|]] w2]; [done|].
  cbn [fst snd] in *. rewrite <- (reportedStatus_set service (loadBalancer.ipAddr lb)).
  fold annotated. unfold reportedStatus. rewrite <- Hip1, <- Hip2.
  by destruct (bool_decide (_ = "")).
Qed.

Lemma ensureWithAddress_result (service : Service.t) (lb : loadBalancer.t) (w : World S) :
  let r := (ensureWithAddress service lb w).1 in
  (r.1.1 = service ∧ r.2 ≠ None)
  ∨ ∃ ip,
      r.1.1 = setServiceAnnotation service ServiceAnnotationLoadBalancerAddress ip
      ∧ (r.2 = None → r.1.2 = Some (reportedStatus service ip)).
Proof.
  cbn zeta. destruct (hasLoadBalancerIP lb) eqn:Hhas.
  - rewrite (ensureWithAddress_existing _ _ _ Hhas).
    pose proof (ensureRules_result service lb w) as Hrules.
    destruct (ensureRules service lb w) as [[[[lb2 service2] status2] err2] w2].
    right. by exists (loadBalancer.ipAddr lb).
  - destruct (getLoadBalancerIP lb (ServiceSpec.LoadBalancerIP (Service.Spec service)) w)
      as [[err|lb1] w1] eqn:Hip.
    + rewrite (ensureWithAddress_unresolved _ _ _ _ _ Hhas Hip). by left.
    + rewrite (ensureWithAddress_resolved _ _ _ _ _ Hhas Hip).
      pose proof (ensureRules_result service lb1
                    (emit (RecordEvent EventTypeNormal "CreatedLoadBalancer") w1).2)
        as Hrules.
      destruct (ensureRules service lb1 _) as [[[[lb2 service2] status2] err2] w2].
      right. by exists (loadBalancer.ipAddr lb1).
Qed.

Lemma ensureLoadBalancer_result (cs : CSCloud.t) (clusterName : string)
    (service : Service.t) (nodes : list Node.t) (w : World S) :
  let r := (ensureLoadBalancer cs clusterName service nodes w).1 in
  (r.1.1 = service ∧ r.2 ≠ None)
  ∨ ∃ ip,
      r.1.1 = setServiceAnnotation service ServiceAnnotationLoadBalancerAddress ip
      ∧ (r.2 = None → r.1.2 = Some (reportedStatus service ip)).
Proof.
  cbn zeta. unfold ensureLoadBalancer, mbind, M_bind.
  destruct (locateAndVerify cs clusterName service nodes w) as [[err|lb] w0]; [by left|].
  apply ensureWithAddress_result.
Qed.

Lemma EnsureLoadBalancer_unfold (cs : CSCloud.t) (clusterName : string)
    (service : Service.t) (nodes : list Node.t) (w : World S) :
  ServiceSpec.Ports (Service.Spec service) ≠ [] →
  EnsureLoadBalancer cs clusterName service nodes w
  = let body := ensureLoadBalancer cs clusterName service nodes w in
    let patched := Patch (newServicePatcher service) body.1.1.1 body.1.2 body.2 in
    ((body.1.1.1, body.1.1.2, patched.1), patched.2).
Proof.
  intros Hports. unfold EnsureLoadBalancer.
  rewrite bool_decide_eq_false_2 by (by destruct (ServiceSpec.Ports (Service.Spec service))).
  unfold mbind at 1, M_bind at 1. cbn zeta.
  destruct (ensureLoadBalancer cs clusterName service nodes w)
    as [[[service' status'] err'] w1]. cbn [fst snd].
  unfold mbind, M_bind. by destruct (Patch _ _ _ _).
Qed.

(** X11.  Whatever happens, the Service [EnsureLoadBalancer] hands back
    has the namespace, the name and the spec it came with, and every
    annotation but the address annotation reads as it did. *)
Theorem EnsureLoadBalancer_service_frame (cs : CSCloud.t) (clusterName : string)
    (service : Service.t) (nodes : list Node.t) (w : World S) :
  let updated := (EnsureLoadBalancer cs clusterName service nodes w).1.1.1 in
  Service.Namespace updated = Service.Namespace service
  ∧ Service.Name updated = Service.Name service
  ∧ Service.Spec updated = Service.Spec service
  ∧ ∀ key, key ≠ ServiceAnnotationLoadBalancerAddress →
           annotation updated key = annotation service key.
Proof.
  intros updated.
  assert (updated = service
          ∨ ∃ ip, updated
                  = setServiceAnnotation service ServiceAnnotationLoadBalancerAddress ip)
    as [->|[ip ->]]; [|done|].
  { unfold updated.
    destruct (ServiceSpec.Ports (Service.Spec service)) as [|port ports] eqn:Hports.
    - left. unfold EnsureLoadBalancer. by rewrite Hports.
    - rewrite EnsureLoadBalancer_unfold by (by rewrite Hports). cbn [fst].
      destruct (ensureLoadBalancer_result cs clusterName service nodes w)
        as [[? _]|(ip & ? & _)]; [by left|right; by exists ip]. }
  split_and!; [done..|]. intros key Hne. by apply annotation_set_ne.
Qed.

(** X12.  When [EnsureLoadBalancer] returns no error, the Service it
    hands back carries an address annotation, and the status holds one
    ingress entry: the hostname of the hostname annotation when that is
    set and not empty, and otherwise the address of the address
    annotation. *)
Theorem EnsureLoadBalancer_status (cs : CSCloud.t) (clusterName : string)
    (service : Service.t) (nodes : list Node.t) (w : World S) :
  let run := EnsureLoadBalancer cs clusterName service nodes w in
  let hostname :=
    getStringFromServiceAnnotation service
      ServiceAnnotationLoadBalancerLoadbalancerHostname "" in
  run.1.2 = None →
  ∃ ip,
    annotation run.1.1.1 ServiceAnnotationLoadBalancerAddress = Some ip
    ∧ run.1.1.2
      = Some (LoadBalancerStatus.mk
                [if bool_decide (hostname = "") then LoadBalancerIngress.mk ip ""
                 else LoadBalancerIngress.mk "" hostname]).
Proof.
  intros run hostname. unfold run.
  destruct (ServiceSpec.Ports (Service.Spec service)) as [|port ports] eqn:Hports.
  { unfold EnsureLoadBalancer. by rewrite Hports. }
  rewrite EnsureLoadBalancer_unfold by (by rewrite Hports). cbn [fst snd].
  intros Hbody%Patch_nil.
  destruct (ensureLoadBalancer_result cs clusterName service nodes w)
    as [[_ ?]|(ip & -> & Hstatus)]; [done|].
  exists ip. split; [apply annotation_set_eq|]. by rewrite (Hstatus Hbody).
Qed.

Lemma locateAndVerify_lookups cs clusterName service nodes :
  emits (S := S) (λ e, isLookup e = true) (locateAndVerify cs clusterName service nodes).
Proof.
  pose proof (getLoadBalancerByName_lookups (S := S) cs) as Hlocate.
  pose proof (verifyHosts_lookups (S := S) cs nodes) as Hverify.
  unfold locateAndVerify. emits_go.
Qed.

(** X13.  When the lookup of the load balancer, the session affinity or
    the check of the hosts fails, [EnsureLoadBalancer] returns that error
    with the Service as it came and no status, and all it has sent are
    listings of rules and of virtual machines: nothing was created,
    changed or deleted, and the Service is not patched. *)
Theorem EnsureLoadBalancer_early_failure (cs : CSCloud.t) (clusterName : string)
    (service : Service.t) (nodes : list Node.t) (w : World S) (e : GoError) :
  ServiceSpec.Ports (Service.Spec service) ≠ [] →
  (locateAndVerify cs clusterName service nodes w).1 = inl e →
  let run := EnsureLoadBalancer cs clusterName service nodes w in
  run.1 = (service, None, Some e)
  ∧ ∃ new, trace run.2 = trace w ++ new ∧ Forall (λ ev, isLookup ev = true) new.
Proof.
  intros Hports Hfail run. unfold run. rewrite EnsureLoadBalancer_unfold by done.
  unfold ensureLoadBalancer, mbind, M_bind.
  pose proof (locateAndVerify_lookups cs clusterName service nodes w) as Hlookups.
  destruct (locateAndVerify cs clusterName service nodes w) as [r w0].
  cbn [fst snd] in *. subst r. cbn [mret M_ret fst snd].
  by rewrite Patch_unchanged.
Qed.
End EnsureResults.

(** ** Firewall rules on the simulated platform *)

Lemma filter_ext_elem {A} (P Q : A → Prop) `{∀ x, Decision (P x)} `{∀ x, Decision (Q x)}
    (l : list A) :
  (∀ x, x ∈ l → P x ↔ Q x) → filter P l = filter Q l.
Proof.
  induction l as [|a l IH]; intros Hiff; [done|].
  rewrite !filter_cons, IH by (intros x Hx; by apply Hiff, list_elem_of_further).
  destruct (decide (P a)) as [HP|HP], (decide (Q a)) as [HQ|HQ]; try done;
    apply Hiff in HP || apply Hiff in HQ; try done; apply list_elem_of_here.
Qed.

Lemma NoDup_fmap_elem {A B} (f : A → B) (l : list A) (x y : A) :
  NoDup (f <$> l) → x ∈ l → y ∈ l → f x = f y → x = y.
Proof.
  intros Hnodup [i Hi]%list_elem_of_lookup_1 [j Hj]%list_elem_of_lookup_1 Heq.
  assert (i = j) as ->.
  { eapply NoDup_lookup; [exact Hnodup|..].
    - by rewrite list_lookup_fmap, Hi.
    - rewrite list_lookup_fmap, Hj. cbn. by rewrite Heq. }
  congruence.
Qed.

Lemma imap_filter_snd {A} (P : A → Prop) `{∀ x, Decision (P x)} (l : list A) :
  ∀ g : nat → nat,
  (filter (λ entry : nat * A, P entry.2) (imap (λ i x, (g i, x)) l)).*2 = filter P l.
Proof.
  induction l as [|a l IH]; intros g; [done|].
  cbn [imap]. rewrite !filter_cons. cbn [snd].
  specialize (IH (g ∘ Datatypes.S)).
  destruct (decide (P a)); cbn [fmap list_fmap snd]; by rewrite <- IH.
Qed.

Section FirewallSettled.
Context {mapRange : MapRange} {helpers : Helpers}.

Lemma rangeOrder_nil {A} : rangeOrder ([] : list A) = [].
Proof. apply Permutation_nil_r. by rewrite rangeOrder_perm. Qed.

Lemma rangeOrder_singleton {A} (x : A) : rangeOrder [x] = [x].
Proof. apply Permutation_singleton_r. by rewrite rangeOrder_perm. Qed.

Lemma filter_forIdentity publicIPID protocol publicPort (rules : list FirewallRule.t) :
  filter (λ rule, matchesPort protocol publicPort rule = true)
    (filter (λ rule, FirewallRule.Ipaddressid rule = publicIPID) rules)
  = filter (λ rule, forIdentity publicIPID protocol publicPort rule = true) rules.
Proof.
  rewrite list_filter_filter. apply list_filter_iff. intros rule.
  unfold forIdentity. rewrite andb_true_iff, bool_decide_eq_true. tauto.
Qed.

(** X14.  On the simulated platform: when the one firewall rule of the
    identity carries a rearrangement of the desired CIDR list,
    [updateFirewallRule] sends the listing and nothing else, leaves the
    firewall as it is and returns [(true, nil)]. *)
Theorem updateFirewallRule_settled (sim : Sim.t) (tr : list Event) (lb : loadBalancer.t)
    (publicIPID : string) (publicPort : Z) (protocol : LoadBalancerProtocol)
    (allowedCIDRs : list string) (rule : FirewallRule.t) :
  Sim.listFirewallFails sim = None →
  filter (λ r, forIdentity publicIPID protocol publicPort r = true) (Sim.firewallRules sim)
  = [rule] →
  Split (FirewallRule.Cidrlist rule) ","%char ≡ₚ desiredCIDRs allowedCIDRs →
  updateFirewallRule lb publicIPID publicPort protocol allowedCIDRs (mkWorld sim tr)
  = ((true, None),
     mkWorld sim (tr ++ [Api (ListFirewallRules publicIPID (loadBalancer.projectID lb))])).
Proof.
  intros Hlist Hone Hcidrs.
  unfold updateFirewallRule. rewrite desiredCIDRs_eq.
  unfold mbind at 1, M_bind at 1, call at 1, handle, simPlatform.
  cbn [Sim.handle remote trace]. rewrite Hlist.
  set (listed := filter (λ rule, FirewallRule.Ipaddressid rule = publicIPID)
                        (Sim.firewallRules sim)).
  fold (filteredEntries protocol publicPort listed).
  assert (∃ i, filteredEntries protocol publicPort listed = [(i, rule)]) as [i ->].
  { pose proof (imap_filter_snd (λ r, matchesPort protocol publicPort r = true) listed id)
      as Hsnd.
    unfold listed in Hsnd at 2. rewrite filter_forIdentity, Hone in Hsnd.
    unfold filteredEntries.
    destruct (filter _ (imap _ listed)) as [|[i r] [|e rest]]; try done.
    exists i. cbn in Hsnd. by injection Hsnd as ->. }
  assert (cidrsMatch (desiredCIDRs allowedCIDRs) (i, rule) = true) as Hmatch
    by (by apply compareStringSlice_Permutation).
  rewrite rangeOrder_singleton.
  rewrite (filter_cons_True (λ entry, cidrsMatch (desiredCIDRs allowedCIDRs) entry = true))
    by exact Hmatch.
  cbn [head fst].
  rewrite (filter_cons_False (λ entry : nat * FirewallRule.t, entry.1 ≠ i)) by (cbn; tauto).
  rewrite filter_nil, rangeOrder_nil. reflexivity.
Qed.

Lemma deleteFirewallFails_set (sim : Sim.t) (rules : list FirewallRule.t) :
  Sim.deleteFirewallFails (Sim.set_firewallRules sim rules) = Sim.deleteFirewallFails sim.
Proof. done. Qed.

Lemma call_delete_refused (sim : Sim.t) (tr : list Event) (id : string) (e : GoError) :
  Sim.deleteFirewallFails sim id = Some e →
  call (DeleteFirewallRule id) (mkWorld sim tr)
  = (Some e, mkWorld sim (tr ++ [Api (DeleteFirewallRule id)])).
Proof.
  intros Hfails. unfold call, handle, simPlatform. cbn [Sim.handle remote trace].
  by rewrite Hfails.
Qed.

Lemma call_delete_done (sim : Sim.t) (tr : list Event) (id : string) :
  Sim.deleteFirewallFails sim id = None →
  call (DeleteFirewallRule id) (mkWorld sim tr)
  = (None,
     mkWorld (Sim.set_firewallRules sim
                (filter (λ rule, FirewallRule.Id rule ≠ id) (Sim.firewallRules sim)))
             (tr ++ [Api (DeleteFirewallRule id)])).
Proof.
  intros Hfails. unfold call, handle, simPlatform. cbn [Sim.handle remote trace].
  by rewrite Hfails.
Qed.

Lemma deleteMatching_on_sim (fails : string → option GoError)
    (filtered : list FirewallRule.t) :
  ∀ (sim : Sim.t) (tr : list Event) (deleted : bool) (err : option GoError),
  Sim.deleteFirewallFails sim = fails →
  ∃ tr',
    deleteMatching filtered deleted err (mkWorld sim tr)
    = ((deleted || existsb (λ rule, negb (refuses fails rule)) filtered,
        from_option (λ rule, fails (FirewallRule.Id rule)) err (last filtered)),
       mkWorld
         (Sim.set_firewallRules sim
            (filter (λ rule, FirewallRule.Id rule
                             ∉ FirewallRule.Id <$> filter (λ r, refuses fails r = false) filtered)
                    (Sim.firewallRules sim)))
         tr').
Proof.
  induction filtered as [|r rest IH]; intros sim tr deleted err Hfails.
  - exists tr. cbn. rewrite orb_false_r. do 2 f_equal.
    rewrite filter_all; [by rewrite set_firewallRules_same|].
    intros x _. apply not_elem_of_nil.
  - assert (∀ e, from_option (λ rule, fails (FirewallRule.Id rule)) e (last (r :: rest))
                 = from_option (λ rule, fails (FirewallRule.Id rule))
                     (fails (FirewallRule.Id r)) (last rest)) as Hlast.
    { intros e. rewrite last_cons. by destruct (last rest). }
    rewrite Hlast. cbn [deleteMatching existsb]. rewrite filter_cons.
    unfold mbind at 1, M_bind at 1.
    destruct (fails (FirewallRule.Id r)) as [e|] eqn:Hr.
    + rewrite (call_delete_refused sim tr _ e) by (by rewrite Hfails).
      assert (refuses fails r = true) as Href by (unfold refuses; by rewrite Hr).
      rewrite Href. cbn [negb orb]. rewrite decide_False by done.
      unfold mbind, M_bind, emit. cbn [remote trace].
      destruct (IH sim ((tr ++ [Api (DeleteFirewallRule (FirewallRule.Id r))])
                        ++ [Klog LogError "Error deleting old firewall rule %v: %v"])
                  deleted (Some e) Hfails) as (tr' & ->).
      by exists tr'.
    + rewrite (call_delete_done sim tr) by (by rewrite Hfails).
      assert (refuses fails r = false) as Href by (unfold refuses; by rewrite Hr).
      rewrite Href. cbn [negb orb]. rewrite orb_true_r, decide_True by done.
      set (sim' := Sim.set_firewallRules sim _).
      destruct (IH sim' (tr ++ [Api (DeleteFirewallRule (FirewallRule.Id r))]) true None)
        as (tr' & ->); [done|].
      exists tr'. do 2 f_equal.
      unfold sim'. destruct sim; cbn. f_equal. rewrite list_filter_filter.
      apply list_filter_iff. intros x. rewrite not_elem_of_cons. naive_solver.
Qed.

Lemma deleteFirewallRule_on_sim (sim : Sim.t) (tr : list Event) (lb : loadBalancer.t)
    (publicIPID : string) (publicPort : Z) (protocol : LoadBalancerProtocol) :
  Sim.listFirewallFails sim = None →
  deleteFirewallRule lb publicIPID publicPort protocol (mkWorld sim tr)
  = deleteMatching
      (filter (λ r, forIdentity publicIPID protocol publicPort r = true)
              (Sim.firewallRules sim))
      false None
      (mkWorld sim (tr ++ [Api (ListFirewallRules publicIPID (loadBalancer.projectID lb))])).
Proof.
  intros Hlist. unfold deleteFirewallRule, mbind, M_bind, call, handle, simPlatform.
  cbn [Sim.handle remote trace]. rewrite Hlist. cbv beta iota.
  by rewrite filter_forIdentity.
Qed.

Lemma deleteMatching_trace (fails : string → option GoError)
    (filtered : list FirewallRule.t) :
  ∀ (sim : Sim.t) (tr : list Event) (deleted : bool) (err : option GoError),
  Sim.deleteFirewallFails sim = fails →
  trace (deleteMatching filtered deleted err (mkWorld sim tr)).2
  = tr ++ deletionEvents fails filtered.
Proof.
  induction filtered as [|r rest IH]; intros sim tr deleted err Hfails.
  - cbn. by rewrite app_nil_r.
  - cbn [deleteMatching]. unfold deletionEvents. rewrite fmap_cons. cbn [concat].
    fold (deletionEvents fails rest). unfold mbind at 1, M_bind at 1, refuses.
    destruct (fails (FirewallRule.Id r)) as [e|] eqn:Hr.
    + rewrite (call_delete_refused sim tr _ e) by (by rewrite Hfails).
      unfold mbind, M_bind, emit. cbn [remote trace].
      rewrite IH by done. by rewrite <- !app_assoc.
    + rewrite (call_delete_done sim tr) by (by rewrite Hfails).
      rewrite IH by done. by rewrite <- !app_assoc.
Qed.

(** X15.  On the simulated platform, whatever deletions it refuses:
    [deleteFirewallRule] asks for the deletion of every rule of the
    identity, in turn, and writes a line to the error log after each
    refusal; it returns [true] exactly when one of the rules was deleted,
    and its error is the answer to the deletion that came last - a
    refusal before a deletion that went through is logged and not
    returned. *)
Theorem deleteFirewallRule_result (sim : Sim.t) (tr : list Event) (lb : loadBalancer.t)
    (publicIPID : string) (publicPort : Z) (protocol : LoadBalancerProtocol) :
  Sim.listFirewallFails sim = None →
  let matching :=
    filter (λ r, forIdentity publicIPID protocol publicPort r = true)
           (Sim.firewallRules sim) in
  let run := deleteFirewallRule lb publicIPID publicPort protocol (mkWorld sim tr) in
  run.1
  = (existsb (λ rule, negb (refuses (Sim.deleteFirewallFails sim) rule)) matching,
     from_option (λ rule, Sim.deleteFirewallFails sim (FirewallRule.Id rule)) None
       (last matching))
  ∧ trace run.2
    = tr ++ Api (ListFirewallRules publicIPID (loadBalancer.projectID lb))
         :: deletionEvents (Sim.deleteFirewallFails sim) matching.
Proof.
  intros Hlist matching run. unfold run.
  rewrite deleteFirewallRule_on_sim by done. fold matching. split.
  - by destruct (deleteMatching_on_sim (Sim.deleteFirewallFails sim) matching sim
                   (tr ++ [Api (ListFirewallRules publicIPID (loadBalancer.projectID lb))])
                   false None eq_refl) as (tr' & ->).
  - rewrite (deleteMatching_trace (Sim.deleteFirewallFails sim)) by done.
    by rewrite <- app_assoc.
Qed.

(** X16.  On the simulated platform with unique rule ids:
    [deleteFirewallRule] removes the rules of the identity that the
    platform does not refuse to delete and no other rule; when nothing is
    refused, no rule of the identity is left. *)
Theorem deleteFirewallRule_clears (sim : Sim.t) (tr : list Event) (lb : loadBalancer.t)
    (publicIPID : string) (publicPort : Z) (protocol : LoadBalancerProtocol) :
  Sim.listFirewallFails sim = None →
  NoDup (FirewallRule.Id <$> Sim.firewallRules sim) →
  let after :=
    Sim.firewallRules
      (remote (deleteFirewallRule lb publicIPID publicPort protocol (mkWorld sim tr)).2) in
  after
  = filter (λ rule, forIdentity publicIPID protocol publicPort rule = false
                    ∨ refuses (Sim.deleteFirewallFails sim) rule = true)
           (Sim.firewallRules sim)
  ∧ ((∀ id, Sim.deleteFirewallFails sim id = None) →
     filter (λ r, forIdentity publicIPID protocol publicPort r = true) after = []).
Proof.
  intros Hlist Hnodup after.
  set (matching := filter (λ r, forIdentity publicIPID protocol publicPort r = true)
                          (Sim.firewallRules sim)).
  assert (after
          = filter (λ rule, forIdentity publicIPID protocol publicPort rule = false
                            ∨ refuses (Sim.deleteFirewallFails sim) rule = true)
                   (Sim.firewallRules sim)) as Hafter.
  { unfold after. rewrite deleteFirewallRule_on_sim by done. fold matching.
    destruct (deleteMatching_on_sim (Sim.deleteFirewallFails sim) matching sim
                (tr ++ [Api (ListFirewallRules publicIPID (loadBalancer.projectID lb))])
                false None eq_refl) as (tr' & ->).
    cbn [snd remote Sim.firewallRules Sim.set_firewallRules].
    apply filter_ext_elem. intros x Hx.
    rewrite list_elem_of_fmap. split.
    - intros Hnot.
      destruct (forIdentity publicIPID protocol publicPort x) eqn:Hid; [|by left].
      destruct (refuses (Sim.deleteFirewallFails sim) x) eqn:Href; [by right|].
      destruct Hnot. exists x. split; [done|].
      apply list_elem_of_filter. split; [done|]. by apply list_elem_of_filter.
    - intros Hkeep (y & Heq & [Hy Hm]%list_elem_of_filter).
      apply list_elem_of_filter in Hm as [Hid Hyin].
      assert (x = y) as -> by (by eapply NoDup_fmap_elem).
      destruct Hkeep; congruence. }
  split; [done|]. intros Hok. rewrite Hafter, list_filter_filter.
  apply filter_none. intros x _ [Hid [Hno|Href]]; [congruence|].
  unfold refuses in Href. by rewrite Hok in Href.
Qed.
(** ** The firewall after a run of updateFirewallRule *)

Lemma deleteFiltered_succeed (filtered : list (nat * FirewallRule.t)) :
  ∀ (sim : Sim.t) (tr : list Event) (err : option GoError),
  (∀ entry, entry ∈ filtered → Sim.deleteFirewallFails sim (FirewallRule.Id entry.2) = None) →
  deleteFiltered filtered err (mkWorld sim tr)
  = (match filtered with [] => err | _ => None end,
     mkWorld
       (Sim.set_firewallRules sim
          (filter (λ rule, FirewallRule.Id rule ∉ ruleIds filtered)
                  (Sim.firewallRules sim)))
       (tr ++ ((λ e : nat * FirewallRule.t, Api (DeleteFirewallRule (FirewallRule.Id e.2)))
               <$> filtered))).
Proof.
  induction filtered as [|e rest IH]; intros sim tr err Hok.
  - cbn. rewrite app_nil_r. f_equal. f_equal.
    rewrite filter_all; [by rewrite set_firewallRules_same|].
    intros x _. apply not_elem_of_nil.
  - cbn [deleteFiltered]. unfold mbind, M_bind, call, handle, simPlatform. cbn.
    rewrite (Hok e) by apply list_elem_of_here. cbn.
    rewrite IH by (intros entry Hentry; by apply (Hok entry), list_elem_of_further).
    cbn. f_equal.
    + by destruct rest.
    + f_equal.
      * destruct sim; cbn. f_equal. rewrite list_filter_filter.
        apply list_filter_iff. intros x. rewrite not_elem_of_cons.
        naive_solver.
      * by rewrite <- app_assoc.
Qed.

Lemma deleteFiltered_asks (filtered : list (nat * FirewallRule.t)) :
  ∀ (err : option GoError) (w : World Sim.t),
  ∃ new,
    trace (deleteFiltered filtered err w).2 = trace w ++ new
    ∧ ∀ entry, entry ∈ filtered →
        Api (DeleteFirewallRule (FirewallRule.Id entry.2)) ∈ new.
Proof.
  induction filtered as [|e rest IH]; intros err w.
  - exists []. cbn. rewrite app_nil_r. split; [done|]. by intros entry ?%elem_of_nil.
  - cbn [deleteFiltered]. unfold mbind, M_bind.
    pose proof (call_trace (DeleteFirewallRule (FirewallRule.Id e.2)) w) as Hcall.
    destruct (call _ w) as [r w1]. cbn [snd] in Hcall.
    destruct r as [failure|]; unfold emit, mret, M_ret; cbv beta iota.
    + destruct (IH (Some failure)
                  (mkWorld (remote w1)
                     (trace w1 ++ [Klog LogError "Error deleting old firewall rule %v: %v"])))
        as (new & Htr & Hin).
      exists (Api (DeleteFirewallRule (FirewallRule.Id e.2))
              :: Klog LogError "Error deleting old firewall rule %v: %v" :: new).
      rewrite Htr. cbn [trace]. rewrite Hcall, <- !app_assoc. split; [done|].
      intros entry [->|Hentry]%elem_of_cons; [apply list_elem_of_here|].
      do 2 apply list_elem_of_further. by apply Hin.
    + destruct (IH None w1) as (new & Htr & Hin).
      exists (Api (DeleteFirewallRule (FirewallRule.Id e.2)) :: new).
      rewrite Htr, Hcall, <- !app_assoc. split; [done|].
      intros entry [->|Hentry]%elem_of_cons; [apply list_elem_of_here|].
      apply list_elem_of_further. by apply Hin.
Qed.

Lemma updateFirewallRule_asks (sim : Sim.t) (tr : list Event) (lb : loadBalancer.t)
    (publicIPID : string) (publicPort : Z) (protocol : LoadBalancerProtocol)
    (allowedCIDRs : list string) :
  Sim.listFirewallFails sim = None →
  let filtered :=
    filteredEntries protocol publicPort
      (filter (λ rule, FirewallRule.Ipaddressid rule = publicIPID)
              (Sim.firewallRules sim)) in
  ∀ entry,
    entry ∈ rangeOrder
              match head (filter (λ entry, cidrsMatch (desiredCIDRs allowedCIDRs) entry = true)
                                 (rangeOrder filtered)) with
              | Some m => filter (λ entry, entry.1 ≠ m.1) filtered
              | None => filtered
              end →
    Api (DeleteFirewallRule (FirewallRule.Id entry.2))
    ∈ drop (length tr)
        (trace (updateFirewallRule lb publicIPID publicPort protocol allowedCIDRs
                  (mkWorld sim tr)).2).
Proof.
  intros Hlist filtered entry Hentry.
  unfold updateFirewallRule. rewrite desiredCIDRs_eq.
  unfold mbind, M_bind, call at 1, handle, simPlatform.
  cbn [Sim.handle remote trace]. rewrite Hlist.
  fold (filteredEntries protocol publicPort
          (filter (λ rule, FirewallRule.Ipaddressid rule = publicIPID)
                  (Sim.firewallRules sim))).
  fold filtered.
  set (toDelete := rangeOrder _) in *.
  destruct (deleteFiltered_asks toDelete None
              (mkWorld sim (tr ++ [Api (ListFirewallRules publicIPID
                                          (loadBalancer.projectID lb))])))
    as (new & Htr & Hin).
  destruct (deleteFiltered toDelete None _) as [err w2]. cbn [snd trace] in Htr.
  assert (∀ more, Api (DeleteFirewallRule (FirewallRule.Id entry.2))
                  ∈ drop (length tr) (trace w2 ++ more)) as Hthere.
  { intros more. rewrite Htr, <- !app_assoc, drop_app_length.
    apply list_elem_of_further, elem_of_app. left. by apply Hin. }
  destruct (head _).
  - cbn [mret M_ret snd]. rewrite <- (app_nil_r (trace w2)). apply Hthere.
  - rewrite (surjective_pairing (call _ w2)).
    pose proof (call_trace (CreateFirewallRule publicIPID (IPProtocol protocol)
                              (desiredCIDRs allowedCIDRs) publicPort publicPort) w2)
      as Hcreate.
    destruct (call _ w2) as [[failure|] w3]; cbn [fst snd mret M_ret] in *;
      rewrite Hcreate; apply Hthere.
Qed.

(** X28.  On the simulated platform with unique rule ids, and for desired
    entries that hold no comma: when [updateFirewallRule] returns without
    error and the platform has refused none of the deletions that the call
    asked for (it may refuse others), exactly one firewall rule exists for
    the identity (public IP id, protocol, start port = end port =
    publicPort), and the CIDR list of that rule is a rearrangement of the
    desired list, an empty desired list standing for the single entry
    0.0.0.0/0. *)
Theorem updateFirewallRule_converges (sim : Sim.t) (tr : list Event)
    (lb : loadBalancer.t) (publicIPID : string) (publicPort : Z)
    (protocol : LoadBalancerProtocol) (allowedCIDRs : list string) :
  let run :=
    updateFirewallRule lb publicIPID publicPort protocol allowedCIDRs (mkWorld sim tr) in
  NoDup (FirewallRule.Id <$> Sim.firewallRules sim) →
  Forall (λ cidr, ContainsByte cidr ","%char = false) allowedCIDRs →
  (∀ id, Api (DeleteFirewallRule id) ∈ drop (length tr) (trace run.2) →
         Sim.deleteFirewallFails sim id = None) →
  run.1.2 = None →
  ∃ rule,
    filter (λ r, forIdentity publicIPID protocol publicPort r = true)
      (Sim.firewallRules (remote run.2)) = [rule]
    ∧ Split (FirewallRule.Cidrlist rule) ","%char ≡ₚ desiredCIDRs allowedCIDRs.
Proof.
  intros run. unfold run. clear run.
  intros Hnodup Hcomma Hasked.
  destruct (Sim.listFirewallFails sim) as [e|] eqn:Hlist.
  { unfold updateFirewallRule, mbind, M_bind, call, handle, simPlatform.
    cbn [Sim.handle remote trace]. by rewrite Hlist. }
  pose proof (updateFirewallRule_asks sim tr lb publicIPID publicPort protocol
                allowedCIDRs Hlist) as Hrequested.
  destruct (updateFirewallRule lb publicIPID publicPort protocol allowedCIDRs
              (mkWorld sim tr)) as [[changed err] w'] eqn:Hrun.
  cbn [fst snd] in *. intros ->.
  unfold updateFirewallRule in Hrun. rewrite desiredCIDRs_eq in Hrun.
  unfold mbind, M_bind, call at 1, handle, simPlatform in Hrun.
  cbn [Sim.handle remote trace] in Hrun.
  rewrite Hlist in Hrun.
  set (listed := filter (λ rule, FirewallRule.Ipaddressid rule = publicIPID)
                        (Sim.firewallRules sim)) in Hrun.
  fold (filteredEntries protocol publicPort listed) in Hrun.
  set (filtered := filteredEntries protocol publicPort listed) in Hrun.
  fold listed in Hrequested. fold filtered in Hrequested.
  rewrite deleteFiltered_succeed in Hrun
    by (intros entry Hentry; by apply Hasked, Hrequested).
  assert (NoDup (FirewallRule.Id <$> listed)) as Hnodup_listed.
  { eapply sublist_NoDup; [exact Hnodup|]. apply fmap_sublist, sublist_filter. }
  assert (∀ x, x ∈ Sim.firewallRules sim →
               forIdentity publicIPID protocol publicPort x = true →
               ∃ i, (i, x) ∈ filtered) as Hcovered.
  { intros x Hx [Hip Hport]%andb_true_iff. apply bool_decide_eq_true in Hip.
    assert (x ∈ listed) as [i Hi]%list_elem_of_lookup_1
      by (by apply list_elem_of_filter).
    exists i. by apply elem_of_filteredEntries. }
  destruct (head (filter (λ entry, cidrsMatch (desiredCIDRs allowedCIDRs) entry = true)
                         (rangeOrder filtered))) as [m|] eqn:Hhead.
  - unfold mret, M_ret in Hrun. injection Hrun as _ _ <-.
    cbn [remote Sim.firewallRules Sim.set_firewallRules].
    apply head_Some_elem_of, list_elem_of_filter in Hhead as [Hcidr Hm].
    rewrite rangeOrder_perm in Hm.
    pose proof Hm as [Hlm Hpm]%elem_of_filteredEntries.
    exists m.2. split; [|by apply compareStringSlice_Permutation].
    apply NoDup_singleton_ext.
    { apply NoDup_filter, NoDup_filter. by eapply NoDup_fmap_1. }
    intros x. rewrite !list_elem_of_filter. split.
    + intros (Hid & Hnot & Hx). destruct (Hcovered x Hx Hid) as [i Hi].
      destruct (decide (i = m.1)) as [->|Hne].
      * apply elem_of_filteredEntries in Hi as [Hi _]. cbn in Hi. congruence.
      * destruct Hnot. unfold ruleIds. apply list_elem_of_fmap. exists (i, x).
        split; [done|]. rewrite rangeOrder_perm. by apply list_elem_of_filter.
    + intros ->. split_and!.
      * unfold forIdentity. rewrite Hpm, andb_true_r. apply bool_decide_eq_true.
        apply list_elem_of_lookup_2 in Hlm. by apply list_elem_of_filter in Hlm as [? _].
      * unfold ruleIds. intros (e & Heq & He)%list_elem_of_fmap.
        rewrite rangeOrder_perm in He. apply list_elem_of_filter in He as [Hne He].
        apply elem_of_filteredEntries in He as [Hle _]. destruct Hne.
        eapply NoDup_lookup; [exact Hnodup_listed|..].
        -- rewrite list_lookup_fmap, Hle. done.
        -- rewrite list_lookup_fmap, Hlm. cbn. by rewrite Heq.
      * apply list_elem_of_lookup_2 in Hlm. by apply list_elem_of_filter in Hlm as [_ ?].
  - unfold call, handle, simPlatform in Hrun.
    cbn [Sim.handle remote trace Sim.createFirewallFails Sim.set_firewallRules] in Hrun.
    destruct (Sim.createFirewallFails sim) as [e|]; [done|].
    unfold mret, M_ret in Hrun. injection Hrun as _ <-.
    cbn [remote Sim.firewallRules Sim.set_firewallRules].
    eexists. rewrite filter_app. rewrite filter_none.
    + rewrite filter_cons_True, filter_nil; [split; [reflexivity|]|].
      * cbn [FirewallRule.Cidrlist].
        destruct (desiredCIDRs_no_comma allowedCIDRs Hcomma) as [Hne Hall].
        change "," with (String ","%char EmptyString).
        by rewrite Split_Join.
      * unfold forIdentity, matchesPort. cbn.
        by rewrite !bool_decide_eq_true_2.
    + intros x [Hnot Hx]%list_elem_of_filter Hid.
      destruct (Hcovered x Hx Hid) as [i Hi]. destruct Hnot.
      unfold ruleIds. apply list_elem_of_fmap. exists (i, x).
      split; [done|]. by rewrite rangeOrder_perm.
Qed.
End FirewallSettled.

(** ** The rule map during EnsureLoadBalancer *)

Lemma keyedByName_delete (rules : gmap string LoadBalancerRule.t) (key : string) :
  keyedByName rules → keyedByName (delete key rules).
Proof.
  intros Hkeyed k lbRule. rewrite lookup_delete. case_decide; [done|]. apply Hkeyed.
Qed.

Lemma lookup_foldl_delete {A} (f : A → string) (l : list A) :
  ∀ (rules : gmap string LoadBalancerRule.t) (key : string),
  foldl (λ rules a, delete (f a) rules) rules l !! key
  = if bool_decide (key ∈ f <$> l) then None else rules !! key.
Proof.
  induction l as [|a l IH]; intros rules key; cbn [foldl].
  - by rewrite bool_decide_eq_false_2 by apply not_elem_of_nil.
  - rewrite IH, fmap_cons, lookup_delete.
    destruct (decide (key ∈ f <$> l)) as [Hin|Hnin].
    + rewrite !bool_decide_eq_true_2; [done|by apply list_elem_of_further|done].
    + rewrite (bool_decide_eq_false_2 (key ∈ f <$> l)) by done.
      destruct (decide (f a = key)) as [<-|Hne].
      * by rewrite bool_decide_eq_true_2 by apply list_elem_of_here.
      * rewrite bool_decide_eq_false_2; [done|]. rewrite elem_of_cons. naive_solver.
Qed.

Lemma set_rules_same (lb : loadBalancer.t) :
  loadBalancer.set_rules lb (loadBalancer.rules lb) = lb.
Proof. by destruct lb. Qed.

Section RuleMap.
Context {mapRange : MapRange} {helpers : Helpers} {libraries : Libraries}.
Context {S : Type} {platform : Platform S}.

Lemma checkLoadBalancerRule_rules (lb : loadBalancer.t) (lbRuleName : string)
    (port : ServicePort.t) (protocol : LoadBalancerProtocol) (w : World S) :
  keyedByName (loadBalancer.rules lb) →
  let r := (checkLoadBalancerRule lb lbRuleName port protocol w).1 in
  r.2.2 = None →
  match r.2.1.1 with
  | Some _ => r.1 = lb
  | None =>
      r.1 = loadBalancer.set_rules lb (delete lbRuleName (loadBalancer.rules lb))
  end.
Proof.
  intros Hkeyed. cbn zeta. unfold checkLoadBalancerRule.
  destruct (loadBalancer.rules lb !! lbRuleName) as [lbRule|] eqn:Hlookup.
  - destruct (_ && _); [done|].
    unfold deleteLoadBalancerRule, mbind, M_bind, call.
    destruct (handle _ _) as [[err|] s1]; [done|]. cbn.
    by rewrite (Hkeyed _ _ Hlookup).
  - cbn. intros _. by rewrite delete_id, set_rules_same.
Qed.

Lemma updateOrCreateRule_rules (lb : loadBalancer.t) (lbRuleName : string)
    (port : ServicePort.t) (protocol : LoadBalancerProtocol)
    (lbRule : option LoadBalancerRule.t) (needsUpdate : bool) (w : World S) :
  let r := (updateOrCreateRule lb lbRuleName port protocol lbRule needsUpdate w).1 in
  (∀ err, r.2 ≠ inl err) →
  r.1 = match lbRule with
        | Some _ => loadBalancer.set_rules lb (delete lbRuleName (loadBalancer.rules lb))
        | None => lb
        end.
Proof.
  cbn zeta. unfold updateOrCreateRule, mbind, M_bind.
  destruct lbRule as [lbRule|].
  - destruct needsUpdate; [|done].
    destruct (updateLoadBalancerRule lb lbRuleName protocol w) as [[err|] w1]; [|done].
    cbn. intros Hok. by destruct (Hok err).
  - destruct (createLoadBalancerRule lb lbRuleName port protocol w) as [[err|created] w1].
    + cbn. intros Hok. by destruct (Hok err).
    + destruct (assignHostsToRule lb created (loadBalancer.hostIDs lb) w1) as [[err|] w2];
        [|done].
      cbn. intros Hok. by destruct (Hok err).
Qed.

Lemma ensurePort_rules (service : Service.t) (lb lb' : loadBalancer.t)
    (port : ServicePort.t) (w w' : World S) :
  keyedByName (loadBalancer.rules lb) →
  ensurePort service lb port w = ((lb', None), w') →
  lb' = loadBalancer.set_rules lb
          (delete (lbRuleName lb service port) (loadBalancer.rules lb)).
Proof.
  intros Hkeyed Hrun. unfold ensurePort in Hrun. unfold lbRuleName.
  set (protocol := ProtocolFromServicePort port service) in *.
  set (name := loadBalancer.name lb +:+ "-" +:+ ProtocolString protocol +:+ "-"
               +:+ pretty (ServicePort.Port port)) in *.
  destruct (bool_decide (protocol = LoadBalancerProtocolInvalid)); [done|].
  unfold mbind at 1, M_bind at 1 in Hrun.
  pose proof (checkLoadBalancerRule_rules lb name port protocol w Hkeyed) as Hcheck.
  destruct (checkLoadBalancerRule lb name port protocol w)
    as [[lb1 [[lbRule needsUpdate] [err|]]] w1]; [done|].
  cbn [fst snd] in Hcheck. specialize (Hcheck eq_refl).
  unfold mbind at 1, M_bind at 1 in Hrun.
  pose proof (updateOrCreateRule_rules lb1 name port protocol lbRule needsUpdate w1)
    as Hrule.
  destruct (updateOrCreateRule lb1 name port protocol lbRule needsUpdate w1)
    as [[lb2 [err|lbRule']] w2]; [done|].
  cbn [fst snd] in Hrule.
  assert (lb2 = loadBalancer.set_rules lb (delete name (loadBalancer.rules lb))) as ->.
  { rewrite Hrule by done. destruct lbRule; by subst lb1. }
  unfold mbind, M_bind in Hrun.
  destruct (call _ w2) as [[[err count]|network] w3]; [done|].
  destruct (getLoadBalancerSourceRanges service) as [err|lbSourceRanges]; [done|].
  destruct lbRule' as [created|]; [|by injection Hrun as <-].
  destruct (isFirewallSupported _); [|by injection Hrun as <-].
  destruct (updateFirewallRule _ _ _ _ _ _) as [[changed [err|]] w4]; [done|].
  by injection Hrun as <-.
Qed.

Lemma ensurePorts_rules (service : Service.t) (ports : list ServicePort.t) :
  ∀ (lb lb' : loadBalancer.t) (w w' : World S),
  keyedByName (loadBalancer.rules lb) →
  ensurePorts service lb ports w = ((lb', None), w') →
  lb' = loadBalancer.set_rules lb
          (foldl (λ rules port, delete (lbRuleName lb service port) rules)
                 (loadBalancer.rules lb) ports).
Proof.
  induction ports as [|port rest IH]; intros lb lb' w w' Hkeyed.
  - cbn. intros [= <- <-]. by rewrite set_rules_same.
  - cbn [ensurePorts foldl]. unfold mbind, M_bind.
    destruct (ensurePort service lb port w) as [[lb1 [err|]] w1] eqn:Hport; [done|].
    apply ensurePort_rules in Hport as ->; [|done].
    intros ->%IH; [|by apply keyedByName_delete]. by destruct lb.
Qed.

(** X17.  After the loop of [EnsureLoadBalancer] over the ports of the
    Service has gone through without error, the load balancer is what it
    was but for its rule map, which holds the rules it held before under
    the names that no port of the Service gives its rule; the name of
    the rule of a port is no longer in the map. *)
Theorem ensurePorts_leftover (service : Service.t) (lb lb' : loadBalancer.t)
    (ports : list ServicePort.t) (w : World S) :
  keyedByName (loadBalancer.rules lb) →
  (ensurePorts service lb ports w).1 = (lb', None) →
  lb' = loadBalancer.set_rules lb (loadBalancer.rules lb')
  ∧ ∀ key,
      loadBalancer.rules lb' !! key
      = if bool_decide (key ∈ lbRuleName lb service <$> ports) then None
        else loadBalancer.rules lb !! key.
Proof.
  intros Hkeyed Hrun.
  destruct (ensurePorts service lb ports w) as [r w'] eqn:Hports. cbn [fst] in Hrun.
  subst r. apply ensurePorts_rules in Hports as ->; [|done].
  split; [by destruct lb|]. intros key. cbn [loadBalancer.rules loadBalancer.set_rules].
  apply lookup_foldl_delete.
Qed.

(** *** The cleanup *)

Lemma lbRuleDeletions_app (t1 t2 : list Event) :
  lbRuleDeletions (t1 ++ t2) = lbRuleDeletions t1 ++ lbRuleDeletions t2.
Proof. apply omap_app. Qed.

Lemma isFirewallWork_quiet (new : list Event) :
  Forall (λ e, isFirewallWork e = true) new →
  lbRuleDeletions new = [] ∧ releases new = [].
Proof.
  induction 1 as [|e new He _ [IH1 IH2]]; [done|].
  unfold lbRuleDeletions, releases in *. cbn. rewrite IH1, IH2.
  by destruct e as [[]| |].
Qed.

Lemma deleteMatching_firewall_work (filtered : list FirewallRule.t) :
  ∀ deleted err,
  emits (S := S) (λ e, isFirewallWork e = true) (deleteMatching filtered deleted err).
Proof. induction filtered; intros deleted err; cbn [deleteMatching]; emits_go. Qed.

Lemma deleteFirewallRule_firewall_work lb publicIPID publicPort protocol :
  emits (S := S) (λ e, isFirewallWork e = true)
    (deleteFirewallRule lb publicIPID publicPort protocol).
Proof.
  pose proof deleteMatching_firewall_work as Hloop.
  unfold deleteFirewallRule. emits_go.
Qed.

Lemma deleteFirewallRule_quiet lb publicIPID publicPort protocol (w : World S) :
  let w' := (deleteFirewallRule lb publicIPID publicPort protocol w).2 in
  lbRuleDeletions (trace w') = lbRuleDeletions (trace w)
  ∧ releases (trace w') = releases (trace w).
Proof.
  cbn zeta.
  destruct (deleteFirewallRule_firewall_work lb publicIPID publicPort protocol w)
    as (new & -> & [Hdel Hrel]%isFirewallWork_quiet).
  by rewrite lbRuleDeletions_app, releases_app, Hdel, Hrel, !app_nil_r.
Qed.

Lemma deleteLoadBalancerRule_done (lb lb' : loadBalancer.t) (lbRule : LoadBalancerRule.t)
    (w w' : World S) :
  deleteLoadBalancerRule lb lbRule w = ((lb', None), w') →
  lb' = loadBalancer.set_rules lb
          (delete (LoadBalancerRule.Name lbRule) (loadBalancer.rules lb))
  ∧ trace w' = trace w ++ [Api (DeleteLoadBalancerRule (LoadBalancerRule.Id lbRule))].
Proof.
  unfold deleteLoadBalancerRule, mbind, M_bind, call.
  destruct (handle _ _) as [[err|] s1]; [done|]. by intros [= <- <-].
Qed.

Lemma cleanupRules_done (stale : list LoadBalancerRule.t) :
  ∀ (lb lb' : loadBalancer.t) (w w' : World S),
  cleanupRules lb stale w = ((lb', None), w') →
  loadBalancer.rules lb'
  = foldl (λ rules lbRule, delete (LoadBalancerRule.Name lbRule) rules)
          (loadBalancer.rules lb) stale
  ∧ lbRuleDeletions (trace w')
    = lbRuleDeletions (trace w) ++ (LoadBalancerRule.Id <$> stale)
  ∧ Forall (λ lbRule, knownProtocol lbRule
                      ∧ is_Some (ParseInt32 (LoadBalancerRule.Publicport lbRule))) stale.
Proof.
  induction stale as [|lbRule rest IH]; intros lb lb' w w'; cbn [cleanupRules].
  - intros [= <- <-]. by rewrite app_nil_r.
  - case_bool_decide as Hprotocol; [done|].
    destruct (ParseInt32 _) as [port|] eqn:Hport; [|done].
    unfold mbind at 1, M_bind at 1.
    pose proof (deleteFirewallRule_quiet lb (LoadBalancerRule.Publicipid lbRule) port
                  (ProtocolFromLoadBalancer (LoadBalancerRule.Protocol lbRule)) w)
      as [Hquiet _].
    destruct (deleteFirewallRule _ _ _ _ w) as [[deleted [err|]] w1]; [done|].
    unfold mbind at 1, M_bind at 1.
    destruct (deleteLoadBalancerRule lb lbRule w1) as [[lb1 [err|]] w2] eqn:Hdel; [done|].
    apply deleteLoadBalancerRule_done in Hdel as [-> Htrace].
    intros (-> & -> & Hall)%IH.
    cbn [fst snd foldl loadBalancer.rules loadBalancer.set_rules] in *.
    split_and!; [done| |].
    + rewrite Htrace, lbRuleDeletions_app, Hquiet, <- app_assoc. done.
    + constructor; [|done]. split; [done|]. by rewrite Hport.
Qed.

(** X18.  When the cleanup of [EnsureLoadBalancer] goes through without
    error, it has asked for the deletion of every rule that was left in
    the rule map, each once and in the order of the loop, and the map is
    empty; every one of these rules has a protocol the provider knows and
    a public port that reads as a number - a rule without makes the
    cleanup fail. *)
Theorem cleanupRules_deletes_all (lb lb' : loadBalancer.t) (w : World S) :
  let stale := (rangeOrder (map_to_list (loadBalancer.rules lb))).*2 in
  keyedByName (loadBalancer.rules lb) →
  (cleanupRules lb stale w).1 = (lb', None) →
  loadBalancer.rules lb' = ∅
  ∧ lbRuleDeletions (trace (cleanupRules lb stale w).2)
    = lbRuleDeletions (trace w) ++ (LoadBalancerRule.Id <$> stale)
  ∧ Forall (λ lbRule, knownProtocol lbRule
                      ∧ is_Some (ParseInt32 (LoadBalancerRule.Publicport lbRule))) stale.
Proof.
  intros stale Hkeyed Hrun.
  destruct (cleanupRules lb stale w) as [r w'] eqn:Hclean. cbn [fst snd] in *. subst r.
  apply cleanupRules_done in Hclean as (Hrules & Htrace & Hall). split; [|done].
  apply map_eq. intros key. rewrite Hrules, lookup_foldl_delete, lookup_empty.
  case_bool_decide as Hin; [done|].
  destruct (loadBalancer.rules lb !! key) as [lbRule|] eqn:Hlookup; [|done].
  destruct Hin. apply list_elem_of_fmap. exists lbRule. split; [by rewrite (Hkeyed _ _ Hlookup)|].
  unfold stale. apply list_elem_of_fmap. exists (key, lbRule). split; [done|].
  rewrite rangeOrder_perm. by apply elem_of_map_to_list.
Qed.
End RuleMap.

(** ** EnsureLoadBalancerDeleted *)

Section Teardown.
Context {mapRange : MapRange} {helpers : Helpers} {libraries : Libraries}.
Context {S : Type} {platform : Platform S}.





Lemma located_no_rules (lb : loadBalancer.t) (found : list LoadBalancerRule.t) :
  loadBalancer.rules (located lb found) = ∅ → found = [].
Proof.
  rewrite located_rules. intros Hempty. destruct found as [|a rest]; [done|].
  by apply (rulesByName_nonempty (a :: rest) (loadBalancer.rules lb)) in Hempty.
Qed.

(** X20.  When the lookup finds no rule, [EnsureLoadBalancerDeleted]
    returns no error and has sent nothing but the lookup: there is nothing
    to delete and no address to release. *)
Theorem EnsureLoadBalancerDeleted_absent (cs : CSCloud.t) (clusterName : string)
    (service : Service.t) (w : World S) (lb : loadBalancer.t) :
  let lookup :=
    getLoadBalancerByName cs (GetLoadBalancerName clusterName service)
      (getLoadBalancerLegacyName clusterName service) w in
  lookup.1 = inr lb →
  loadBalancer.rules lb = ∅ →
  EnsureLoadBalancerDeleted cs clusterName service w = (None, lookup.2).
Proof.
  intros lookup Hlookup Hrules.
  pose proof Hlookup as (n & found & _ & Hlb)%getLoadBalancerByName_located.
  assert (found = []) as -> by (apply (located_no_rules (emptyLoadBalancer cs n)); by subst lb).
  unfold EnsureLoadBalancerDeleted, mbind, M_bind. fold lookup.
  destruct lookup as [r w1]. cbn [fst snd] in *. subst r.
  rewrite Hrules, map_to_list_empty, rangeOrder_nil. by subst lb.
Qed.

(** *** The loop over the rules *)

Lemma deleteRules_done (entries : list (string * LoadBalancerRule.t)) :
  ∀ (lb lb' : loadBalancer.t) (w w' : World S),
  NoDup entries.*1 →
  (∀ key lbRule, (key, lbRule) ∈ entries → loadBalancer.rules lb !! key = Some lbRule) →
  keyedByName (loadBalancer.rules lb) →
  deleteRules lb entries w = ((lb', None), w') →
  lbRuleDeletions (trace w')
  = lbRuleDeletions (trace w)
    ++ (LoadBalancerRule.Id <$> filter knownProtocol entries.*2)
  ∧ releases (trace w') = releases (trace w)
  ∧ sameAddress lb lb'.
Proof.
  induction entries as [|[key lbRule] rest IH]; intros lb lb' w w' Hnodup Hentries Hkeyed.
  - cbn. intros [= <- <-]. by rewrite app_nil_r.
  - cbn [deleteRules]. rewrite fmap_cons in *. cbn [fst snd] in *.
    apply NoDup_cons in Hnodup as [Hkey Hnodup].
    pose proof (Hentries key lbRule (list_elem_of_here _ _)) as Hlookup.
    rewrite bool_decide_eq_false_2 by (by rewrite Hlookup).
    rewrite filter_cons. unfold knownProtocol at 1.
    assert (∀ k r, (k, r) ∈ rest → loadBalancer.rules lb !! k = Some r) as Hrest
      by (intros k r Hin; by apply Hentries, list_elem_of_further).
    case_bool_decide as Hprotocol.
    + rewrite decide_False by (by intros []).
      unfold mbind, M_bind, emit.
      intros (Hdel & Hrel & Haddr)%IH; [|done..]. cbn [trace] in *.
      rewrite lbRuleDeletions_app, releases_app in *. cbn in *.
      by rewrite !app_nil_r in *.
    + rewrite decide_True by done.
      lazymatch goal with |- mbind ?k _ w = _ → _ => set (rest_of_round := k) end.
      assert (∀ w1,
                lbRuleDeletions (trace w1) = lbRuleDeletions (trace w) →
                releases (trace w1) = releases (trace w) →
                rest_of_round None w1 = ((lb', None), w') →
                lbRuleDeletions (trace w')
                = lbRuleDeletions (trace w)
                  ++ (LoadBalancerRule.Id <$> lbRule :: filter knownProtocol rest.*2)
                ∧ releases (trace w') = releases (trace w)
                ∧ sameAddress lb lb') as Hround.
      { intros w1 Hdel1 Hrel1. unfold rest_of_round, mbind, M_bind.
        destruct (deleteLoadBalancerRule lb lbRule w1) as [[lb1 [err|]] w2] eqn:Hdelete;
          [done|].
        apply deleteLoadBalancerRule_done in Hdelete as [-> Htrace].
        rewrite (Hkeyed _ _ Hlookup) in *.
        intros (Hdel & Hrel & Haddr)%IH; [|done| |by apply keyedByName_delete].
        - rewrite Hdel, Hrel, Htrace, lbRuleDeletions_app, releases_app, Hdel1, Hrel1.
          cbn. rewrite app_nil_r, <- app_assoc. done.
        - intros k r Hin. cbn. rewrite lookup_delete_ne; [by apply Hrest|].
          intros <-. apply Hkey. apply list_elem_of_fmap. by exists (key, r). }
      destruct (ParseInt32 _) as [port|]; unfold mbind, M_bind.
      * pose proof (deleteFirewallRule_quiet lb (LoadBalancerRule.Publicipid lbRule) port
                      (ProtocolFromLoadBalancer (LoadBalancerRule.Protocol lbRule)) w)
          as [Hdel1 Hrel1].
        destruct (deleteFirewallRule _ _ _ _ w) as [[deleted [err|]] w0];
          cbn [fst snd mret M_ret] in *; [by unfold rest_of_round|].
        by apply Hround.
      * unfold emit, mret, M_ret. apply Hround; cbn [trace].
        -- rewrite lbRuleDeletions_app. cbn. by rewrite app_nil_r.
        -- rewrite releases_app. cbn. by rewrite app_nil_r.
Qed.

Lemma releaseLoadBalancerIP_trace (lb : loadBalancer.t) (w : World S) :
  trace (releaseLoadBalancerIP lb w).2
  = trace w ++ [Api (DisassociateIpAddress (loadBalancer.ipAddrID lb))].
Proof.
  unfold releaseLoadBalancerIP, mbind, M_bind, call.
  by destruct (handle _ _) as [[err|] s1].
Qed.

Lemma protocolErrors_app (t1 t2 : list Event) :
  protocolErrors (t1 ++ t2) = (protocolErrors t1 + protocolErrors t2)%nat.
Proof. unfold protocolErrors. by rewrite filter_app, length_app. Qed.

Lemma protocolErrors_none (new : list Event) :
  Forall (λ e, isProtocolError e = false) new → protocolErrors new = 0%nat.
Proof.
  induction 1 as [|e new He _ IH]; [done|].
  unfold protocolErrors in *. rewrite filter_cons_False; [done|]. by rewrite He.
Qed.

Lemma deleteMatching_no_protocol_error (filtered : list FirewallRule.t) :
  ∀ deleted err,
  emits (S := S) (λ e, isProtocolError e = false) (deleteMatching filtered deleted err).
Proof. induction filtered; intros deleted err; cbn [deleteMatching]; emits_go. Qed.

Lemma deleteFirewallRule_no_protocol_error lb publicIPID publicPort protocol (w : World S) :
  protocolErrors (trace (deleteFirewallRule lb publicIPID publicPort protocol w).2)
  = protocolErrors (trace w).
Proof.
  assert (emits (S := S) (λ e, isProtocolError e = false)
            (deleteFirewallRule lb publicIPID publicPort protocol)) as Hquiet.
  { pose proof deleteMatching_no_protocol_error as Hloop.
    unfold deleteFirewallRule. emits_go. }
  destruct (Hquiet w) as (new & -> & Hnone%protocolErrors_none).
  rewrite protocolErrors_app. lia.
Qed.

Lemma deleteRules_unknown_logged (entries : list (string * LoadBalancerRule.t)) :
  ∀ (lb lb' : loadBalancer.t) (w w' : World S),
  NoDup entries.*1 →
  (∀ key lbRule, (key, lbRule) ∈ entries → loadBalancer.rules lb !! key = Some lbRule) →
  keyedByName (loadBalancer.rules lb) →
  deleteRules lb entries w = ((lb', None), w') →
  protocolErrors (trace w')
  = (protocolErrors (trace w)
     + length (filter (λ lbRule, ¬ knownProtocol lbRule) entries.*2))%nat.
Proof.
  induction entries as [|[key lbRule] rest IH]; intros lb lb' w w' Hnodup Hentries Hkeyed.
  - cbn. intros [= <- <-]. lia.
  - cbn [deleteRules]. rewrite fmap_cons in *. cbn [fst snd] in *.
    apply NoDup_cons in Hnodup as [Hkey Hnodup].
    pose proof (Hentries key lbRule (list_elem_of_here _ _)) as Hlookup.
    rewrite bool_decide_eq_false_2 by (by rewrite Hlookup).
    rewrite filter_cons. unfold knownProtocol at 1.
    assert (∀ k r, (k, r) ∈ rest → loadBalancer.rules lb !! k = Some r) as Hrest
      by (intros k r Hin; by apply Hentries, list_elem_of_further).
    case_bool_decide as Hprotocol.
    + rewrite decide_True by (by intros []).
      unfold mbind, M_bind, emit.
      intros Hcount%IH; [|done..]. cbn [trace length] in *.
      rewrite Hcount, protocolErrors_app.
      change (protocolErrors [Klog LogError "Error parsing protocol: %v"]) with 1%nat.
      lia.
    + rewrite decide_False by (by intros []).
      lazymatch goal with |- mbind ?k _ w = _ → _ => set (rest_of_round := k) end.
      assert (∀ w1,
                protocolErrors (trace w1) = protocolErrors (trace w) →
                rest_of_round None w1 = ((lb', None), w') →
                protocolErrors (trace w')
                = (protocolErrors (trace w)
                   + length (filter (λ lbRule, ¬ knownProtocol lbRule) rest.*2))%nat)
        as Hround.
      { intros w1 Hcount1. unfold rest_of_round, mbind, M_bind.
        destruct (deleteLoadBalancerRule lb lbRule w1) as [[lb1 [err|]] w2] eqn:Hdelete;
          [done|].
        apply deleteLoadBalancerRule_done in Hdelete as [-> Htrace].
        rewrite (Hkeyed _ _ Hlookup) in *.
        intros Hcount%IH; [|done| |by apply keyedByName_delete].
        - rewrite Hcount, Htrace, protocolErrors_app, Hcount1.
          change (protocolErrors [Api (DeleteLoadBalancerRule (LoadBalancerRule.Id lbRule))])
            with 0%nat.
          lia.
        - intros k r Hin. cbn. rewrite lookup_delete_ne; [by apply Hrest|].
          intros <-. apply Hkey. apply list_elem_of_fmap. by exists (key, r). }
      destruct (ParseInt32 _) as [port|]; unfold mbind, M_bind.
      * pose proof (deleteFirewallRule_no_protocol_error lb
                      (LoadBalancerRule.Publicipid lbRule) port
                      (ProtocolFromLoadBalancer (LoadBalancerRule.Protocol lbRule)) w)
          as Hcount1.
        destruct (deleteFirewallRule _ _ _ _ w) as [[deleted [err|]] w0];
          cbn [fst snd mret M_ret] in *; [by unfold rest_of_round|].
        by apply Hround.
      * unfold emit, mret, M_ret. apply Hround; cbn [trace].
        rewrite protocolErrors_app.
        change (protocolErrors [Klog LogError "Error parsing port: %v"]) with 0%nat. lia.
Qed.

Lemma collectRules_no_protocol_error (found : list LoadBalancerRule.t) :
  ∀ lb, emits (S := S) (λ e, isProtocolError e = false) (collectRules lb found).
Proof. induction found; intros lb; cbn [collectRules]; emits_go. Qed.

Lemma getLoadBalancerByName_no_protocol_error cs name legacyName :
  emits (S := S) (λ e, isProtocolError e = false)
    (getLoadBalancerByName cs name legacyName).
Proof.
  pose proof collectRules_no_protocol_error as Hloop.
  unfold getLoadBalancerByName. emits_go.
Qed.

(** X21.  When [EnsureLoadBalancerDeleted] returns no error, it has
    asked for the deletion of every located rule whose protocol it knows,
    each once and in the order of the loop, and of no other rule; for
    every rule with another protocol it has written one line on the
    protocol to the error log.  When the located load balancer has an
    address, the release of that address is the last request of the call
    and the only release; without an address, nothing is released. *)
Theorem EnsureLoadBalancerDeleted_deletes (cs : CSCloud.t) (clusterName : string)
    (service : Service.t) (w : World S) (lb : loadBalancer.t) :
  let lookup :=
    getLoadBalancerByName cs (GetLoadBalancerName clusterName service)
      (getLoadBalancerLegacyName clusterName service) w in
  let run := EnsureLoadBalancerDeleted cs clusterName service w in
  let known :=
    filter knownProtocol (rangeOrder (map_to_list (loadBalancer.rules lb))).*2 in
  lookup.1 = inr lb →
  run.1 = None →
  lbRuleDeletions (trace run.2)
  = lbRuleDeletions (trace w) ++ (LoadBalancerRule.Id <$> known)
  ∧ protocolErrors (trace run.2)
    = (protocolErrors (trace w)
       + length (filter (λ lbRule, ¬ knownProtocol lbRule)
                   (rangeOrder (map_to_list (loadBalancer.rules lb))).*2))%nat
  ∧ (loadBalancer.ipAddr lb ≠ "" →
     last (trace run.2) = Some (Api (DisassociateIpAddress (loadBalancer.ipAddrID lb)))
     ∧ releases (trace run.2) = releases (trace w) ++ [loadBalancer.ipAddrID lb])
  ∧ (loadBalancer.ipAddr lb = "" → releases (trace run.2) = releases (trace w)).
Proof.
  intros lookup run known Hlookup.
  pose proof Hlookup as (n & found & _ & Hlb)%getLoadBalancerByName_located.
  assert (keyedByName (loadBalancer.rules lb)) as Hkeyed.
  { subst lb. rewrite located_rules. apply rulesByName_keyed.
    intros key lbRule. cbn. by rewrite lookup_empty. }
  pose proof (getLoadBalancerByName_emits cs (GetLoadBalancerName clusterName service)
                (getLoadBalancerLegacyName clusterName service) w) as (new & Hnew & Hinternal).
  pose proof (getLoadBalancerByName_lookups cs (GetLoadBalancerName clusterName service)
                (getLoadBalancerLegacyName clusterName service) w) as (new' & Hnew' & Hlookups).
  subst lookup. rewrite Hnew in Hnew'. apply app_inv_head in Hnew'. subst new'.
  assert (protocolErrors new = 0%nat) as Hquiet.
  { pose proof (getLoadBalancerByName_no_protocol_error cs
                  (GetLoadBalancerName clusterName service)
                  (getLoadBalancerLegacyName clusterName service) w)
      as (new' & Hnew' & Hall).
    rewrite Hnew in Hnew'. apply app_inv_head in Hnew'. subst new'.
    by apply protocolErrors_none. }
  assert (lbRuleDeletions new = []) as Hnone.
  { clear -Hlookups. induction Hlookups as [|e l He _ IH]; [done|].
    unfold lbRuleDeletions in *. cbn. rewrite IH. by destruct e as [[]| |]. }
  set (entries := rangeOrder (map_to_list (loadBalancer.rules lb))).
  destruct (getLoadBalancerByName cs _ _ w) as [r w1] eqn:Hfound.
  cbn [fst snd] in *. subst r.
  destruct (deleteRules lb entries w1) as [[lb1 err] w2] eqn:Hloop.
  assert (run = match err with
                | Some err => (Some err, w2)
                | None =>
                    if negb (bool_decide (loadBalancer.ipAddr lb1 = ""))
                    then releaseLoadBalancerIP lb1 w2 else (None, w2)
                end) as Hrun.
  { unfold run, EnsureLoadBalancerDeleted, mbind, M_bind. rewrite Hfound.
    cbv beta iota. fold entries. rewrite Hloop.
    destruct err; [done|]. by destruct (negb _). }
  clearbody run. subst run. destruct err as [err|]; [by cbn|].
  assert (NoDup entries.*1) as Hnodup.
  { unfold entries. eapply NoDup_Permutation_proper;
      [apply fmap_Permutation, rangeOrder_perm|]. apply NoDup_fst_map_to_list. }
  assert (∀ key lbRule, (key, lbRule) ∈ entries →
            loadBalancer.rules lb !! key = Some lbRule) as Hentries.
  { intros key lbRule Hin. unfold entries in Hin. rewrite rangeOrder_perm in Hin.
    by apply elem_of_map_to_list. }
  pose proof (deleteRules_unknown_logged entries lb lb1 w1 w2 Hnodup Hentries Hkeyed Hloop)
    as Hlogged.
  rewrite Hnew, protocolErrors_app, Hquiet, Nat.add_0_r in Hlogged.
  apply deleteRules_done in Hloop as (Hdel & Hrel & Hip & Hid); [|done..].
  - rewrite Hnew, lbRuleDeletions_app, Hnone, app_nil_r in Hdel.
    rewrite Hnew, releases_app, (releases_internal new Hinternal), app_nil_r in Hrel.
    fold known in Hdel. rewrite Hip.
    destruct (bool_decide (loadBalancer.ipAddr lb = "")) eqn:Hempty; cbn [negb].
    + apply bool_decide_eq_true in Hempty. intros _. cbn [snd]. by split_and!.
    + apply bool_decide_eq_false in Hempty.
      pose proof (releaseLoadBalancerIP_trace lb1 w2) as Htrace. rewrite Hid in Htrace.
      intros _.
      rewrite Htrace, lbRuleDeletions_app, releases_app, protocolErrors_app, last_snoc,
        Hdel, Hrel, Hlogged.
      change (protocolErrors [Api (DisassociateIpAddress (loadBalancer.ipAddrID lb))])
        with 0%nat.
      cbn. rewrite app_nil_r, Nat.add_0_r. by split_and!.
Qed.

Lemma deleteRules_no_release (entries : list (string * LoadBalancerRule.t)) :
  ∀ lb, emits (S := S) internal (deleteRules lb entries).
Proof.
  pose proof (deleteFirewallRule_emits (S := S)) as Hfirewall.
  induction entries as [|[key lbRule] rest IH]; intros lb; cbn [deleteRules];
    unfold deleteLoadBalancerRule; emits_go.
Qed.

(** X22.  When [EnsureLoadBalancerDeleted] fails, either the error is
    that of the release of the address, or no release has been sent: as
    long as the lookup or the deletion of a rule fails, the address is
    kept. *)
Theorem EnsureLoadBalancerDeleted_keeps_address (cs : CSCloud.t) (clusterName : string)
    (service : Service.t) (w : World S) (e : GoError) :
  let run := EnsureLoadBalancerDeleted cs clusterName service w in
  run.1 = Some e →
  releases (trace run.2) = releases (trace w)
  ∨ ∃ failure, e = Errorf "error releasing load balancer IP %v: %w" (Some failure).
Proof.
  intros run.
  pose proof (emits_releases _ w
                (getLoadBalancerByName_emits cs (GetLoadBalancerName clusterName service)
                   (getLoadBalancerLegacyName clusterName service))) as Hrel0.
  destruct (getLoadBalancerByName cs _ _ w) as [[err|lb] w1] eqn:Hfound; cbn [snd] in Hrel0.
  { assert (run = (Some err, w1)) as ->; [|by left].
    unfold run, EnsureLoadBalancerDeleted, mbind, M_bind. by rewrite Hfound. }
  set (entries := rangeOrder (map_to_list (loadBalancer.rules lb))).
  pose proof (emits_releases _ w1 (deleteRules_no_release entries lb)) as Hrel1.
  destruct (deleteRules lb entries w1) as [[lb1 err] w2] eqn:Hloop. cbn [snd] in Hrel1.
  assert (run = match err with
                | Some err => (Some err, w2)
                | None =>
                    if negb (bool_decide (loadBalancer.ipAddr lb1 = ""))
                    then releaseLoadBalancerIP lb1 w2 else (None, w2)
                end) as ->.
  { unfold run, EnsureLoadBalancerDeleted, mbind, M_bind. rewrite Hfound.
    cbv beta iota. fold entries. rewrite Hloop.
    destruct err; [done|]. by destruct (negb _). }
  destruct err as [err|].
  { intros _. left. cbn. congruence. }
  destruct (negb _); [|done].
  unfold releaseLoadBalancerIP, mbind, M_bind, call.
  destruct (handle _ _) as [[failure|] s3]; [|done].
  intros [= <-]. right. by exists failure.
Qed.
End Teardown.

(** ** The requests of EnsureLoadBalancer *)

Section EnsureRequests.
Context {mapRange : MapRange} {helpers : Helpers} {libraries : Libraries}.
Context {S : Type} {platform : Platform S}.

Lemma deleteLoadBalancerRule_rule_work lb lbRule :
  emits (S := S) ruleWork (deleteLoadBalancerRule lb lbRule).
Proof. unfold deleteLoadBalancerRule. emits_go. Qed.
Hint Resolve deleteLoadBalancerRule_rule_work : emits.

Lemma checkLoadBalancerRule_rule_work lb lbRuleName port protocol :
  emits (S := S) ruleWork (checkLoadBalancerRule lb lbRuleName port protocol).
Proof. unfold checkLoadBalancerRule. emits_go. Qed.
Hint Resolve checkLoadBalancerRule_rule_work : emits.

Lemma updateOrCreateRule_rule_work lb lbRuleName port protocol lbRule needsUpdate :
  emits (S := S) ruleWork
    (updateOrCreateRule lb lbRuleName port protocol lbRule needsUpdate).
Proof.
  unfold updateOrCreateRule, updateLoadBalancerRule, createLoadBalancerRule,
    assignHostsToRule.
  emits_go.
Qed.
Hint Resolve updateOrCreateRule_rule_work : emits.

Lemma deleteFiltered_rule_work (filtered : list (nat * FirewallRule.t)) :
  ∀ err, emits (S := S) ruleWork (deleteFiltered filtered err).
Proof. induction filtered; intros err; cbn [deleteFiltered]; emits_go. Qed.
Hint Resolve deleteFiltered_rule_work : emits.

Lemma updateFirewallRule_rule_work lb publicIPID publicPort protocol allowedCIDRs :
  emits (S := S) ruleWork
    (updateFirewallRule lb publicIPID publicPort protocol allowedCIDRs).
Proof.
  unfold updateFirewallRule. rewrite desiredCIDRs_eq.
  assert (emits (S := S) ruleWork
            (call (CreateFirewallRule publicIPID (IPProtocol protocol)
                     (desiredCIDRs allowedCIDRs) publicPort publicPort))) as Hcreate.
  { apply emits_call. split; [done|]. split; [|done]. by destruct allowedCIDRs. }
  repeat first [exact Hcreate | emits_step].
Qed.
Hint Resolve updateFirewallRule_rule_work : emits.

Lemma deleteMatching_rule_work (filtered : list FirewallRule.t) :
  ∀ deleted err, emits (S := S) ruleWork (deleteMatching filtered deleted err).
Proof. induction filtered; intros deleted err; cbn [deleteMatching]; emits_go. Qed.
Hint Resolve deleteMatching_rule_work : emits.

Lemma deleteFirewallRule_rule_work lb publicIPID publicPort protocol :
  emits (S := S) ruleWork (deleteFirewallRule lb publicIPID publicPort protocol).
Proof. unfold deleteFirewallRule. emits_go. Qed.
Hint Resolve deleteFirewallRule_rule_work : emits.

Lemma ensurePort_rule_work service lb port :
  emits (S := S) ruleWork (ensurePort service lb port).
Proof. unfold ensurePort. emits_go. Qed.
Hint Resolve ensurePort_rule_work : emits.

Lemma ensurePorts_rule_work service (ports : list ServicePort.t) :
  ∀ lb, emits (S := S) ruleWork (ensurePorts service lb ports).
Proof. induction ports; intros lb; cbn [ensurePorts]; emits_go. Qed.
Hint Resolve ensurePorts_rule_work : emits.

Lemma cleanupRules_rule_work (stale : list LoadBalancerRule.t) :
  ∀ lb, emits (S := S) ruleWork (cleanupRules lb stale).
Proof. induction stale; intros lb; cbn [cleanupRules]; emits_go. Qed.
Hint Resolve cleanupRules_rule_work : emits.

Lemma ensureRules_rule_work service lb : emits (S := S) ruleWork (ensureRules service lb).
Proof. unfold ensureRules. emits_go. Qed.

Lemma isLookup_wellFormed (e : Event) : isLookup e = true → wellFormedRequest e.
Proof. by destruct e as [[]| |]. Qed.

(** X23.  Whatever the Service and the platform, every load-balancer rule
    [EnsureLoadBalancer] asks to create is created without opening the
    firewall, and every firewall rule it asks to create is for one port
    and carries at least one CIDR. *)
Theorem EnsureLoadBalancer_creations (cs : CSCloud.t) (clusterName : string)
    (service : Service.t) (nodes : list Node.t) (w : World S) :
  ∃ new,
    trace (EnsureLoadBalancer cs clusterName service nodes w).2 = trace w ++ new
    ∧ Forall wellFormedRequest new.
Proof.
  revert w. change (emits wellFormedRequest
                      (EnsureLoadBalancer cs clusterName service nodes)).
  pose proof (emits_weaken _ _ _ isLookup_wellFormed
                (locateAndVerify_lookups (S := S) cs clusterName service nodes)) as Hlocate.
  pose proof (λ s lb, emits_weaken ruleWork wellFormedRequest _
                        (λ e (He : ruleWork e), proj2 He)
                        (ensureRules_rule_work s lb)) as Hrules.
  unfold EnsureLoadBalancer, ensureLoadBalancer, ensureWithAddress, getLoadBalancerIP,
    getPublicIPAddress, associatePublicIPAddress, deferredRelease, releaseLoadBalancerIP,
    Patch, patchService.
  emits_go.
Qed.

Lemma isLookup_not_associate (e : Event) : isLookup e = true → isAssociate e = false.
Proof. by destruct e as [[]| |]. Qed.

Lemma ruleWork_not_associate (e : Event) : ruleWork e → isAssociate e = false.
Proof. intros [He _]. by destruct e as [[]| |]. Qed.

Lemma getLoadBalancerIP_looked_up (lb : loadBalancer.t) (loadBalancerIP : string) :
  loadBalancerIP ≠ "" →
  emits (S := S) (λ e, isAssociate e = false) (getLoadBalancerIP lb loadBalancerIP).
Proof.
  intros Hrequested. unfold getLoadBalancerIP.
  rewrite bool_decide_eq_false_2 by done. cbn [negb].
  unfold getPublicIPAddress. emits_go.
Qed.

(** X24.  For a Service that asks for an address of its own
    ([Spec.LoadBalancerIP] is set), [EnsureLoadBalancer] never asks the
    platform to associate a new address. *)
Theorem EnsureLoadBalancer_requested_address (cs : CSCloud.t) (clusterName : string)
    (service : Service.t) (nodes : list Node.t) (w : World S) :
  ServiceSpec.LoadBalancerIP (Service.Spec service) ≠ "" →
  ∃ new,
    trace (EnsureLoadBalancer cs clusterName service nodes w).2 = trace w ++ new
    ∧ Forall (λ e, isAssociate e = false) new.
Proof.
  intros Hrequested. revert w.
  change (emits (λ e, isAssociate e = false)
            (EnsureLoadBalancer cs clusterName service nodes)).
  pose proof (emits_weaken _ _ _ isLookup_not_associate
                (locateAndVerify_lookups (S := S) cs clusterName service nodes)) as Hlocate.
  pose proof (λ s lb, emits_weaken _ _ _ ruleWork_not_associate
                        (ensureRules_rule_work s lb)) as Hrules.
  pose proof (λ lb, getLoadBalancerIP_looked_up lb _ Hrequested) as Haddress.
  unfold EnsureLoadBalancer, ensureLoadBalancer, ensureWithAddress, deferredRelease,
    releaseLoadBalancerIP, Patch, patchService.
  emits_go.
Qed.

Lemma ensureWithAddress_rule_work (service : Service.t) (lb : loadBalancer.t) :
  hasLoadBalancerIP lb = true →
  emits (S := S) (λ e, isRuleWork e = true) (ensureWithAddress service lb).
Proof.
  intros Hhas.
  pose proof (λ s l, emits_weaken ruleWork (λ e, isRuleWork e = true) _
                       (λ e (He : ruleWork e), proj1 He)
                       (ensureRules_rule_work s l)) as Hrules.
  unfold ensureWithAddress. rewrite Hhas. cbn [negb]. emits_go.
Qed.

Lemma Patch_patches (sp : servicePatcher.t) (updated : Service.t) (err : option GoError) :
  emits (S := S) (λ e, isPatch e = true) (Patch sp updated err).
Proof. unfold Patch, patchService. emits_go. Qed.

(** X25.  When the load balancer that was located has an address, what
    [EnsureLoadBalancer] sends once the hosts are checked is the work on
    the rules and the patch of the Service: it looks up, associates and
    releases no address, lists no rule and no virtual machine, and does
    not record that a load balancer was created. *)
Theorem EnsureLoadBalancer_existing_address (cs : CSCloud.t) (clusterName : string)
    (service : Service.t) (nodes : list Node.t) (w w0 : World S) (lb : loadBalancer.t) :
  ServiceSpec.Ports (Service.Spec service) ≠ [] →
  locateAndVerify cs clusterName service nodes w = (inr lb, w0) →
  hasLoadBalancerIP lb = true →
  ∃ new,
    trace (EnsureLoadBalancer cs clusterName service nodes w).2 = trace w0 ++ new
    ∧ Forall (λ e, isRuleWork e = true ∨ isPatch e = true) new.
Proof.
  intros Hports Hlocate Hhas. rewrite EnsureLoadBalancer_unfold by done. cbn zeta.
  assert (ensureLoadBalancer cs clusterName service nodes w
          = ensureWithAddress service lb w0) as ->.
  { unfold ensureLoadBalancer, mbind, M_bind. by rewrite Hlocate. }
  destruct (ensureWithAddress_rule_work service lb Hhas w0) as (new1 & Htrace1 & Hall1).
  destruct (ensureWithAddress service lb w0) as [[[service' status'] err'] w1].
  cbn [fst snd] in *.
  destruct (Patch_patches (newServicePatcher service) service' err' w1)
    as (new2 & Htrace2 & Hall2).
  exists (new1 ++ new2). rewrite Htrace2, Htrace1, app_assoc. split; [done|].
  apply Forall_app. split; eapply Forall_impl; eauto.
Qed.
End EnsureRequests.

(** ** Source ranges *)

Section SourceRanges.
Context {libraries : Libraries}.

(** X26.  The source ranges of the spec come first: when the Service
    lists source ranges in its spec, the annotations play no part in what
    [getLoadBalancerSourceRanges] returns.  When it lists none and the
    annotation is absent or blank, the ranges are those of the one entry
    0.0.0.0/0. *)
Theorem getLoadBalancerSourceRanges_spec_first (service : Service.t) :
  (ServiceSpec.LoadBalancerSourceRanges (Service.Spec service) ≠ [] →
   ∀ annotations,
     getLoadBalancerSourceRanges
       (Service.mk (Service.Namespace service) (Service.Name service) annotations
          (Service.Spec service))
     = getLoadBalancerSourceRanges service)
  ∧ (ServiceSpec.LoadBalancerSourceRanges (Service.Spec service) = [] →
     TrimSpace (default "" (annotation service AnnotationLoadBalancerSourceRangesKey)) = "" →
     getLoadBalancerSourceRanges service
     = match ParseIPNets [defaultAllowedCIDR] with
       | inl _ =>
           inl (Errorf "%s: %s is not valid. Expecting a comma-separated list of source IP ranges. For example, 10.0.0.0/24,192.168.2.0/24" None)
       | inr ipnets => inr ipnets
       end).
Proof.
  unfold getLoadBalancerSourceRanges. split.
  - intros Hspec annotations. cbn [Service.Spec].
    destruct (ServiceSpec.LoadBalancerSourceRanges (Service.Spec service)); [done|].
    by rewrite !bool_decide_eq_true_2 by (cbn; lia).
  - intros -> Hblank. cbn zeta. rewrite Hblank.
    rewrite bool_decide_eq_false_2 by (cbn; lia).
    by rewrite bool_decide_eq_true_2.
Qed.
End SourceRanges.

(** ** A rule that is up to date *)

Section UpToDate.
Context {mapRange : MapRange} {helpers : Helpers} {libraries : Libraries}.
Context {S : Type} {platform : Platform S}.

Lemma isFirewallRound_rules_untouched (e : Event) :
  isFirewallRound e = true → isFirewallRound e = true ∧ touchesLbRule e = false.
Proof. by destruct e as [[]| |]. Qed.

Lemma deleteFiltered_firewall_round (filtered : list (nat * FirewallRule.t)) :
  ∀ err, emits (S := S) (λ e, isFirewallRound e = true) (deleteFiltered filtered err).
Proof. induction filtered; intros err; cbn [deleteFiltered]; emits_go. Qed.

Lemma updateFirewallRule_firewall_round lb publicIPID publicPort protocol allowedCIDRs :
  emits (S := S) (λ e, isFirewallRound e = true)
    (updateFirewallRule lb publicIPID publicPort protocol allowedCIDRs).
Proof.
  pose proof deleteFiltered_firewall_round as Hloop.
  unfold updateFirewallRule. emits_go.
Qed.

(** X27.  A round of [EnsureLoadBalancer] for a port whose rule is there
    and up to date - public IP, private port, public port, algorithm and
    protocol are those wanted - sends the lookup of the network and
    requests on firewall rules, writes to the log or warns that the source
    ranges are ignored, and nothing else: no request on a load-balancer
    rule, so the rule is not created again, not updated, not deleted, and
    no host is assigned.  The name of the rule leaves the rule map. *)
Theorem ensurePort_up_to_date (service : Service.t) (lb : loadBalancer.t)
    (port : ServicePort.t) (lbRule : LoadBalancerRule.t) (w : World S) :
  let protocol := ProtocolFromServicePort port service in
  protocol ≠ LoadBalancerProtocolInvalid →
  loadBalancer.rules lb !! lbRuleName lb service port = Some lbRule →
  immutableFieldsMatch lb port lbRule →
  LoadBalancerRule.Algorithm lbRule = loadBalancer.algorithm lb →
  LoadBalancerRule.Protocol lbRule = CSProtocol protocol →
  (∃ new,
     trace (ensurePort service lb port w).2 = trace w ++ new
     ∧ Forall (λ e, isFirewallRound e = true ∧ touchesLbRule e = false) new)
  ∧ loadBalancer.rules (ensurePort service lb port w).1.1
    = delete (lbRuleName lb service port) (loadBalancer.rules lb).
Proof.
  intros protocol Hprotocol Hlookup (Hip & Hprivate & Hpublic) Halgorithm Hcs.
  unfold lbRuleName in *. fold protocol in Hlookup |- *.
  set (name := loadBalancer.name lb +:+ "-" +:+ ProtocolString protocol +:+ "-"
               +:+ pretty (ServicePort.Port port)) in *.
  set (lb1 := loadBalancer.set_rules lb
                (delete name (loadBalancer.rules lb))).
  assert (ensurePort service lb port w
          = (n ← call (GetNetworkByID (loadBalancer.networkID lb1)
                         (loadBalancer.projectID lb1));
             match n with
             | inl (err, _) => mret (lb1, Some err)
             | inr network =>
                 match getLoadBalancerSourceRanges service with
                 | inl err => mret (lb1, Some err)
                 | inr lbSourceRanges =>
                     if isFirewallSupported (Network.Service network) then
                       '(_, err) ← updateFirewallRule lb1 (LoadBalancerRule.Publicipid lbRule)
                                     (ServicePort.Port port) protocol
                                     (StringSlice lbSourceRanges);
                       mret (lb1, err)
                     else
                       _ ← emit (RecordEvent EventTypeWarning "LoadBalancerSourceRangesIgnored");
                       _ ← emit (Klog LogWarning "LoadBalancerSourceRanges are ignored for Service %s because this CloudStack network does not support it");
                       mret (lb1, None)
                 end
             end) w) as ->.
  { unfold ensurePort. cbv zeta. fold protocol. fold name.
    rewrite bool_decide_eq_false_2 by done.
    unfold checkLoadBalancerRule. rewrite Hlookup.
    rewrite !bool_decide_eq_true_2 by done. cbn [andb negb orb].
    unfold mbind at 1, M_bind at 1, mret at 1, M_ret at 1. cbv beta iota.
    unfold updateOrCreateRule. unfold mbind at 1, M_bind at 1, mret at 1, M_ret at 1.
    reflexivity. }
  split.
  - revert w. apply (emits_weaken _ _ _ isFirewallRound_rules_untouched).
    change (emits (λ e, isFirewallRound e = true)
                        (n ← call (GetNetworkByID (loadBalancer.networkID lb1)
                                     (loadBalancer.projectID lb1));
                         match n with
                         | inl (err, _) => mret (lb1, Some err)
                         | inr network =>
                             match getLoadBalancerSourceRanges service with
                             | inl err => mret (lb1, Some err)
                             | inr lbSourceRanges =>
                                 if isFirewallSupported (Network.Service network) then
                                   '(_, err) ← updateFirewallRule lb1
                                                 (LoadBalancerRule.Publicipid lbRule)
                                                 (ServicePort.Port port) protocol
                                                 (StringSlice lbSourceRanges);
                                   mret (lb1, err)
                                 else
                                   _ ← emit (RecordEvent EventTypeWarning
                                               "LoadBalancerSourceRangesIgnored");
                                   _ ← emit (Klog LogWarning "LoadBalancerSourceRanges are ignored for Service %s because this CloudStack network does not support it");
                                   mret (lb1, None)
                             end
                         end)).
    pose proof updateFirewallRule_firewall_round as Hfirewall. emits_go.
  - unfold mbind, M_bind.
    destruct (call _ w) as [[[err count]|network] w1]; [done|].
    destruct (getLoadBalancerSourceRanges service) as [err|lbSourceRanges]; [done|].
    destruct (isFirewallSupported _); [|done].
    by destruct (updateFirewallRule _ _ _ _ _ _) as [[changed err] w2].
Qed.
End UpToDate.

(** ** The properties on sample runs *)

Lemma verifyHosts_first_label_witness :
  "vm-2" ∈ ["vm-1"; "vm-2"]
  ↔ ∃ vm node,
      vm ∈ sampleVMs ∧ node ∈ sampleNodes ∧ VirtualMachine.Id vm = "vm-2"
      ∧ VirtualMachine.Nic vm ≠ []
      ∧ ToLower (VirtualMachine.Name vm) = hd "" (Split (ToLower (Node.Name node)) "."%char).
Proof.
  apply (verifyHosts_first_label (CSCloud.mk "") sampleNodes
           (mkWorld (simWithVMs sampleVMs) []) sampleVMs ["vm-1"; "vm-2"] "net-1").
  - reflexivity.
  - vm_compute. reflexivity.
Defined.

Lemma getLoadBalancerByName_keys_witness :
  let lookup :=
    getLoadBalancerByName (CSCloud.mk "") "K8s_svc_kube_default_web" "aweb"
      (mkWorld (sampleSim twoAddresses [] refuseNone) []) in
  let lb := match lookup.1 with inr lb => lb | inl _ => sampleLB end in
  keyedByName (loadBalancer.rules lb)
  ∧ (loadBalancer.rules lb = ∅ →
     loadBalancer.ipAddr lb = "" ∧ loadBalancer.ipAddrID lb = "")
  ∧ (loadBalancer.rules lb ≠ ∅ →
     ∃ lbRule,
       loadBalancer.rules lb !! LoadBalancerRule.Name lbRule = Some lbRule
       ∧ loadBalancer.ipAddr lb = LoadBalancerRule.Publicip lbRule
       ∧ loadBalancer.ipAddrID lb = LoadBalancerRule.Publicipid lbRule)
  ∧ (loadBalancer.name lb = "K8s_svc_kube_default_web" ∨ loadBalancer.name lb = "aweb")
  ∧ loadBalancer.projectID lb = "".
Proof.
  intros lookup lb.
  apply (getLoadBalancerByName_keys (CSCloud.mk "") "K8s_svc_kube_default_web" "aweb"
           (mkWorld (sampleSim twoAddresses [] refuseNone) []) lb).
  vm_compute. reflexivity.
Defined.

Lemma updateRuleHosts_in_sync_witness :
  let lbRules := [sampleRule "web-tcp-80" "203.0.113.10" "ip-1";
                  sampleRule "web-tcp-443" "203.0.113.10" "ip-1"] in
  let run := updateRuleHosts (mapRange := insertionOrder) sampleLB lbRules
               (mkWorld inSyncSim []) in
  run.1 = None
  ∧ trace run.2
    = [] ++ ((λ lbRule, Api (ListLoadBalancerRuleInstances (LoadBalancerRule.Id lbRule)))
             <$> lbRules).
Proof.
  intros lbRules run.
  apply (updateRuleHosts_in_sync (mapRange := insertionOrder)
           (λ sim, Sim.script sim = inSyncScript) sampleLB lbRules (mkWorld inSyncSim [])).
  - intros id sim Hscript. split; [exact Hscript|].
    exists [sampleInstance "vm-1"; sampleInstance "vm-2"].
    unfold handle, simPlatform. cbn [Sim.handle fst]. rewrite Hscript.
    split; [reflexivity|]. split; [|done].
    apply (bool_decide_unpack _). vm_compute. exact I.
  - reflexivity.
Defined.

Lemma EnsureLoadBalancer_status_witness :
  let run :=
    EnsureLoadBalancer (mapRange := insertionOrder) (helpers := sampleHelpers)
      (libraries := sampleLibraries) (CSCloud.mk "") "kube" sampleService sampleNodes
      (mkWorld (sampleSim noRules [] refuseNone) []) in
  let hostname :=
    getStringFromServiceAnnotation sampleService
      ServiceAnnotationLoadBalancerLoadbalancerHostname "" in
  ∃ ip,
    annotation run.1.1.1 ServiceAnnotationLoadBalancerAddress = Some ip
    ∧ run.1.1.2
      = Some (LoadBalancerStatus.mk
                [if bool_decide (hostname = "") then LoadBalancerIngress.mk ip ""
                 else LoadBalancerIngress.mk "" hostname]).
Proof.
  apply (EnsureLoadBalancer_status (mapRange := insertionOrder) (helpers := sampleHelpers)
           (libraries := sampleLibraries) (CSCloud.mk "") "kube" sampleService sampleNodes
           (mkWorld (sampleSim noRules [] refuseNone) [])).
  vm_compute. reflexivity.
Defined.

Lemma EnsureLoadBalancer_early_failure_witness :
  let w := mkWorld (sampleSim noRules [] refuseNone) [] in
  let run :=
    EnsureLoadBalancer (mapRange := insertionOrder) (helpers := sampleHelpers)
      (libraries := sampleLibraries) (CSCloud.mk "") "kube" sampleService [] w in
  run.1 = (sampleService, None,
           Some (ErrorNew "none of the hosts matched the list of VMs retrieved from CS API"))
  ∧ ∃ new, trace run.2 = trace w ++ new ∧ Forall (λ ev, isLookup ev = true) new.
Proof.
  apply (EnsureLoadBalancer_early_failure (mapRange := insertionOrder)
           (helpers := sampleHelpers) (libraries := sampleLibraries) (CSCloud.mk "") "kube"
           sampleService [] (mkWorld (sampleSim noRules [] refuseNone) [])).
  - discriminate.
  - vm_compute. reflexivity.
Defined.

Lemma updateFirewallRule_settled_witness :
  let sim := sampleSim noRules [sampleFirewallRule "fw-0" "192.168.0.0/16,10.0.0.0/8" 80;
                                sampleFirewallRule "fw-1" "10.0.0.0/8" 443] refuseNone in
  updateFirewallRule (mapRange := insertionOrder) (helpers := sampleHelpers) sampleLB "ip-1"
    80 SampleTCP ["10.0.0.0/8"; "192.168.0.0/16"] (mkWorld sim [])
  = ((true, None), mkWorld sim ([] ++ [Api (ListFirewallRules "ip-1" "")])).
Proof.
  intros sim.
  apply (updateFirewallRule_settled (mapRange := insertionOrder) (helpers := sampleHelpers)
           sim [] sampleLB "ip-1" 80 SampleTCP ["10.0.0.0/8"; "192.168.0.0/16"]
           (sampleFirewallRule "fw-0" "192.168.0.0/16,10.0.0.0/8" 80)).
  - reflexivity.
  - vm_compute. reflexivity.
  - apply compareStringSlice_Permutation. vm_compute. reflexivity.
Defined.

Lemma deleteFirewallRule_result_witness :
  let run :=
    deleteFirewallRule (helpers := sampleHelpers) sampleLB "ip-1" 80 SampleTCP
      (mkWorld (sampleSim noRules threeFirewallRules refuseFirst) []) in
  run.1 = (true, None)
  ∧ trace run.2
    = [Api (ListFirewallRules "ip-1" "");
       Api (DeleteFirewallRule "fw-0");
       Klog LogError "Error deleting old firewall rule %v: %v";
       Api (DeleteFirewallRule "fw-1")].
Proof.
  exact (deleteFirewallRule_result (helpers := sampleHelpers)
           (sampleSim noRules threeFirewallRules refuseFirst) [] sampleLB "ip-1" 80
           SampleTCP eq_refl).
Defined.

Lemma deleteFirewallRule_clears_witness :
  Sim.firewallRules
    (remote (deleteFirewallRule (helpers := sampleHelpers) sampleLB "ip-1" 80 SampleTCP
               (mkWorld (sampleSim noRules threeFirewallRules refuseFirst) [])).2)
  = [sampleFirewallRule "fw-0" "10.0.0.0/8" 80; sampleFirewallRule "fw-2" "10.0.0.0/8" 443].
Proof.
  refine (proj1 (deleteFirewallRule_clears (helpers := sampleHelpers)
                   (sampleSim noRules threeFirewallRules refuseFirst) [] sampleLB "ip-1" 80
                   SampleTCP eq_refl _)).
  apply (bool_decide_unpack _). vm_compute. exact I.
Defined.

Lemma sampleLBWithRule_keyed : keyedByName (loadBalancer.rules sampleLBWithRule).
Proof.
  intros key lbRule. unfold sampleLBWithRule.
  cbn [loadBalancer.rules loadBalancer.set_rules].
  by intros [<- <-]%lookup_singleton_Some.
Qed.

Lemma ensurePorts_leftover_witness :
  let run :=
    ensurePorts (mapRange := insertionOrder) (helpers := sampleHelpers)
      (libraries := sampleLibraries) sampleService sampleLBWithRule
      (ServiceSpec.Ports (Service.Spec sampleService))
      (mkWorld (sampleSim noRules [] refuseNone) []) in
  run.1.1 = loadBalancer.set_rules sampleLBWithRule (loadBalancer.rules run.1.1)
  ∧ ∀ key,
      loadBalancer.rules run.1.1 !! key
      = if bool_decide (key ∈ lbRuleName (H := sampleHelpers) sampleLBWithRule sampleService
                               <$> ServiceSpec.Ports (Service.Spec sampleService))
        then None
        else loadBalancer.rules sampleLBWithRule !! key.
Proof.
  intros run.
  apply (ensurePorts_leftover (mapRange := insertionOrder) (helpers := sampleHelpers)
           (libraries := sampleLibraries) sampleService sampleLBWithRule run.1.1
           (ServiceSpec.Ports (Service.Spec sampleService))
           (mkWorld (sampleSim noRules [] refuseNone) [])).
  - exact sampleLBWithRule_keyed.
  - vm_compute. reflexivity.
Defined.

Lemma cleanupRules_deletes_all_witness :
  let stale := (rangeOrder (MapRange := insertionOrder)
                  (map_to_list (loadBalancer.rules sampleLBWithRule))).*2 in
  let run :=
    cleanupRules (helpers := sampleHelpers) sampleLBWithRule stale
      (mkWorld (sampleSim noRules [] refuseNone) []) in
  loadBalancer.rules run.1.1 = ∅
  ∧ lbRuleDeletions (trace run.2) = lbRuleDeletions [] ++ (LoadBalancerRule.Id <$> stale)
  ∧ Forall (λ lbRule, knownProtocol (H := sampleHelpers) lbRule
                      ∧ is_Some (ParseInt32 (LoadBalancerRule.Publicport lbRule))) stale.
Proof.
  intros stale run.
  apply (cleanupRules_deletes_all (mapRange := insertionOrder) (helpers := sampleHelpers)
           sampleLBWithRule run.1.1 (mkWorld (sampleSim noRules [] refuseNone) [])).
  - exact sampleLBWithRule_keyed.
  - vm_compute. reflexivity.
Defined.

Lemma EnsureLoadBalancerDeleted_absent_witness :
  let w := mkWorld (sampleSim noRules [] refuseNone) [] in
  EnsureLoadBalancerDeleted (mapRange := insertionOrder) (helpers := sampleHelpers)
    (libraries := sampleLibraries) (CSCloud.mk "") "kube" sampleService w
  = (None,
     (getLoadBalancerByName (CSCloud.mk "")
        (GetLoadBalancerName (helpers := sampleHelpers) "kube" sampleService)
        (getLoadBalancerLegacyName (libraries := sampleLibraries) "kube" sampleService) w).2).
Proof.
  intros w.
  apply (EnsureLoadBalancerDeleted_absent (mapRange := insertionOrder)
           (helpers := sampleHelpers) (libraries := sampleLibraries) (CSCloud.mk "") "kube"
           sampleService w
           (emptyLoadBalancer (CSCloud.mk "")
              (GetLoadBalancerName (helpers := sampleHelpers) "kube" sampleService))).
  - vm_compute. reflexivity.
  - reflexivity.
Defined.

Lemma EnsureLoadBalancerDeleted_deletes_witness :
  let w := mkWorld (sampleSim unknownProtocolRules [] refuseNone) [] in
  let run :=
    EnsureLoadBalancerDeleted (mapRange := insertionOrder) (helpers := sampleHelpers)
      (libraries := sampleLibraries) (CSCloud.mk "") "kube" sampleService w in
  lbRuleDeletions (trace run.2) = ["lb-K8s_svc_kube_default_web-tcp-80"]
  ∧ protocolErrors (trace run.2) = 1%nat
  ∧ last (trace run.2) = Some (Api (DisassociateIpAddress "ip-1"))
  ∧ releases (trace run.2) = ["ip-1"].
Proof.
  intros w run.
  set (lookup := getLoadBalancerByName (CSCloud.mk "")
                   (GetLoadBalancerName (helpers := sampleHelpers) "kube" sampleService)
                   (getLoadBalancerLegacyName (libraries := sampleLibraries) "kube"
                      sampleService) w).
  set (lb := match lookup.1 with inr lb => lb | inl _ => sampleLB end).
  assert (lookup.1 = inr lb) as Hlookup by (vm_compute; reflexivity).
  assert (run.1 = None) as Hrun by (vm_compute; reflexivity).
  assert (loadBalancer.ipAddr lb ≠ "") as Haddress by (vm_compute; discriminate).
  destruct (EnsureLoadBalancerDeleted_deletes (mapRange := insertionOrder)
              (helpers := sampleHelpers) (libraries := sampleLibraries) (CSCloud.mk "")
              "kube" sampleService w lb Hlookup Hrun)
    as (Hdeleted & Hlogged & Hreleased & _).
  destruct (Hreleased Haddress) as [Hlast Hrelease].
  split_and!.
  - etrans; [exact Hdeleted|]. vm_compute. reflexivity.
  - etrans; [exact Hlogged|]. vm_compute. reflexivity.
  - etrans; [exact Hlast|]. vm_compute. reflexivity.
  - etrans; [exact Hrelease|]. vm_compute. reflexivity.
Defined.

Lemma EnsureLoadBalancerDeleted_keeps_address_witness :
  let w := mkWorld keepsAddressSim [] in
  let run :=
    EnsureLoadBalancerDeleted (mapRange := insertionOrder) (helpers := sampleHelpers)
      (libraries := sampleLibraries) (CSCloud.mk "") "kube" sampleService w in
  releases (trace run.2) = releases (trace w)
  ∨ ∃ failure,
      Errorf "error releasing load balancer IP %v: %w" (Some (ErrorNew "release refused"))
      = Errorf "error releasing load balancer IP %v: %w" (Some failure).
Proof.
  apply (EnsureLoadBalancerDeleted_keeps_address (mapRange := insertionOrder)
           (helpers := sampleHelpers) (libraries := sampleLibraries) (CSCloud.mk "") "kube"
           sampleService (mkWorld keepsAddressSim [])).
  vm_compute. reflexivity.
Defined.

Lemma EnsureLoadBalancer_requested_address_witness :
  let w := mkWorld (sampleSim noRules [] refuseNone) [] in
  ∃ new,
    trace (EnsureLoadBalancer (mapRange := insertionOrder) (helpers := sampleHelpers)
             (libraries := sampleLibraries) (CSCloud.mk "") "kube" pinnedService
             sampleNodes w).2
    = trace w ++ new
    ∧ Forall (λ e, isAssociate e = false) new.
Proof.
  apply (EnsureLoadBalancer_requested_address (mapRange := insertionOrder)
           (helpers := sampleHelpers) (libraries := sampleLibraries) (CSCloud.mk "") "kube"
           pinnedService sampleNodes (mkWorld (sampleSim noRules [] refuseNone) [])).
  discriminate.
Defined.

Lemma EnsureLoadBalancer_existing_address_witness :
  let w := mkWorld (sampleSim twoAddresses [] refuseNone) [] in
  let checked :=
    locateAndVerify (helpers := sampleHelpers) (libraries := sampleLibraries)
      (CSCloud.mk "") "kube" sampleService sampleNodes w in
  ∃ new,
    trace (EnsureLoadBalancer (mapRange := insertionOrder) (helpers := sampleHelpers)
             (libraries := sampleLibraries) (CSCloud.mk "") "kube" sampleService
             sampleNodes w).2
    = trace checked.2 ++ new
    ∧ Forall (λ e, isRuleWork e = true ∨ isPatch e = true) new.
Proof.
  intros w checked.
  set (lb := match checked.1 with inr lb => lb | inl _ => sampleLB end).
  apply (EnsureLoadBalancer_existing_address (mapRange := insertionOrder)
           (helpers := sampleHelpers) (libraries := sampleLibraries) (CSCloud.mk "") "kube"
           sampleService sampleNodes w checked.2 lb).
  - discriminate.
  - vm_compute. reflexivity.
  - vm_compute. reflexivity.
Defined.

Lemma ensurePort_up_to_date_witness :
  let port := ServicePort.mk "http" "TCP" 80 30080 in
  let w := mkWorld (sampleSim noRules [] refuseNone) [] in
  let run :=
    ensurePort (mapRange := insertionOrder) (helpers := sampleHelpers)
      (libraries := sampleLibraries) sampleService upToDateLB port w in
  (∃ new,
     trace run.2 = trace w ++ new
     ∧ Forall (λ e, isFirewallRound e = true ∧ touchesLbRule e = false) new)
  ∧ loadBalancer.rules run.1.1
    = delete (lbRuleName (H := sampleHelpers) upToDateLB sampleService port)
        (loadBalancer.rules upToDateLB).
Proof.
  intros port w run.
  apply (ensurePort_up_to_date (mapRange := insertionOrder) (helpers := sampleHelpers)
           (libraries := sampleLibraries) sampleService upToDateLB port
           (sampleRule "K8s_svc_kube_default_web-tcp-80" "203.0.113.10" "ip-1") w).
  - discriminate.
  - vm_compute. reflexivity.
  - repeat split.
  - reflexivity.
  - reflexivity.
Defined.

Lemma updateFirewallRule_converges_witness :
  let run :=
    updateFirewallRule (mapRange := insertionOrder) (helpers := sampleHelpers)
      sampleLB "ip-1" 80 SampleTCP ["10.1.0.0/16"; "192.168.0.0/16"]
      (mkWorld
         (sampleSim noRules
            [sampleFirewallRule "fw-0" "10.0.0.0/8" 80;
             sampleFirewallRule "fw-1" "192.168.0.0/16,10.1.0.0/16" 80]
            refuseSecond) []) in
  trace run.2 = [Api (ListFirewallRules "ip-1" ""); Api (DeleteFirewallRule "fw-0")]
  ∧ ∃ rule,
      filter (λ r, forIdentity (H := sampleHelpers) "ip-1" SampleTCP 80 r = true)
        (Sim.firewallRules (remote run.2)) = [rule]
      ∧ Split (FirewallRule.Cidrlist rule) ","%char
        ≡ₚ desiredCIDRs ["10.1.0.0/16"; "192.168.0.0/16"].
Proof.
  intros run.
  assert (trace run.2 = [Api (ListFirewallRules "ip-1" ""); Api (DeleteFirewallRule "fw-0")])
    as Htrace by (vm_compute; reflexivity).
  split; [exact Htrace|].
  apply (updateFirewallRule_converges (mapRange := insertionOrder) (helpers := sampleHelpers)).
  - apply (bool_decide_unpack _). vm_compute. exact I.
  - repeat constructor.
  - intros id. fold run. rewrite Htrace. cbn [length drop].
    rewrite !elem_of_cons, elem_of_nil.
    intros [Heq|[Heq|[]]]; [discriminate|]. injection Heq as ->. reflexivity.
  - vm_compute. reflexivity.
Defined.
